(** * Coordination plane of the scraping service (TP2)

    A shallow embedding of the Python sources
    - [common/protocol.py]       length-prefixed JSON framing,
    - [server_scraping.py]       task manager, result cache, per-domain rate
                                 limiter, scrape pipeline, HTTP handler,
    - [server_processing.py]     analyzer dispatch of the processing server,
    - [processor/advanced.py]    SEO scoring, technology detection,
                                 structured data, accessibility report,
    - [processor/image_processor.py]  the thumbnail generator,
    - [scraper/*.py]             the two extractors feeding the SEO scorer,
    - [client.py]                the polling client,
    followed by the properties established about them.

    Conventions.
    - Python [dict]s with string keys are [gmap string _]; [None] is [option].
    - Python [str] is [string]; one [ascii] stands for one character, so
      [String.length] plays the role of [len].
    - An instant ([datetime.now(timezone.utc)]) is an integer number of
      microseconds since the epoch, the resolution of [datetime]; a
      comparison of a duration with a number of seconds is the comparison of
      the integer number of microseconds with that number scaled.
    - Code that can raise returns [result]; [Raise e] is the exception.
    - Libraries outside the repository (the JSON codec, the lxml parser,
      [urljoin], [urlparse], [strftime]) are the methods of type classes. *)

From stdpp Require Import gmap strings list fin_maps pretty sorting.
From Equations Require Import Equations.
From Stdlib Require Import ZArith Lia Ascii.
From Stdlib.Strings Require Import Byte.

#[local] Set Warnings "-register-all".
#[local] Open Scope Z_scope.

(* ===================================================================== *)
(** * Part I. Definitions                                                 *)
(* ===================================================================== *)

(** ** Exceptions and fallible computations *)

Inductive exn : Type :=
  | ValueError (msg : string)
  | ConnectionError (msg : string)
  | IncompleteReadError (msg : string)
  | StructError (msg : string)
  | JSONDecodeError (msg : string)
  | TimeoutError (msg : string)
  | AttributeError (msg : string)
  | KeyError (key : string)
  | OtherError (type_name msg : string).

(** [type(exc).__name__] *)
Definition exn_type_name (e : exn) : string :=
  match e with
  | ValueError _ => "ValueError"
  | ConnectionError _ => "ConnectionError"
  | IncompleteReadError _ => "IncompleteReadError"
  | StructError _ => "error"
  | JSONDecodeError _ => "JSONDecodeError"
  | TimeoutError _ => "TimeoutError"
  | AttributeError _ => "AttributeError"
  | KeyError _ => "KeyError"
  | OtherError t _ => t
  end.

(** [str(exc)] *)
Definition exn_str (e : exn) : string :=
  match e with
  | ValueError m | ConnectionError m | IncompleteReadError m | StructError m
  | JSONDecodeError m | TimeoutError m | AttributeError m
  | OtherError _ m => m
  | KeyError k => "'" +:+ k +:+ "'"
  end.

(** [isinstance(exc, asyncio.TimeoutError)] *)
Definition is_timeout (e : exn) : bool :=
  match e with TimeoutError _ => true | _ => false end.

Inductive result (A : Type) : Type :=
  | Ok (a : A)
  | Raise (e : exn).
Arguments Ok {A} a.
Arguments Raise {A} e.

#[global] Instance result_ret : MRet result := fun A a => Ok a.
#[global] Instance result_bind : MBind result := fun A B k r =>
  match r with Ok a => k a | Raise e => Raise e end.
#[global] Instance result_fmap : FMap result := fun A B f r =>
  match r with Ok a => Ok (f a) | Raise e => Raise e end.

(** ** JSON values *)

(** The values that travel as JSON in this service: the documents hold no
    floating-point number. *)
Inductive json : Type :=
  | JNull
  | JBool (b : bool)
  | JInt (z : Z)
  | JStr (s : string)
  | JList (l : list json)
  | JDict (d : gmap string json).

(** Python truth value of a JSON value ([if v:]). *)
Definition truthy (v : json) : bool :=
  match v with
  | JNull => false
  | JBool b => b
  | JInt z => negb (z =? 0)
  | JStr s => negb (String.eqb s "")
  | JList l => match l with [] => false | _ => true end
  | JDict d => negb (bool_decide (d = ∅))
  end.

(** [v == s] for the outcome [v] of a [.get] and a string [s]. *)
Definition is_str (v : option json) (s : string) : bool :=
  match v with
  | Some (JStr s') => String.eqb s' s
  | _ => false
  end.

(** Truth value of an optional value ([None] is false). *)
Definition truthy_opt (o : option json) : bool :=
  match o with Some v => truthy v | None => false end.

(** ** The RPC codec: [common/protocol.py] *)

Definition bytes := list byte.

Definition byte_of_Z (z : Z) : byte :=
  match Byte.of_N (Z.to_N (z mod 256)) with
  | Some b => b
  | None => x00
  end.

Definition Z_of_byte (b : byte) : Z := Z.of_N (Byte.to_N b).

(** [struct.Struct("!I").pack(n)]: four bytes, most significant first;
    [struct.error] outside the range of an unsigned 32-bit integer. *)
Definition HEADER_STRUCT_pack (n : Z) : result bytes :=
  if (0 <=? n) && (n <? 2 ^ 32) then
    Ok [ byte_of_Z (Z.shiftr n 24); byte_of_Z (Z.shiftr n 16);
         byte_of_Z (Z.shiftr n 8); byte_of_Z n ]
  else Raise (StructError "argument out of range").

(** [HEADER_STRUCT.size] *)
Definition HEADER_STRUCT_size : Z := 4.

(** [struct.Struct("!I").unpack(b)] *)
Definition HEADER_STRUCT_unpack (b : bytes) : result Z :=
  match b with
  | [b3; b2; b1; b0] =>
      Ok (Z.lor (Z.shiftl (Z_of_byte b3) 24)
         (Z.lor (Z.shiftl (Z_of_byte b2) 16)
         (Z.lor (Z.shiftl (Z_of_byte b1) 8) (Z_of_byte b0))))
  | _ => Raise (StructError "unpack requires a buffer of 4 bytes")
  end.

(** [json.dumps(payload, separators=(",", ":"), ensure_ascii=False)
     .encode("utf-8")] and [json.loads(data.decode("utf-8"))]. *)
Class JsonCodec := {
  json_dumps : json → bytes;
  json_loads : bytes → result json;
}.

(** The receiving end of a TCP connection: the segments still to arrive, in
    order.  [recv] hands out at most what was asked for of the first
    segment; once nothing is left (or an empty segment is reached) it
    returns [b""], which is how a closed connection shows. *)
Definition socket := list bytes.

Definition blen (b : bytes) : Z := Z.of_nat (length b).

(** [sock.recv(n)] *)
Definition recv (sock : socket) (n : Z) : bytes * socket :=
  match sock with
  | [] => ([], [])
  | c :: rest =>
      if blen c <=? n then (c, rest)
      else (take (Z.to_nat n) c, drop (Z.to_nat n) c :: rest)
  end.

(** The [while remaining > 0] loop of [recv_all]; [chunks] is kept in
    arrival order. *)
Equations? recv_all_loop (sock : socket) (remaining : Z) (chunks : list bytes)
  : result (bytes * socket) by wf (Z.to_nat remaining) lt :=
  recv_all_loop sock remaining chunks with Z_gt_dec remaining 0 => {
    | right _ := Ok (concat chunks, sock);
    | left _ with Z_gt_dec (blen (recv sock remaining).1) 0 => {
        | right _ := Raise (ConnectionError "Conexión cerrada inesperadamente");
        | left _ :=
            recv_all_loop (recv sock remaining).2
              (remaining - blen (recv sock remaining).1)
              (chunks ++ [(recv sock remaining).1]) } }.
Proof. lia. Qed.

Definition recv_all (sock : socket) (nbytes : Z) : result (bytes * socket) :=
  recv_all_loop sock nbytes [].

(** [send_message]: the bytes handed to [sock.sendall] are appended to what
    the connection already carries. *)
Definition send_message `{JsonCodec} (wire : bytes) (payload : json) : result bytes :=
  let data := json_dumps payload in
  header ← HEADER_STRUCT_pack (blen data);
  Ok (wire ++ header ++ data).

(** [recv_message] *)
Definition recv_message `{JsonCodec} (sock : socket) : result (json * socket) :=
  '(header_bytes, sock) ← recv_all sock HEADER_STRUCT_size;
  length ← HEADER_STRUCT_unpack header_bytes;
  if (length <=? 0) || (length >? 1000000000) then
    Raise (ValueError "Tamaño de mensaje inválido")
  else
    '(data, sock) ← recv_all sock length;
    payload ← json_loads data;
    Ok (payload, sock).

(** ** The RPC client: [call_processing_server_async] *)

(** [await reader.readexactly(n)] on an [asyncio.StreamReader]: exactly [n]
    bytes, or [IncompleteReadError] when the stream ends first. *)
Definition readexactly (reader : socket) (n : Z) : result (bytes * socket) :=
  match recv_all reader n with
  | Ok r => Ok r
  | Raise _ => Raise (IncompleteReadError "stream ended before n bytes")
  end.

(** [conn] is the outcome of [asyncio.open_connection]: the exception it
    raised, or the peer, which answers the bytes written to it with the
    stream on which its reply arrives. *)
Definition call_processing_server_async `{JsonCodec}
    (conn : result (bytes → socket)) (payload : json) : result json :=
  peer ← conn;
  let data := json_dumps payload in
  header ← HEADER_STRUCT_pack (blen data);
  let reader := peer (header ++ data) in
  '(header_bytes, reader) ← readexactly reader 4;
  length ← HEADER_STRUCT_unpack header_bytes;
  if (length <=? 0) || (length >? 100000000) then
    Raise (ValueError ("Tamaño de mensaje inválido: " +:+ pretty length))
  else
    '(data_bytes, reader) ← readexactly reader length;
    json_loads data_bytes.

(** ** Time *)

(** Microseconds in a second. *)
Definition us : Z := 1000000.

(** [delta.total_seconds() > secs] for a duration of [delta] microseconds. *)
Definition seconds_gt (delta secs : Z) : bool := delta >? secs * us.

(** ** Task records and the task manager: [server_scraping.py] *)

(** A result document, [Dict[str, Any]]. *)
Abbreviation doc := (gmap string json).

Record TaskRecord := mkTaskRecord {
  task_id : string;
  url : string;
  status : string;
  created_at : Z;
  updated_at : Z;
  result_ : option doc;
  error : option string;
}.

(** [TaskManager._tasks] *)
Abbreviation TaskManager := (gmap string TaskRecord).

(** [TaskRecord(task_id=uuid4().hex, url=url)]: the other fields take their
    defaults; [uuid] is the value of [uuid.uuid4().hex], [now] the instant
    read by the two [default_factory] calls. *)
Definition fresh_record (uuid : string) (now : Z) (u : string) : TaskRecord :=
  {| task_id := uuid; url := u; status := "pending";
     created_at := now; updated_at := now;
     result_ := None; error := None |}.

(** [create_task] *)
Definition create_task (tasks : TaskManager) (uuid : string) (now : Z)
    (u : string) : TaskRecord * TaskManager :=
  let record := fresh_record uuid now u in
  (record, <[record.(task_id) := record]> tasks).

(** [TaskManager.get] *)
Definition manager_get (tasks : TaskManager) (tid : string)
    : option TaskRecord :=
  tasks !! tid.

(** The three assignments of [set_status] on a record. *)
Definition record_set_status (record : TaskRecord) (st : string)
    (err : option string) (now : Z) : TaskRecord :=
  {| task_id := record.(task_id); url := record.(url);
     status := st;
     created_at := record.(created_at);
     updated_at := now;
     result_ := record.(result_);
     error := err |}.

(** The four assignments of [set_result] on a record. *)
Definition record_set_result (record : TaskRecord) (res : doc) (st : string)
    (now : Z) : TaskRecord :=
  {| task_id := record.(task_id); url := record.(url);
     status := st;
     created_at := record.(created_at);
     updated_at := now;
     result_ := Some res;
     error := None |}.

(** [set_status]; [self._tasks[task_id]] raises [KeyError] on an unknown id. *)
Definition set_status (tasks : TaskManager) (tid : string)
    (st : string) (err : option string) (now : Z) : result TaskManager :=
  match tasks !! tid with
  | None => Raise (KeyError tid)
  | Some record => Ok (<[tid := record_set_status record st err now]> tasks)
  end.

(** [set_result] *)
Definition set_result (tasks : TaskManager) (tid : string)
    (res : doc) (st : string) (now : Z) : result TaskManager :=
  match tasks !! tid with
  | None => Raise (KeyError tid)
  | Some record => Ok (<[tid := record_set_result record res st now]> tasks)
  end.

(** ** The result cache *)

Record ResultCache := mkResultCache {
  _ttl : Z;
  _entries : gmap string (Z * doc);
}.

(** [ResultCache(ttl_seconds)] *)
Definition ResultCache_init (ttl_seconds : Z) : ResultCache :=
  {| _ttl := ttl_seconds; _entries := ∅ |}.

(** [ResultCache.get]: the value returned and the cache afterwards. *)
Definition cache_get (c : ResultCache) (u : string) (now : Z)
    : option doc * ResultCache :=
  match c.(_entries) !! u with
  | None => (None, c)
  | Some (timestamp, data) =>
      if seconds_gt (now - timestamp) c.(_ttl) then
        (None, {| _ttl := c.(_ttl); _entries := delete u c.(_entries) |})
      else (Some data, c)
  end.

(** [ResultCache.set] *)
Definition cache_set (c : ResultCache) (u : string) (data : doc) (now : Z)
    : ResultCache :=
  {| _ttl := c.(_ttl); _entries := <[u := (now, data)]> c.(_entries) |}.

(** ** The per-domain rate limiter *)

Record DomainRateLimiter := mkDomainRateLimiter {
  _max : Z;
  _calls : gmap string (list Z);
  _period : Z;
}.

(** [DomainRateLimiter(max_requests_per_minute)]; [_period = 60.0] seconds. *)
Definition DomainRateLimiter_init (max_requests_per_minute : Z)
    : DomainRateLimiter :=
  {| _max := max_requests_per_minute; _calls := ∅; _period := 60 * us |}.

(** [while bucket and now - bucket[0] > self._period: bucket.popleft()] *)
Fixpoint popleft_while (now period : Z) (bucket : list Z) : list Z :=
  match bucket with
  | [] => []
  | t :: rest =>
      if now - t >? period then popleft_while now period rest else bucket
  end.

(** [DomainRateLimiter.allow]: the verdict and the limiter afterwards.
    [setdefault] leaves the (purged) bucket in the table on both exits. *)
Definition allow (l : DomainRateLimiter) (domain : string) (now : Z)
    : bool * DomainRateLimiter :=
  if l.(_max) <=? 0 then (true, l)
  else
    let bucket := default [] (l.(_calls) !! domain) in
    let bucket := popleft_while now l.(_period) bucket in
    if Z.of_nat (length bucket) >=? l.(_max) then
      (false, {| _max := l.(_max); _calls := <[domain := bucket]> l.(_calls);
                 _period := l.(_period) |})
    else
      (true, {| _max := l.(_max);
                _calls := <[domain := bucket ++ [now]]> l.(_calls);
                _period := l.(_period) |}).

(** ** Parsed documents *)

(** An element of the tree that [BeautifulSoup(html, "lxml")] builds:
    its name, its attributes as written in the document, and the value of
    [get_text(strip=True)]. *)
Record Tag := mkTag {
  tag_name : string;
  tag_attrs : gmap string string;
  tag_text : string;
}.

(** The parser and the URL functions of the standard library.  A parsed
    document is the list of its elements in document order, which is the
    order in which [find] and [find_all] visit them. *)
Class Platform := {
  BeautifulSoup : string → list Tag;
  urljoin : string → string → string;
  urlparse_hostname : string → option string;
  strftime : Z → string;
}.

(** [tag.get(key)] *)
Definition tag_get (t : Tag) (key : string) : option string :=
  t.(tag_attrs) !! key.

(** [soup.find_all(name)] *)
Definition find_all (soup : list Tag) (name : string) : list Tag :=
  List.filter (λ t, bool_decide (t.(tag_name) = name)) soup.

(** [soup.find_all(name, key=True)]: the elements carrying the attribute. *)
Definition find_all_with (soup : list Tag) (name key : string) : list Tag :=
  List.filter (λ t, bool_decide (t.(tag_name) = name) &&
                    bool_decide (is_Some (tag_get t key))) soup.

(** [soup.find(name)] *)
Definition find (soup : list Tag) (name : string) : option Tag :=
  head (find_all soup name).

(** [soup.find(name, attrs={key: value})] for a single-valued attribute. *)
Definition find_attr (soup : list Tag) (name key value : string)
    : option Tag :=
  head (List.filter (λ t, bool_decide (t.(tag_name) = name) &&
                          bool_decide (tag_get t key = Some value)) soup).

(** Whether the [rel] attribute, held as the list of its
    whitespace-separated tokens, has [value] among them. *)
Definition rel_matches (t : Tag) (value : string) : bool :=
  match tag_get t "rel" with
  | Some v => bool_decide (value ∈ String.words v)
  | None => false
  end.

(** [soup.find(name, rel=value)] *)
Definition find_rel (soup : list Tag) (name value : string) : option Tag :=
  head (List.filter (λ t, bool_decide (t.(tag_name) = name) &&
                          rel_matches t value) soup).

(** [needle in hay] on strings *)
Fixpoint contains (needle hay : string) : bool :=
  String.prefix needle hay ||
  match hay with
  | EmptyString => false
  | String _ rest => contains needle rest
  end.

Definition slen (s : string) : Z := Z.of_nat (String.length s).

(** ** The scraper's extractors: [scraper/html_parser.py],
       [scraper/metadata_extractor.py] *)

(** [_normalize_urls] *)
Definition _normalize_urls `{Platform} (elements : list Tag)
    (attribute : string) (base_url : option string) : list string :=
  omap (λ element,
          match tag_get element attribute with
          | None | Some EmptyString => None
          | Some href =>
              match base_url with
              | None | Some EmptyString => Some href
              | Some base => Some (urljoin base href)
              end
          end) elements.

Record BasicStructure := mkBasicStructure {
  bs_title : string;
  bs_links : list string;
  bs_structure : gmap string json;
  bs_images_count : Z;
  bs_image_urls : list string;
}.

Definition count_tags (soup : list Tag) (name : string) : Z :=
  Z.of_nat (length (find_all soup name)).

(** [parse_basic_structure] *)
Definition parse_basic_structure `{Platform} (html : string)
    (base_url : option string) : BasicStructure :=
  let soup := BeautifulSoup html in
  let title_el := find soup "title" in
  let title := match title_el with Some el => el.(tag_text) | None => "" end in
  let links := _normalize_urls (find_all_with soup "a" "href") "href" base_url in
  let images := _normalize_urls (find_all_with soup "img" "src") "src" base_url in
  let headers : gmap string json :=
    <["h1" := JInt (count_tags soup "h1")]>
    (<["h2" := JInt (count_tags soup "h2")]>
    (<["h3" := JInt (count_tags soup "h3")]>
    (<["h4" := JInt (count_tags soup "h4")]>
    (<["h5" := JInt (count_tags soup "h5")]>
    (<["h6" := JInt (count_tags soup "h6")]> ∅))))) in
  let images_count := count_tags soup "img" in
  {| bs_title := title; bs_links := links; bs_structure := headers;
     bs_images_count := images_count; bs_image_urls := images |}.

(** [set_if_present] of [extract_meta_tags] *)
Definition set_if_present (meta : gmap string string) (key : string)
    (value : option string) : gmap string string :=
  match value with
  | None | Some EmptyString => meta
  | Some v => <[key := v]> meta
  end.

(** [a or b] on the outcome of two [find]s: an element is always true. *)
Definition or_else {A} (a b : option A) : option A :=
  match a with Some _ => a | None => b end.

(** [extract_meta_tags] *)
Definition extract_meta_tags `{Platform} (html : string) : gmap string string :=
  let soup := BeautifulSoup html in
  let meta : gmap string string := ∅ in
  let description := find_attr soup "meta" "name" "description" in
  let keywords := find_attr soup "meta" "name" "keywords" in
  let og_title := or_else (find_attr soup "meta" "property" "og:title")
                          (find_attr soup "meta" "name" "og:title") in
  let og_desc := or_else (find_attr soup "meta" "property" "og:description")
                         (find_attr soup "meta" "name" "og:description") in
  let meta := set_if_present meta "description"
                (el ← description; tag_get el "content") in
  let meta := set_if_present meta "keywords"
                (el ← keywords; tag_get el "content") in
  let meta := set_if_present meta "og:title"
                (el ← og_title; tag_get el "content") in
  let meta := set_if_present meta "og:description"
                (el ← og_desc; tag_get el "content") in
  meta.

(** ** SEO scoring: [processor/advanced.py] *)

(** [len(v)] *)
Definition py_len (v : json) : result Z :=
  match v with
  | JStr s => Ok (slen s)
  | JList l => Ok (Z.of_nat (length l))
  | JDict d => Ok (Z.of_nat (size d))
  | _ => Raise (OtherError "TypeError" "object has no len()")
  end.

(** [(scraping_data or {})] followed by an attribute access [.get] *)
Definition or_empty_dict (scraping_data : option json) : result (gmap string json) :=
  match scraping_data with
  | None => Ok ∅
  | Some v =>
      if truthy v then
        match v with
        | JDict d => Ok d
        | _ => Raise (AttributeError "object has no attribute 'get'")
        end
      else Ok ∅
  end.

(** [v or w] on JSON values *)
Definition py_or (v : option json) (w : json) : json :=
  match v with
  | Some v => if truthy v then v else w
  | None => w
  end.

Definition b2z (b : bool) (n : Z) : Z := if b then n else 0.

(** The [title] local of [evaluate_seo]. *)
Definition seo_title (soup : list Tag) (sd : gmap string json) : json :=
  py_or (sd !! "title")
        (JStr (match find soup "title" with
               | Some el => el.(tag_text)
               | None => ""
               end)).

(** The [description] local of [evaluate_seo]; [meta_tags.get] raises when
    [meta_tags] is not a dictionary. *)
Definition seo_description (sd : gmap string json) : result json :=
  meta_tags ← match sd !! "meta_tags" with
              | None => Ok ∅
              | Some (JDict d) => Ok d
              | Some _ => Raise (AttributeError "object has no attribute 'get'")
              end;
  Ok (py_or (meta_tags !! "description") (JStr "")).

(** [any("og:" in (tag.get("property") or "") for tag in
    soup.find_all("meta"))] *)
Definition seo_open_graph (soup : list Tag) : bool :=
  existsb (λ tag, contains "og:" (default "" (tag_get tag "property")))
          (find_all soup "meta").

(** [evaluate_seo] *)
Definition evaluate_seo `{Platform} (html : string)
    (scraping_data : option json) : result (gmap string json) :=
  let soup := BeautifulSoup html in
  sd ← or_empty_dict scraping_data;
  let title := seo_title soup sd in
  description ← seo_description sd;
  let h1_count := count_tags soup "h1" in
  let canonical := find_rel soup "link" "canonical" in
  let robots := find_attr soup "meta" "name" "robots" in
  let has_open_graph := seo_open_graph soup in
  let score := 0 in
  let score := score + b2z (truthy title) 15 in
  title_len ← py_len title;
  let score := score + b2z ((10 <=? title_len) && (title_len <=? 70)) 20 in
  let score := score + b2z (truthy description) 15 in
  description_len ← py_len description;
  let score :=
    score + b2z ((50 <=? description_len) && (description_len <=? 160)) 15 in
  let score := score + b2z (bool_decide (h1_count = 1)) 10 in
  let score := score + b2z (bool_decide (is_Some canonical)) 10 in
  let score := score + b2z (bool_decide (is_Some robots)) 5 in
  let score := score + b2z has_open_graph 10 in
  Ok (<["title_length" := JInt title_len]>
     (<["meta_description_length" := JInt description_len]>
     (<["h1_count" := JInt h1_count]>
     (<["has_canonical" := JBool (bool_decide (is_Some canonical))]>
     (<["has_robots" := JBool (bool_decide (is_Some robots))]>
     (<["has_open_graph" := JBool has_open_graph]>
     (<["score" := JInt (Z.min score 100)]> ∅))))))).

(** ** The processing server: [server_processing.py] *)

(** The analyzers other than [evaluate_seo], and [base64.b64encode]; each is
    handed the value found in the request and may raise. *)
Class Analyzers := {
  take_screenshot : json → result bytes;
  analyze_performance : json → result json;
  generate_thumbnails : json → result (list bytes);
  detect_technologies : json → result json;
  extract_structured_data : json → result json;
  analyze_accessibility : json → result json;
  b64encode : bytes → string;
}.

(** [bytes_to_base64] of [common/serialization.py] *)
Definition bytes_to_base64 `{Analyzers} (data : option bytes) : option string :=
  match data with
  | None => None
  | Some data => Some (b64encode data)
  end.

(** [_encode_thumbnails] *)
Definition _encode_thumbnails `{Analyzers} (thumbs : list bytes) : list string :=
  omap (λ thumb, bytes_to_base64 (Some thumb)) thumbs.

(** [try: out[key] = call  except Exception: out[key] = dflt], with the name
    of the analyzer recorded in the list of calls made. *)
Definition guarded (flag : bool) (name key : string) (call : result json)
    (dflt : json) (st : doc * list string) : doc * list string :=
  if flag then
    (<[key := match call with Ok v => v | Raise _ => dflt end]> st.1,
     st.2 ++ [name])
  else st.

(** [evaluate_seo(html, scraping_data)] on the values found in the request. *)
Definition call_evaluate_seo `{Platform} (html scraping_data : json)
    : result json :=
  match html with
  | JStr h => JDict <$> evaluate_seo h (Some scraping_data)
  | _ => Raise (OtherError "TypeError" "markup is not a string")
  end.

(** [process_tasks]: the [out] dictionary and, in order, the analyzers that
    were invoked. *)
Definition process_tasks `{Platform} `{Analyzers}
    (u tasks image_urls html scraping_data : json)
    : result (doc * list string) :=
  let out : doc :=
    <["screenshot" := JNull]>
    (<["performance" := JNull]>
    (<["thumbnails" := JList []]>
    (<["tech_stack" := JList []]>
    (<["seo" := JDict ∅]>
    (<["structured_data" := JList []]>
    (<["accessibility" := JDict ∅]> ∅)))))) in
  match tasks with
  | JDict tasks =>
      let st := (out, []) in
      let st := guarded (truthy_opt (tasks !! "screenshot"))
                  "take_screenshot" "screenshot"
                  (png ← take_screenshot u;
                   Ok (from_option JStr JNull (bytes_to_base64 (Some png))))
                  JNull st in
      let st := guarded (truthy_opt (tasks !! "performance"))
                  "analyze_performance" "performance"
                  (analyze_performance u) JNull st in
      let st := guarded (truthy_opt (tasks !! "thumbnails") && truthy image_urls)
                  "generate_thumbnails" "thumbnails"
                  (thumbs ← generate_thumbnails image_urls;
                   Ok (JList (JStr <$> _encode_thumbnails thumbs)))
                  (JList []) st in
      let st := guarded (truthy_opt (tasks !! "tech_stack") && truthy html)
                  "detect_technologies" "tech_stack"
                  (detect_technologies html) (JList []) st in
      let st := guarded (truthy_opt (tasks !! "seo") && truthy html)
                  "evaluate_seo" "seo"
                  (call_evaluate_seo html scraping_data) (JDict ∅) st in
      let st := guarded (truthy_opt (tasks !! "structured_data") && truthy html)
                  "extract_structured_data" "structured_data"
                  (extract_structured_data html) (JList []) st in
      let st := guarded (truthy_opt (tasks !! "accessibility") && truthy html)
                  "analyze_accessibility" "accessibility"
                  (analyze_accessibility html) (JDict ∅) st in
      Ok st
  | _ => Raise (AttributeError "object has no attribute 'get'")
  end.

(** [{"status": "error", "error": msg}] *)
Definition error_doc (msg : string) : doc :=
  <["status" := JStr "error"]> (<["error" := JStr msg]> ∅).

(** The response that [ProcessingTCPHandler.handle] builds, given the
    outcome of [recv_message]. *)
Definition handle_response `{Platform} `{Analyzers} (received : result json)
    : doc :=
  let attempt : result doc :=
    payload ← received;
    match payload with
    | JDict payload =>
        let u := payload !! "url" in
        let tasks := default (JDict ∅) (payload !! "tasks") in
        let image_urls := default (JList []) (payload !! "image_urls") in
        let html := default (JStr "") (payload !! "html") in
        let scraping_data := default (JDict ∅) (payload !! "scraping_data") in
        if negb (truthy_opt u) then Ok (error_doc "missing url")
        else
          '(res, _) ← process_tasks (default JNull u) tasks image_urls html
                        scraping_data;
          Ok (<["status" := JStr "success"]>
             (<["processing_data" := JDict res]> ∅))
    | _ => Raise (AttributeError "object has no attribute 'get'")
    end in
  match attempt with
  | Ok resp => resp
  | Raise e => error_doc (exn_str e)
  end.

(** [ProcessingTCPHandler.handle] on one connection: the bytes it writes
    back.  When [send_message] raises, the [except] clause sends an error
    response in its turn. *)
Definition handle `{JsonCodec} `{Platform} `{Analyzers} (request : socket)
    : bytes :=
  let resp := handle_response (fst <$> recv_message request) in
  match send_message [] (JDict resp) with
  | Ok wire => wire
  | Raise e =>
      match send_message [] (JDict (error_doc (exn_str e))) with
      | Ok wire => wire
      | Raise _ => []
      end
  end.

(** The processing server as the peer of a connection: the request arrives
    whole, and so does the reply. *)
Definition processing_server `{JsonCodec} `{Platform} `{Analyzers}
    (request : bytes) : socket :=
  [handle [request]].

(** ** The scraping server's application state *)

(** A pipeline coroutine between two runs of the event loop: scheduled and
    not yet started, suspended in [client.fetch_text], or suspended in
    [call_processing_server_async] with the locals it will need. *)
Inductive Coroutine : Type :=
  | AtStart (tid u : string)
  | AtFetch (tid u : string)
  | AtRpc (tid u : string) (scraping_data : doc).

(** [app["task_manager"]], [app["cache"]], [app["rate_limiter"]],
    [app["running_tasks"]] (by task id) and [app["config"]["image_limit"]]. *)
Record App := mkApp {
  task_manager : TaskManager;
  cache : ResultCache;
  rate_limiter : DomainRateLimiter;
  running_tasks : gmap string Coroutine;
  image_limit : Z;
}.

(** [build_app] *)
Definition build_app (rate_limit cache_ttl : Z) : App :=
  {| task_manager := ∅;
     cache := ResultCache_init cache_ttl;
     rate_limiter := DomainRateLimiter_init rate_limit;
     running_tasks := ∅;
     image_limit := 3 |}.

Definition with_task_manager (app : App) (tm : TaskManager) : App :=
  {| task_manager := tm; cache := app.(cache);
     rate_limiter := app.(rate_limiter);
     running_tasks := app.(running_tasks);
     image_limit := app.(image_limit) |}.

Definition with_cache (app : App) (c : ResultCache) : App :=
  {| task_manager := app.(task_manager); cache := c;
     rate_limiter := app.(rate_limiter);
     running_tasks := app.(running_tasks);
     image_limit := app.(image_limit) |}.

Definition with_rate_limiter (app : App) (l : DomainRateLimiter) : App :=
  {| task_manager := app.(task_manager); cache := app.(cache);
     rate_limiter := l;
     running_tasks := app.(running_tasks);
     image_limit := app.(image_limit) |}.

Definition with_running_tasks (app : App) (r : gmap string Coroutine) : App :=
  {| task_manager := app.(task_manager); cache := app.(cache);
     rate_limiter := app.(rate_limiter);
     running_tasks := r;
     image_limit := app.(image_limit) |}.

(** *** Code that changes the application state and may raise *)

(** The state reached is kept when an exception is raised, as the handlers
    of [process_scrape_task] run on it. *)
Definition M (A : Type) : Type := App → result A * App.

Definition ret {A} (a : A) : M A := λ app, (Ok a, app).

Definition raise {A} (e : exn) : M A := λ app, (Raise e, app).

Definition bind {A B} (m : M A) (k : A → M B) : M B := λ app,
  match m app with
  | (Ok a, app) => k a app
  | (Raise e, app) => (Raise e, app)
  end.

(** [try: body  except Exception as e: handler(e)] *)
Definition try_except {A} (body : M A) (handler : exn → M A) : M A := λ app,
  match body app with
  | (Ok a, app) => (Ok a, app)
  | (Raise e, app) => handler e app
  end.

Definition lift {A} (r : result A) : M A := λ app, (r, app).

Notation "x ⇐ m ;; k" := (bind m (λ x, k))
  (at level 100, m at next level, right associativity, only parsing).
Notation "m ;;; k" := (bind m (λ _, k))
  (at level 100, right associativity, only parsing).

Definition do_set_status (tid st : string) (err : option string) (now : Z)
    : M unit := λ app,
  match set_status app.(task_manager) tid st err now with
  | Ok tm => (Ok (), with_task_manager app tm)
  | Raise e => (Raise e, app)
  end.

Definition do_set_result (tid : string) (res : doc) (st : string) (now : Z)
    : M unit := λ app,
  match set_result app.(task_manager) tid res st now with
  | Ok tm => (Ok (), with_task_manager app tm)
  | Raise e => (Raise e, app)
  end.

Definition do_create_task (uuid : string) (now : Z) (u : string)
    : M TaskRecord := λ app,
  let '(record, tm) := create_task app.(task_manager) uuid now u in
  (Ok record, with_task_manager app tm).

Definition do_cache_get (u : string) (now : Z) : M (option doc) := λ app,
  let '(r, c) := cache_get app.(cache) u now in
  (Ok r, with_cache app c).

Definition do_cache_set (u : string) (data : doc) (now : Z) : M unit := λ app,
  (Ok (), with_cache app (cache_set app.(cache) u data now)).

Definition do_allow (domain : string) (now : Z) : M bool := λ app,
  let '(b, l) := allow app.(rate_limiter) domain now in
  (Ok b, with_rate_limiter app l).

(** [schedule_background_task]: the coroutine joins [running_tasks]; it
    leaves the set when it is done. *)
Definition schedule_background_task (tid : string) (co : Coroutine) : M unit :=
  λ app, (Ok (), with_running_tasks app (<[tid := co]> app.(running_tasks))).

Definition suspend (tid : string) (co : Coroutine) : M unit :=
  schedule_background_task tid co.

Definition finish (tid : string) : M unit :=
  λ app, (Ok (), with_running_tasks app (delete tid app.(running_tasks))).

(** ** The scrape pipeline: [process_scrape_task] *)

(** [l[:n]] *)
Definition slice_to {A} (l : list A) (n : Z) : list A :=
  if 0 <=? n then take (Z.to_nat n) l
  else take (length l - Z.to_nat (- n)) l.

Definition all_tasks : doc :=
  <["screenshot" := JBool true]>
  (<["performance" := JBool true]>
  (<["thumbnails" := JBool true]>
  (<["tech_stack" := JBool true]>
  (<["seo" := JBool true]>
  (<["structured_data" := JBool true]>
  (<["accessibility" := JBool true]> ∅)))))).

(** The [scraping_data] dictionary built after the fetch. *)
Definition scraping_data_of `{Platform} (html u : string) : doc :=
  let basic := parse_basic_structure html (Some u) in
  let meta := extract_meta_tags html in
  <["title" := JStr basic.(bs_title)]>
  (<["links" := JList (JStr <$> basic.(bs_links))]>
  (<["meta_tags" := JDict (JStr <$> meta)]>
  (<["structure" := JDict basic.(bs_structure)]>
  (<["images_count" := JInt basic.(bs_images_count)]> ∅)))).

(** The [processing_payload] dictionary. *)
Definition processing_payload_of `{Platform} (limit : Z) (html u : string)
    : doc :=
  let basic := parse_basic_structure html (Some u) in
  let image_urls := basic.(bs_image_urls) in
  <["url" := JStr u]>
  (<["tasks" := JDict all_tasks]>
  (<["image_urls" := JList (JStr <$> slice_to image_urls limit)]>
  (<["html" := JStr html]>
  (<["scraping_data" := JDict (scraping_data_of html u)]> ∅)))).

(** The two [except] clauses that close [process_scrape_task]. *)
Definition on_exception (tid : string) (now : Z) (exc : exn) : M unit :=
  if is_timeout exc then do_set_status tid "failed" (Some "Timeout") now
  else do_set_status tid "failed" (Some (exn_str exc)) now.

(** Lines 146-148: up to the suspension in [client.fetch_text(url)]. *)
Definition scrape_begin (tid : string) (now : Z) : M unit :=
  do_set_status tid "scraping" None now.

(** Lines 148-181: from the outcome [fetched] of the fetch up to the
    suspension in [call_processing_server_async].  The two extractors are
    total here; were one of them to raise, the effect would be that of a
    fetch that raised the same exception, as nothing is stored between the
    fetch and the extraction. *)
Definition scrape_fetched `{Platform} (tid u : string)
    (fetched : result string) (now : Z) : M (doc * doc) :=
  html ⇐ lift fetched ;;
  limit ⇐ (λ app, (Ok app.(image_limit), app)) ;;
  let scraping_data := scraping_data_of html u in
  let processing_payload := processing_payload_of limit html u in
  do_set_status tid "processing" None now ;;;
  ret (scraping_data, processing_payload).

(** Lines 182-202: the response used for the merge, given the outcome
    [processing] of the call. *)
Definition processing_response_of (processing : result json) : json :=
  match processing with
  | Ok r => r
  | Raise exc =>
      JDict (<["status" := JStr "error"]>
            (<["processing_data" := JDict ∅]>
            (<["error" := JStr (exn_type_name exc +:+ ": " +:+ exn_str exc)]>
             ∅)))
  end.

(** Lines 194-205: the result document. *)
Definition merge_result `{Platform} (u : string) (scraping_data : doc)
    (processing_response : json) (now : Z) : result doc :=
  match processing_response with
  | JDict resp =>
      let res : doc :=
        <["url" := JStr u]>
        (<["timestamp" := JStr (strftime now)]>
        (<["scraping_data" := JDict scraping_data]>
        (<["processing_data" :=
             default (JDict ∅) (resp !! "processing_data")]>
        (<["status" :=
             JStr (if is_str (resp !! "status") "success" then "success"
                   else "partial")]> ∅)))) in
      Ok (match resp !! "error" with
          | Some e => <["processing_error" := e]> res
          | None => res
          end)
  | _ => Raise (AttributeError "object has no attribute 'get'")
  end.

(** Lines 182-209: from the outcome of the call to the end of the [try]. *)
Definition scrape_processed `{Platform} (tid u : string) (scraping_data : doc)
    (processing : result json) (now : Z) : M unit :=
  let processing_response := processing_response_of processing in
  res ⇐ lift (merge_result u scraping_data processing_response now) ;;
  do_set_result tid res "completed" now ;;;
  do_cache_set u res now.

(** [process_scrape_task] run from start to end; [fetched] and [processing]
    are the outcomes of the two awaited calls, [now1], [now2], [now3] the
    instants at which the three stretches of code run. *)
Definition process_scrape_task `{Platform} (tid u : string)
    (fetched : result string) (processing : result json)
    (now1 now2 now3 : Z) : M unit := λ app,
  match scrape_begin tid now1 app with
  | (Raise exc, app) => on_exception tid now1 exc app
  | (Ok _, app) =>
      match scrape_fetched tid u fetched now2 app with
      | (Raise exc, app) => on_exception tid now2 exc app
      | (Ok (scraping_data, _), app) =>
          try_except (scrape_processed tid u scraping_data processing now3)
                     (on_exception tid now3) app
      end
  end.

(** ** The HTTP front end: [handle_scrape] *)

Record Request := mkRequest {
  method : string;
  query : gmap string string;
  body_json : result json;
}.

Record Response := mkResponse {
  resp_status : Z;
  resp_body : doc;
}.

(** [web.json_response({"status": "error", "error": msg}, status=code)] *)
Definition error_response (msg : string) (code : Z) : Response :=
  {| resp_status := code;
     resp_body := <["status" := JStr "error"]> (<["error" := JStr msg]> ∅) |}.

(** [_extract_url]: the URL found, or the response to return at once. *)
Definition _extract_url (request : Request) : Response + json :=
  let found : Response + option json :=
    if String.eqb request.(method) "GET" then
      inr (JStr <$> request.(query) !! "url")
    else
      match request.(body_json) with
      | Raise _ => inl (error_response "Body inválido" 400)
      | Ok (JDict payload) => inr (payload !! "url")
      | Ok _ => inr None
      end in
  match found with
  | inl r => inl r
  | inr u =>
      if negb (truthy_opt u) then inl (error_response "Missing url param" 400)
      else inr (default JNull u)
  end.

(** The last two lines of [handle_scrape]. *)
Definition schedule_pipeline (record : TaskRecord) (u : string) : M Response :=
  schedule_background_task record.(task_id) (AtStart record.(task_id) u) ;;;
  ret {| resp_status := 202;
         resp_body := <["task_id" := JStr record.(task_id)]>
                      (<["status" := JStr record.(status)]> ∅) |}.

(** [handle_scrape]; [uuid] and [now] as in [create_task]. *)
Definition handle_scrape `{Platform} (request : Request) (uuid : string)
    (now : Z) : M Response :=
  match _extract_url request with
  | inl data => ret data
  | inr (JStr u) =>
      match urlparse_hostname u with
      | None | Some EmptyString => ret (error_response "URL inválida" 400)
      | Some domain =>
          allowed ⇐ do_allow domain now ;;
          if negb allowed then
            ret (error_response "Rate limit excedido para el dominio" 429)
          else
            record ⇐ do_create_task uuid now u ;;
            cached ⇐ do_cache_get u now ;;
            match cached with
            | Some cached_doc =>
                if truthy (JDict cached_doc) then
                  do_set_result record.(task_id) cached_doc "completed" now ;;;
                  ret {| resp_status := 200;
                         resp_body :=
                           <["task_id" := JStr record.(task_id)]>
                           (<["status" := JStr "completed"]>
                           (<["cached" := JBool true]> ∅)) |}
                else schedule_pipeline record u
            | None => schedule_pipeline record u
            end
      end
  | inr _ => raise (AttributeError "object has no attribute 'decode'")
  end.

(** ** The event loop *)

(** One stretch of a pipeline coroutine, from where it was suspended to its
    next suspension or to its end.  An exception raised by the stretch runs
    the [except] clauses and ends the coroutine, as does one that escapes
    them; the done-callback then discards it from [running_tasks]. *)
Definition run_stretch (tid : string) (now : Z) (body : M (option Coroutine))
    : M unit := λ app,
  match try_except body (λ exc, on_exception tid now exc ;;; ret None) app with
  | (Ok (Some co), app) => suspend tid co app
  | (_, app) => finish tid app
  end.

(** Resuming a coroutine; [fetched] and [processing] are the outcomes of the
    call it was suspended in, when it was suspended in one. *)
Definition resume `{Platform} (co : Coroutine) (fetched : result string)
    (processing : result json) (now : Z) : M unit :=
  match co with
  | AtStart tid u =>
      run_stretch tid now
        (scrape_begin tid now ;;; ret (Some (AtFetch tid u)))
  | AtFetch tid u =>
      run_stretch tid now
        (r ⇐ scrape_fetched tid u fetched now ;;
         ret (Some (AtRpc tid u r.1)))
  | AtRpc tid u scraping_data =>
      run_stretch tid now
        (scrape_processed tid u scraping_data processing now ;;; ret None)
  end.

(** What the event loop does between two suspensions: it serves one
    [/scrape] request (with an identifier that [uuid4] had not issued
    before), or it resumes one pipeline coroutine.  [reply_ok] delimits the
    replies the processing peer may give. *)
Inductive step `{Platform} (reply_ok : json → Prop) : App → App → Prop :=
  | step_scrape app request uuid now :
      app.(task_manager) !! uuid = None →
      step reply_ok app (handle_scrape request uuid now app).2
  | step_resume app tid co fetched processing now :
      app.(running_tasks) !! tid = Some co →
      (∀ r, processing = Ok r → reply_ok r) →
      step reply_ok app (resume co fetched processing now app).2.

(** The states the server can be in. *)
Inductive reachable `{Platform} (reply_ok : json → Prop) (rate_limit cache_ttl : Z)
    : App → Prop :=
  | reachable_init : reachable reply_ok rate_limit cache_ttl
                       (build_app rate_limit cache_ttl)
  | reachable_step app app' :
      reachable reply_ok rate_limit cache_ttl app →
      step reply_ok app app' →
      reachable reply_ok rate_limit cache_ttl app'.

(** ** The frame limit of the protocol *)

(** The largest body length the protocol admits. *)
Definition MAX_FRAME : Z := 100000000.

(** The four header bytes announcing a body of [n] bytes. *)
Definition header_of (n : Z) : bytes :=
  [ byte_of_Z (Z.shiftr n 24); byte_of_Z (Z.shiftr n 16);
    byte_of_Z (Z.shiftr n 8); byte_of_Z n ].

(** A stream on which every segment that arrives carries data. *)
Definition live (sock : socket) : Prop := Forall (λ c, c ≠ []) sock.

(** ** A sample exchange *)

(** The reply of the processing server to a request without a URL, and the
    forty bytes of its compact JSON text. *)
Definition sample_message : json :=
  JDict (<["status" := JStr "error"]> (<["error" := JStr "missing url"]> ∅)).

Definition sample_text : bytes :=
  [ x7b; x22; x73; x74; x61; x74; x75; x73; x22; x3a; x22; x65; x72; x72;
    x6f; x72; x22; x2c; x22; x65; x72; x72; x6f; x72; x22; x3a; x22; x6d;
    x69; x73; x73; x69; x6e; x67; x20; x75; x72; x6c; x22; x7d ].

Fixpoint bytes_eqb (a b : bytes) : bool :=
  match a, b with
  | [], [] => true
  | x :: a, y :: b => Byte.eqb x y && bytes_eqb a b
  | _, _ => false
  end.

(** A codec that knows this one text. *)
Definition sample_codec : JsonCodec :=
  {| json_dumps := λ _, sample_text;
     json_loads := λ b, if bytes_eqb b sample_text then Ok sample_message
                        else Raise (JSONDecodeError "Expecting value") |}.

(** The frame of the sample message, arriving in three segments. *)
Definition sample_stream : socket :=
  [ take 3 (header_of 40); drop 3 (header_of 40) ++ take 10 sample_text;
    drop 10 sample_text ].

(** ** The rate-limit policy in the words of the specification *)

(** "If [max ≤ 0], always allow.  Otherwise, purge all timestamps
    [≤ now − PERIOD] from the domain's bucket; if remaining count [≥ max],
    reject; else append [now], accept." *)
Definition allow_spec (l : DomainRateLimiter) (domain : string) (now : Z)
    : bool * DomainRateLimiter :=
  if l.(_max) <=? 0 then (true, l)
  else
    let bucket := default [] (l.(_calls) !! domain) in
    let kept := List.filter (λ t, negb (t <=? now - l.(_period))) bucket in
    if Z.of_nat (length kept) >=? l.(_max) then
      (false, {| _max := l.(_max); _calls := <[domain := kept]> l.(_calls);
                 _period := l.(_period) |})
    else
      (true, {| _max := l.(_max);
                _calls := <[domain := kept ++ [now]]> l.(_calls);
                _period := l.(_period) |}).

(** A limiter of one request per minute that admitted a request from
    [example.com] at 2023-11-14 22:13:20 UTC, and the instant sixty seconds
    later. *)
Definition sample_limiter : DomainRateLimiter :=
  {| _max := 1;
     _calls := {[ "example.com" := [1700000000 * us] ]};
     _period := 60 * us |}.

Definition sample_instant : Z := 1700000060 * us.

(** ** Histories of cache operations *)

Inductive cache_op : Type :=
  | CacheGet (u : string) (now : Z)
  | CacheSet (u : string) (data : doc) (now : Z).

Definition cache_step (c : ResultCache) (op : cache_op) : ResultCache :=
  match op with
  | CacheGet u now => (cache_get c u now).2
  | CacheSet u data now => cache_set c u data now
  end.

Definition cache_run (c : ResultCache) (ops : list cache_op) : ResultCache :=
  fold_left cache_step ops c.

Definition op_time (op : cache_op) : Z :=
  match op with CacheGet _ now | CacheSet _ _ now => now end.

Definition sets_url (u : string) (op : cache_op) : bool :=
  match op with
  | CacheSet u' _ _ => bool_decide (u' = u)
  | CacheGet _ _ => false
  end.

(** A cache with the default time to live, a result document, and a short
    history after the document was stored: a read of the same URL ten
    seconds later and a write for another URL. *)
Definition sample_cache : ResultCache := ResultCache_init 3600.

Definition sample_doc : doc :=
  <["url" := JStr "https://example.com"]>
  (<["status" := JStr "success"]> ∅).

Definition sample_history : list cache_op :=
  [ CacheGet "https://example.com" (1700000010 * us);
    CacheSet "https://example.org" ∅ (1700000020 * us) ].

(** ** The SEO score in the words of the specification *)

(** "Starts at 0; +15 if title non-empty; +20 if [10 ≤ len(title) ≤ 70];
    +15 if description non-empty; +15 if [50 ≤ len(description) ≤ 160];
    +10 if exactly one [h1]; +10 if canonical link present; +5 if robots
    meta present; +10 if any meta with property containing [og:]; capped at
    100." *)
Definition seo_score_spec (title description : string) (h1_count : Z)
    (canonical robots open_graph : bool) : Z :=
  Z.min 100
    (0
     + (if bool_decide (title ≠ "") then 15 else 0)
     + (if bool_decide (10 <= slen title <= 70) then 20 else 0)
     + (if bool_decide (description ≠ "") then 15 else 0)
     + (if bool_decide (50 <= slen description <= 160) then 15 else 0)
     + (if bool_decide (h1_count = 1) then 10 else 0)
     + (if canonical then 10 else 0)
     + (if robots then 5 else 0)
     + (if open_graph then 10 else 0)).

(** ** A sample page *)

(** The page of the SEO scenario: a title, a description of sixty
    characters, a canonical link, an [og:title] and one [h1]. *)
Definition sample_html : string :=
  "<html><head><title>Example title for SEO</title>" +:+
  "<meta name='description' content=" +:+
  "'Descripcion de prueba para SEO con una longitud adecuada, si'/>" +:+
  "<link rel='canonical' href='https://example.com'/>" +:+
  "<meta property='og:title' content='Open Graph Title'/>" +:+
  "</head><body><h1>Hola</h1></body></html>".

(** Its elements, in document order. *)
Definition sample_soup : list Tag :=
  [ {| tag_name := "html"; tag_attrs := ∅;
       tag_text := "Example title for SEOHola" |};
    {| tag_name := "head"; tag_attrs := ∅;
       tag_text := "Example title for SEO" |};
    {| tag_name := "title"; tag_attrs := ∅;
       tag_text := "Example title for SEO" |};
    {| tag_name := "meta";
       tag_attrs :=
         <["name" := "description"]>
         (<["content" :=
            "Descripcion de prueba para SEO con una longitud adecuada, si"]> ∅);
       tag_text := "" |};
    {| tag_name := "link";
       tag_attrs := <["rel" := "canonical"]>
                    (<["href" := "https://example.com"]> ∅);
       tag_text := "" |};
    {| tag_name := "meta";
       tag_attrs := <["property" := "og:title"]>
                    (<["content" := "Open Graph Title"]> ∅);
       tag_text := "" |};
    {| tag_name := "body"; tag_attrs := ∅; tag_text := "Hola" |};
    {| tag_name := "h1"; tag_attrs := ∅; tag_text := "Hola" |} ].

(** The text after the first occurrence of [sep], if there is one. *)
Fixpoint after (sep s : string) : option string :=
  if String.prefix sep s then
    Some (String.substring (String.length sep)
            (String.length s - String.length sep) s)
  else
    match s with
    | EmptyString => None
    | String _ rest => after sep rest
    end.

(** The text before the first of the characters that end a host name. *)
Fixpoint host_part (s : string) : string :=
  match s with
  | EmptyString => EmptyString
  | String a rest =>
      if bool_decide (a ∈ ["/"; ":"; "?"; "#"]%char) then EmptyString
      else String a (host_part rest)
  end.

(** A platform for the examples: it parses the sample page, resolves a
    reference by appending it to the base unless it is absolute, reads the
    host between [://] and the next delimiter, and prints every instant as
    the one of the examples. *)
Definition sample_platform : Platform :=
  {| BeautifulSoup := λ html,
       if String.eqb html sample_html then sample_soup else [];
     urljoin := λ base href,
       if String.prefix "http" href then href else base +:+ href;
     urlparse_hostname := λ u, host_part <$> after "://" u;
     strftime := λ _, "2023-11-14T22:13:20Z" |}.

(** The field [key] of the dictionary a call returned, if it returned. *)
Definition result_field (r : result doc) (key : string) : option json :=
  match r with
  | Ok out => out !! key
  | Raise _ => None
  end.

(** ** The invariants of the data model, in the words of the specification *)

(** "[status = completed] ⇒ [result ≠ null ∧ error = null]" and
    "[status = failed] ⇒ [result = null ∧ error ≠ null]". *)
Definition record_ok (r : TaskRecord) : Prop :=
  (r.(status) = "completed" → is_Some r.(result_) ∧ r.(error) = None)
  ∧ (r.(status) = "failed" → r.(result_) = None ∧ is_Some r.(error)).

(** "[result.status ∈ {"success","partial"}]" *)
Definition status_ok (res : doc) : Prop :=
  res !! "status" = Some (JStr "success")
  ∨ res !! "status" = Some (JStr "partial").

(** "[(result.status = "partial") ⇔ ("processing_error" in result)]" *)
Definition partial_iff_error (res : doc) : Prop :=
  res !! "status" = Some (JStr "partial") ↔ is_Some (res !! "processing_error").

(** A reply of the shapes of the protocol: it carries an [error] key exactly
    when its [status] is not ["success"]. *)
Definition reply_conforms (reply : json) : Prop :=
  match reply with
  | JDict resp =>
      is_Some (resp !! "error") ↔ is_str (resp !! "status") "success" = false
  | _ => True
  end.

(** The task managers that sequences of [create_task], [set_status] and
    [set_result] calls lead to. *)
Inductive manager_reachable : TaskManager → Prop :=
  | manager_empty : manager_reachable ∅
  | manager_create tasks uuid now u :
      manager_reachable tasks →
      manager_reachable (create_task tasks uuid now u).2
  | manager_set_status tasks tasks' tid st err now :
      manager_reachable tasks →
      set_status tasks tid st err now = Ok tasks' →
      manager_reachable tasks'
  | manager_set_result tasks tasks' tid res st now :
      manager_reachable tasks →
      set_result tasks tid res st now = Ok tasks' →
      manager_reachable tasks'.

(** The task a coroutine works for. *)
Definition coroutine_task (co : Coroutine) : string :=
  match co with AtStart tid _ | AtFetch tid _ | AtRpc tid _ _ => tid end.

(** What the two [except] clauses store for an exception. *)
Definition failure_reason (exc : exn) : string :=
  if is_timeout exc then "Timeout" else exn_str exc.

(** The invariant of the server, on the three tables it keeps: every record
    satisfies [record_ok] and holds a result document satisfying [Q], if it
    holds one; every coroutine still running works for a record that exists
    and holds no result yet; every cached document satisfies [Q]. *)
Definition tables_inv (Q : doc → Prop) (tasks : TaskManager)
    (running : gmap string Coroutine) (entries : gmap string (Z * doc))
    : Prop :=
  (∀ tid r, tasks !! tid = Some r →
            record_ok r ∧ ∀ res, r.(result_) = Some res → Q res)
  ∧ (∀ tid co, running !! tid = Some co →
               coroutine_task co = tid
               ∧ ∃ r, tasks !! tid = Some r ∧ r.(result_) = None)
  ∧ (∀ u ts d, entries !! u = Some (ts, d) → Q d).

Definition server_inv (Q : doc → Prop) (app : App) : Prop :=
  tables_inv Q app.(task_manager) app.(running_tasks) app.(cache).(_entries).

(** ** A sample run of the server *)

Definition sample_url : string := "https://example.com".

Definition sample_id : string := "0123456789abcdef0123456789abcdef".

(** [POST /scrape] with the body [{url: https://example.com}]. *)
Definition sample_request : Request :=
  {| method := "POST"; query := ∅;
     body_json := Ok (JDict {[ "url" := JStr sample_url ]}) |}.

(** The server with the default limits, then after the request, then after
    each of the first two stretches of the pipeline of the task created. *)
Definition sample_app0 : App := build_app 5 3600.

Definition sample_app1 : App :=
  (@handle_scrape sample_platform sample_request sample_id
     (1700000000 * us) sample_app0).2.

Definition sample_app2 : App :=
  (@resume sample_platform (AtStart sample_id sample_url)
     (Ok "") (Ok JNull) (1700000001 * us) sample_app1).2.

Definition sample_app3 : App :=
  (@resume sample_platform (AtFetch sample_id sample_url)
     (Ok sample_html) (Ok JNull) (1700000002 * us) sample_app2).2.

(** The last stretch, when the connection to the processing server is
    refused, and when the peer replies [{status: error}] without a cause. *)
Definition sample_app_refused : App :=
  (@resume sample_platform
     (AtRpc sample_id sample_url
        (@scraping_data_of sample_platform sample_html sample_url))
     (Ok "") (Raise (OtherError "ConnectionRefusedError" "Connect call failed"))
     (1700000003 * us) sample_app3).2.

Definition sample_app_bare_error : App :=
  (@resume sample_platform
     (AtRpc sample_id sample_url
        (@scraping_data_of sample_platform sample_html sample_url))
     (Ok "") (Ok (JDict {[ "status" := JStr "error" ]}))
     (1700000003 * us) sample_app3).2.

(** The record that [create_task] makes for the sample request. *)
Definition sample_record : TaskRecord :=
  fresh_record sample_id (1700000000 * us) sample_url.

(** The result document of a task whose processing call raised [exc]. *)
Definition partial_result `{Platform} (u : string) (scraping_data : doc)
    (exc : exn) (now : Z) : doc :=
  <["processing_error" := JStr (exn_type_name exc +:+ ": " +:+ exn_str exc)]>
  (<["url" := JStr u]>
  (<["timestamp" := JStr (strftime now)]>
  (<["scraping_data" := JDict scraping_data]>
  (<["processing_data" := JDict ∅]>
  (<["status" := JStr "partial"]> ∅))))).

(** A task manager after [create_task] and [set_status(id, "completed")]. *)
Definition sample_manager_completed : TaskManager :=
  <[sample_id := record_set_status sample_record "completed" None
                   (1700000001 * us)]>
    (create_task ∅ sample_id (1700000000 * us) sample_url).2.

(** The status of a record, the status of its result document and the
    [processing_error] of that document. *)
Definition summary (r : TaskRecord) : string * option json * option json :=
  (r.(status), r.(result_) ≫= (λ res, res !! "status"),
   r.(result_) ≫= (λ res, res !! "processing_error")).

(** The outcome of [handle_scrape] for a request that was admitted, by what
    [cache.get] returned. *)
Definition admitted_outcome (app : App) (l' : DomainRateLimiter)
    (uuid u : string) (now : Z) : result Response * App :=
  let record := fresh_record uuid now u in
  let tasks := <[uuid := record]> app.(task_manager) in
  let '(cached, c') := cache_get app.(cache) u now in
  let scheduled :=
    (Ok {| resp_status := 202;
           resp_body := <["task_id" := JStr uuid]>
                        (<["status" := JStr "pending"]> ∅) |},
     {| task_manager := tasks; cache := c'; rate_limiter := l';
        running_tasks := <[uuid := AtStart uuid u]> app.(running_tasks);
        image_limit := app.(image_limit) |}) in
  match cached with
  | Some cached_doc =>
      if truthy (JDict cached_doc) then
        (Ok {| resp_status := 200;
               resp_body := <["task_id" := JStr uuid]>
                            (<["status" := JStr "completed"]>
                            (<["cached" := JBool true]> ∅)) |},
         {| task_manager :=
              <[uuid := record_set_result record cached_doc "completed" now]>
                tasks;
            cache := c'; rate_limiter := l';
            running_tasks := app.(running_tasks);
            image_limit := app.(image_limit) |})
      else scheduled
  | None => scheduled
  end.

(** ** Histories of rate-limiter calls *)

(** The limiter after a series of [allow] calls, each given by its domain
    and its instant. *)
Definition allow_run (l : DomainRateLimiter) (calls : list (string * Z))
    : DomainRateLimiter :=
  fold_left (λ l c, (allow l c.1 c.2).2) calls l.

(** The instants of the calls for [domain] in the series that [allow]
    admitted, in order. *)
Fixpoint admitted (l : DomainRateLimiter) (domain : string)
    (calls : list (string * Z)) : list Z :=
  match calls with
  | [] => []
  | c :: rest =>
      (if bool_decide (c.1 = domain) && (allow l c.1 c.2).1 then [c.2] else [])
      ++ admitted (allow l c.1 c.2).2 domain rest
  end.

(** ** The outcome of a pipeline run *)

(** Whether a run of [process_scrape_task] gets to the end of its [try]
    block: the fetch returned, and the processing call raised (which the
    inner handler absorbs) or returned a JSON object. *)
Definition pipeline_completes (fetched : result string)
    (processing : result json) : bool :=
  match fetched, processing with
  | Ok _, Raise _ => true
  | Ok _, Ok (JDict _) => true
  | _, _ => false
  end.

(** The application after a run of [process_scrape_task] for a task whose
    record was [r]. *)
Definition pipeline_outcome `{Platform} (app : App) (r : TaskRecord)
    (tid u : string) (fetched : result string) (processing : result json)
    (now1 now2 now3 : Z) : App :=
  let r1 := record_set_status r "scraping" None now1 in
  match fetched with
  | Raise exc =>
      with_task_manager app
        (<[tid := record_set_status r1 "failed" (Some (failure_reason exc))
                    now2]> app.(task_manager))
  | Ok html =>
      let r2 := record_set_status r1 "processing" None now2 in
      match merge_result u (scraping_data_of html u)
              (processing_response_of processing) now3 with
      | Ok res =>
          with_cache
            (with_task_manager app
               (<[tid := record_set_result r2 res "completed" now3]>
                  app.(task_manager)))
            (cache_set app.(cache) u res now3)
      | Raise exc =>
          with_task_manager app
            (<[tid := record_set_status r2 "failed"
                        (Some (failure_reason exc)) now3]>
               app.(task_manager))
      end
  end.

(** The seven fields of the [out] dictionary of [process_tasks]. *)
Definition processing_fields : gset string :=
  {[ "screenshot"; "performance"; "thumbnails"; "tech_stack"; "seo";
     "structured_data"; "accessibility" ]}.

(** The analyzers in the order in which [process_tasks] comes to them. *)
Definition analyzer_names : list string :=
  [ "take_screenshot"; "analyze_performance"; "generate_thumbnails";
    "detect_technologies"; "evaluate_seo"; "extract_structured_data";
    "analyze_accessibility" ].

(** The value [process_tasks] stores for an analyzer: what the call
    returned when the analyzer was asked for and its input is there, and
    the default when it was not, or when the call raised. *)
Definition field_value (flag : bool) (call : result json) (dflt : json)
    : json :=
  if flag then match call with Ok v => v | Raise _ => dflt end else dflt.

(** ** Sample analyzers *)

(** Analyzers for the examples: the screenshot is a placeholder of four
    bytes, the performance probe finds no network, there are no thumbnails,
    and the page analyzers find nothing to report. *)
Definition sample_analyzers : Analyzers :=
  {| take_screenshot := λ _, Ok [x89; x50; x4e; x47];
     analyze_performance := λ _, Raise (OtherError "URLError" "unreachable");
     generate_thumbnails := λ _, Ok [];
     detect_technologies := λ _, Ok (JList []);
     extract_structured_data := λ _, Ok (JList []);
     analyze_accessibility := λ _, Ok (JDict {[ "score" := JInt 100 ]});
     b64encode := λ _, "iVBORw==" |}.

(** ** The status and result handlers: [server_scraping.py] *)

(** [datetime.isoformat()] *)
Class Datetime := {
  isoformat : Z → string;
}.

(** [TaskRecord.as_status_payload] *)
Definition as_status_payload `{Datetime} (self : TaskRecord) : doc :=
  let payload : doc :=
    <["task_id" := JStr self.(task_id)]>
    (<["url" := JStr self.(url)]>
    (<["status" := JStr self.(status)]>
    (<["created_at" := JStr (isoformat self.(created_at))]>
    (<["updated_at" := JStr (isoformat self.(updated_at))]> ∅)))) in
  let payload :=
    match self.(error) with
    | None | Some EmptyString => payload
    | Some err => <["error" := JStr err]> payload
    end in
  match self.(result_) with
  | Some res =>
      if truthy (JDict res) then
        match res !! "status" with
        | Some st => <["result_status" := st]> payload
        | None => payload
        end
      else payload
  | None => payload
  end.

(** [web.json_response(data)], with the default status. *)
Definition json_response (data : doc) : Response :=
  {| resp_status := 200; resp_body := data |}.

(** [handle_status]; [match_info] holds the variable parts of the path. *)
Definition handle_status `{Datetime} (match_info : gmap string string)
    : M Response :=
  let tid := default "" (match_info !! "task_id") in
  λ app,
    match manager_get app.(task_manager) tid with
    | None => (Ok (error_response "task_id inexistente" 404), app)
    | Some record => (Ok (json_response (as_status_payload record)), app)
    end.

(** [record.error or "Tarea fallida"] *)
Definition error_or (err : option string) (dflt : string) : string :=
  match err with
  | None | Some EmptyString => dflt
  | Some msg => msg
  end.

(** [handle_result] *)
Definition handle_result (match_info : gmap string string) : M Response :=
  let tid := default "" (match_info !! "task_id") in
  λ app,
    match manager_get app.(task_manager) tid with
    | None => (Ok (error_response "task_id inexistente" 404), app)
    | Some record =>
        let unfinished :=
          if String.eqb record.(status) "failed" then
            error_response (error_or record.(error) "Tarea fallida") 500
          else
            {| resp_status := 202;
               resp_body := <["status" := JStr "pending"]>
                            (<["message" := JStr "La tarea aún no finalizó"]>
                             ∅) |} in
        match record.(result_) with
        | Some res =>
            if negb (String.eqb record.(status) "completed")
               || negb (truthy (JDict res))
            then (Ok unfinished, app)
            else (Ok (json_response (<["task_id" := JStr tid]> res)), app)
        | None => (Ok unfinished, app)
        end
    end.

(** A calendar for the examples: every instant prints as the one of the
    examples. *)
Definition sample_datetime : Datetime :=
  {| isoformat := λ _, "2023-11-14T22:13:20+00:00" |}.

(** ** The configuration *)


(** ** The page analyzers: [processor/advanced.py] *)

(** The methods of [str] and the functions of [re] and [json] that the
    analyzers call.  [re_search pattern text] is the match found, as the
    list of its groups from group 1 on, a group that took no part in the
    match being [None]. *)
Class Text := {
  str_lower : string → string;
  str_strip : string → string;
  re_search : string → string → option (list (option string));
  json_loads_str : string → result json;
}.

(** The order of [sorted] on strings: lexicographic on the characters. *)
Definition str_le (a b : string) : Prop := String.leb a b = true.

#[global] Instance str_le_dec a b : Decision (str_le a b) :=
  decide (String.leb a b = true).

(** [soup.find_all(name, attrs={key: value})] *)
Definition find_all_attr (soup : list Tag) (name key value : string)
    : list Tag :=
  List.filter (λ t, bool_decide (t.(tag_name) = name) &&
                    bool_decide (tag_get t key = Some value)) soup.

(** [isinstance(v, dict)] *)
Definition is_dict (v : json) : bool :=
  match v with JDict _ => true | _ => false end.

(** [match.group(n)] for [n >= 1] *)
Definition group (m : list (option string)) (n : nat) : option string :=
  mjoin (m !! pred n).

(** [not (s or "").strip()] *)
Definition blank `{Text} (s : option string) : bool :=
  String.eqb (str_strip (default "" s)) "".

Module advanced.

Definition markers : list (string * list string) :=
  [ ("React", ["data-reactroot"; "react"]);
    ("Angular", ["ng-app"; "ng-controller"; "angular"]);
    ("Vue", ["v-bind:"; "vuejs"; "vue.js"; "vue"]);
    ("Svelte", ["svelte"]);
    ("jQuery", ["jquery"]);
    ("Bootstrap", ["bootstrap"]);
    ("TailwindCSS", ["tailwind"]);
    ("WordPress", ["wp-content"; "wp-json"]);
    ("Drupal", ["drupal"]);
    ("Django", ["django"]);
    ("Laravel", ["laravel"]);
    ("Next.js", ["__next"; "next/dist"]);
    ("Nuxt.js", ["nuxt"]) ].

(** The [haystack] local of [detect_technologies]. *)
Definition haystack_of `{Platform} `{Text} (html : string) : string :=
  let soup := BeautifulSoup html in
  let text := str_lower html in
  let scripts :=
    String.concat " " ((λ script, default "" (tag_get script "src"))
                       <$> find_all soup "script") in
  let styles :=
    String.concat " " ((λ link, default "" (tag_get link "href"))
                       <$> find_all soup "link") in
  String.concat " " [text; str_lower scripts; str_lower styles].

(** [any(clue in haystack for clue in clues)] *)
Definition any_clue (haystack : string) (clues : list string) : bool :=
  existsb (λ clue, contains clue haystack) clues.

(** [detect_technologies]; the set of labels is kept as the list of the
    labels added, in the order of [markers], which holds no label twice. *)
Definition detect_technologies `{Platform} `{Text} (html : string)
    : list string :=
  let haystack := haystack_of html in
  let technologies :=
    (List.filter (λ m, any_clue haystack m.2) markers).*1 in
  merge_sort str_le technologies.

(** The loop of [extract_structured_data]; an exception other than
    [JSONDecodeError] leaves the function. *)
Fixpoint structured_data_loop `{Text} (scripts : list Tag)
    (structured_data : list json) : result (list json) :=
  match scripts with
  | [] => Ok structured_data
  | script :: rest =>
      match json_loads_str script.(tag_text) with
      | Ok (JList data) =>
          structured_data_loop rest
            (structured_data ++ List.filter is_dict data)
      | Ok (JDict d) => structured_data_loop rest (structured_data ++ [JDict d])
      | Ok _ => structured_data_loop rest structured_data
      | Raise (JSONDecodeError _) => structured_data_loop rest structured_data
      | Raise e => Raise e
      end
  end.

(** [extract_structured_data] *)
Definition extract_structured_data `{Platform} `{Text} (html : string)
    : result (list json) :=
  let soup := BeautifulSoup html in
  structured_data_loop
    (find_all_attr soup "script" "type" "application/ld+json") [].

(** [_detect_basic_contrast_issues] *)
Definition _detect_basic_contrast_issues `{Text} (soup : list Tag)
    : list string :=
  omap (λ element,
          match tag_get element "style" with
          | None => None
          | Some style =>
              let style := str_lower style in
              let color_match :=
                re_search "color:\s*#([0-9a-f]{3,6})" style in
              let bg_match :=
                re_search "background(-color)?:\s*#([0-9a-f]{3,6})" style in
              match color_match, bg_match with
              | Some color_match, Some bg_match =>
                  let fg := group color_match 1 in
                  let bg := group bg_match 2 in
                  if bool_decide (fg = bg) then
                    Some ("Posible poco contraste en elemento: "
                          +:+ element.(tag_name))
                  else None
              | _, _ => None
              end
          end) soup.

(** The four lists of [analyze_accessibility]. *)
Record Issues := mkIssues {
  images_missing_alt : list (option string);
  links_without_text : list (option string);
  buttons_without_text : list nat;
  contrast_warnings : list string;
}.

Definition find_issues `{Platform} `{Text} (html : string) : Issues :=
  let soup := BeautifulSoup html in
  let images := find_all soup "img" in
  let links := find_all soup "a" in
  let buttons := find_all soup "button" in
  {| images_missing_alt :=
       (λ img, tag_get img "src")
       <$> List.filter (λ img, blank (tag_get img "alt")) images;
     links_without_text :=
       (λ link, tag_get link "href")
       <$> List.filter (λ link, blank (Some link.(tag_text))) links;
     buttons_without_text :=
       omap id (imap (λ idx button,
                        if blank (Some button.(tag_text)) then Some idx
                        else None) buttons);
     contrast_warnings := _detect_basic_contrast_issues soup |}.

(** [analyze_accessibility] *)
Definition analyze_accessibility `{Platform} `{Text} (html : string) : doc :=
  let issues := find_issues html in
  let total_issues :=
    Z.of_nat (length issues.(images_missing_alt))
    + Z.of_nat (length issues.(links_without_text))
    + Z.of_nat (length issues.(buttons_without_text))
    + Z.of_nat (length issues.(contrast_warnings)) in
  let score := Z.max 0 (100 - total_issues * 10) in
  <["images_missing_alt" :=
      JList (from_option JStr JNull <$> issues.(images_missing_alt))]>
  (<["links_without_text" :=
      JList (from_option JStr JNull <$> issues.(links_without_text))]>
  (<["buttons_without_text" :=
      JList ((λ idx, JInt (Z.of_nat idx)) <$> issues.(buttons_without_text))]>
  (<["contrast_warnings" := JList (JStr <$> issues.(contrast_warnings))]>
  (<["score" := JInt score]> ∅)))).

End advanced.

(** ** The thumbnail generator: [processor/image_processor.py] *)

(** What the body of the [try] block makes of one URL: the PNG bytes of the
    thumbnail of side [size], or the exception raised by the download or
    by the image library. *)
Class Imaging := {
  thumbnail_png : json → Z → result bytes;
}.

Module image_processor.

(** [generate_thumbnails] *)
Definition generate_thumbnails `{Imaging} (image_urls : list json)
    (size max_images : Z) : list bytes :=
  omap (λ url, match thumbnail_png url size with
               | Ok png => Some png
               | Raise _ => None
               end)
       (slice_to image_urls max_images).

End image_processor.

(** The labels of [markers] in the order of [sorted]. *)
Definition sorted_labels : list string :=
  [ "Angular"; "Bootstrap"; "Django"; "Drupal"; "Laravel"; "Next.js";
    "Nuxt.js"; "React"; "Svelte"; "TailwindCSS"; "Vue"; "WordPress";
    "jQuery" ].

(** Whether the haystack holds one of the clues of a label. *)
Definition detected (haystack label : string) : bool :=
  existsb (λ m, String.eqb m.1 label && advanced.any_clue haystack m.2)
          advanced.markers.

(** Text functions for the examples: on the texts of the examples nothing
    is in upper case and nothing is padded, no style matches the colour
    patterns, and no text is JSON. *)
Definition sample_str : Text :=
  {| str_lower := λ s, s;
     str_strip := λ s, s;
     re_search := λ _ _, None;
     json_loads_str := λ _, Raise (JSONDecodeError "Expecting value") |}.

(** An image library that is given no network: every download fails. *)
Definition sample_imaging : Imaging :=
  {| thumbnail_png := λ _ _, Raise (OtherError "URLError" "unreachable") |}.

(** ** The polling client: [client.py] *)

(** The exceptions that [wait_for_completion] ends with: the two it raises
    itself, the one of [resp.raise_for_status()], and whatever a request
    raised. *)
Inductive client_exn : Type :=
  | RuntimeError (arg : json)
  | WaitTimeout (msg : string)
  | ClientResponseError (status : Z)
  | RequestFailed (exc : exn).

(** How a call of [wait_for_completion] stands: returned, raised, or still
    polling when the turns described have been used up. *)
Inductive waited : Type :=
  | Returned (data : doc)
  | Raised (exc : client_exn)
  | Polling.

(** One turn of the polling loop as the client sees it: the outcome of the
    status request, the outcome of the result request (made only when the
    status is [completed]) and the reading of the clock of the event loop
    when the deadline is checked. *)
Record Poll := mkPoll {
  status_response : result Response;
  result_response : result Response;
  clock : Z;
}.

(** [wait_for_completion]; [deadline] is [loop.time() + timeout] as computed
    on entry. *)
Fixpoint wait_for_completion (deadline : Z) (polls : list Poll) : waited :=
  match polls with
  | [] => Polling
  | poll :: rest =>
      match poll.(status_response) with
      | Raise exc => Raised (RequestFailed exc)
      | Ok resp =>
          if resp.(resp_status) =? 404 then
            Raised (RuntimeError (JStr "task_id inexistente"))
          else
            let status_payload := resp.(resp_body) in
            let status := status_payload !! "status" in
            if is_str status "completed" then
              match poll.(result_response) with
              | Raise exc => Raised (RequestFailed exc)
              | Ok resp =>
                  if 400 <=? resp.(resp_status) then
                    Raised (ClientResponseError resp.(resp_status))
                  else Returned resp.(resp_body)
              end
            else if is_str status "failed" then
              Raised (RuntimeError
                        (default (JStr "tarea fallida")
                           (status_payload !! "error")))
            else if deadline <=? poll.(clock) then
              Raised (WaitTimeout
                        "Tiempo de espera agotado esperando resultado")
            else wait_for_completion deadline rest
      end
  end.

(** A turn of the loop answered by the scraping server in the state [app],
    for the task [tid]. *)
Definition server_poll `{Datetime} (app : App) (tid : string) (now : Z)
    : Poll :=
  {| status_response := (handle_status {[ "task_id" := tid ]} app).1;
     result_response := (handle_result {[ "task_id" := tid ]} app).1;
     clock := now |}.

(** ** Tasks and their pipelines *)





(* ===================================================================== *)
(** * Part II. Properties                                                 *)
(* ===================================================================== *)

(** ** The header *)

Lemma Z_of_byte_of_Z z : Z_of_byte (byte_of_Z z) = z mod 256.
Proof.
  unfold Z_of_byte, byte_of_Z.
  assert (Hb : 0 <= z mod 256 < 256) by (apply Z.mod_pos_bound; lia).
  destruct (Byte.of_N (Z.to_N (z mod 256))) as [b|] eqn:E.
  - apply Byte.to_of_N in E. rewrite E. lia.
  - apply Byte.of_N_None_iff in E. lia.
Qed.

Lemma Z_of_byte_range b : 0 <= Z_of_byte b < 256.
Proof.
  unfold Z_of_byte. pose proof (Byte.to_N_bounded b). lia.
Qed.

Lemma testbit_byte z j :
  0 <= j → Z.testbit (Z_of_byte (byte_of_Z z)) j = (j <? 8) && Z.testbit z j.
Proof.
  intros Hj. rewrite Z_of_byte_of_Z. change 256 with (2 ^ 8).
  destruct (Z.ltb_spec j 8).
  - rewrite Z.mod_pow2_bits_low by lia. reflexivity.
  - rewrite Z.mod_pow2_bits_high by lia. reflexivity.
Qed.

Lemma unpack_header_of n :
  0 <= n < 2 ^ 32 → HEADER_STRUCT_unpack (header_of n) = Ok n.
Proof.
  intros Hn. unfold HEADER_STRUCT_unpack, header_of. f_equal.
  apply Z.bits_inj'. intros i Hi.
  rewrite !Z.lor_spec, !Z.shiftl_spec by lia.
  destruct (Z.ltb_spec i 8); [|destruct (Z.ltb_spec i 16);
    [|destruct (Z.ltb_spec i 24); [|destruct (Z.ltb_spec i 32)]]].
  - rewrite (Z.testbit_neg_r _ (i - 24)), (Z.testbit_neg_r _ (i - 16)),
      (Z.testbit_neg_r _ (i - 8)) by lia.
    rewrite testbit_byte by lia. simpl.
    destruct (Z.ltb_spec i 8); [reflexivity | lia].
  - rewrite (Z.testbit_neg_r _ (i - 24)), (Z.testbit_neg_r _ (i - 16)) by lia.
    rewrite !testbit_byte by lia. rewrite Z.shiftr_spec by lia.
    destruct (Z.ltb_spec (i - 8) 8); [|lia].
    destruct (Z.ltb_spec i 8); [lia|]. simpl.
    rewrite orb_false_r. f_equal. lia.
  - rewrite (Z.testbit_neg_r _ (i - 24)) by lia.
    rewrite !testbit_byte by lia. rewrite !Z.shiftr_spec by lia.
    destruct (Z.ltb_spec (i - 16) 8); [|lia].
    destruct (Z.ltb_spec (i - 8) 8); [lia|].
    destruct (Z.ltb_spec i 8); [lia|]. simpl.
    rewrite orb_false_r. f_equal. lia.
  - rewrite !testbit_byte by lia. rewrite !Z.shiftr_spec by lia.
    destruct (Z.ltb_spec (i - 24) 8); [|lia].
    destruct (Z.ltb_spec (i - 16) 8); [lia|].
    destruct (Z.ltb_spec (i - 8) 8); [lia|].
    destruct (Z.ltb_spec i 8); [lia|]. simpl.
    rewrite !orb_false_r. f_equal. lia.
  - rewrite !testbit_byte by lia.
    destruct (Z.ltb_spec (i - 24) 8); [lia|].
    destruct (Z.ltb_spec (i - 16) 8); [lia|].
    destruct (Z.ltb_spec (i - 8) 8); [lia|].
    destruct (Z.ltb_spec i 8); [lia|]. simpl.
    symmetry. rewrite <- (Z.mod_small n (2 ^ 32)) by lia.
    apply Z.mod_pow2_bits_high. lia.
Qed.

Lemma pack_header_of n :
  0 <= n < 2 ^ 32 → HEADER_STRUCT_pack n = Ok (header_of n).
Proof.
  intros Hn. unfold HEADER_STRUCT_pack.
  destruct (Z.leb_spec 0 n); [|lia]. destruct (Z.ltb_spec n (2 ^ 32)); [|lia].
  reflexivity.
Qed.

Lemma unpack_nonneg b n : HEADER_STRUCT_unpack b = Ok n → 0 <= n.
Proof.
  unfold HEADER_STRUCT_unpack.
  destruct b as [|b3 [|b2 [|b1 [|b0 [|]]]]]; try discriminate.
  intros [= <-].
  pose proof (Z_of_byte_range b3). pose proof (Z_of_byte_range b2).
  pose proof (Z_of_byte_range b1). pose proof (Z_of_byte_range b0).
  rewrite !Z.lor_nonneg, !Z.shiftl_nonneg. lia.
Qed.

(** ** Reading exactly [n] bytes *)

(** One turn of the loop of [recv_all]. *)
Lemma recv_all_loop_turn sock remaining chunks :
  recv_all_loop sock remaining chunks =
  if 0 <? remaining then
    if 0 <? blen (recv sock remaining).1 then
      recv_all_loop (recv sock remaining).2
        (remaining - blen (recv sock remaining).1)
        (chunks ++ [(recv sock remaining).1])
    else Raise (ConnectionError "Conexión cerrada inesperadamente")
  else Ok (concat chunks, sock).
Proof.
  rewrite recv_all_loop_equation_1.
  destruct (Z_gt_dec remaining 0) as [Hr|Hr]; simpl.
  - destruct (Z.ltb_spec 0 remaining); [|lia].
    destruct (Z_gt_dec (blen (recv sock remaining).1) 0) as [Hc|Hc]; simpl.
    + destruct (Z.ltb_spec 0 (blen (recv sock remaining).1)); [|lia].
      reflexivity.
    + destruct (Z.ltb_spec 0 (blen (recv sock remaining).1)); [lia|].
      reflexivity.
  - destruct (Z.ltb_spec 0 remaining); [lia|]. reflexivity.
Qed.

Lemma blen_app a b : blen (a ++ b) = blen a + blen b.
Proof. unfold blen. rewrite length_app. lia. Qed.

Lemma blen_nonneg a : 0 <= blen a.
Proof. unfold blen. lia. Qed.

Lemma blen_pos a : a ≠ [] → 0 < blen a.
Proof. unfold blen. destruct a; [congruence | simpl; lia]. Qed.

(** When at least [n] bytes arrive, in whatever segments, the loop returns
    the first [n] of them and leaves the rest on the connection. *)
Lemma recv_all_loop_enough sock : ∀ n chunks,
  live sock → 0 <= n <= blen (concat sock) →
  ∃ sock', recv_all_loop sock n chunks
           = Ok (concat chunks ++ take (Z.to_nat n) (concat sock), sock')
         ∧ concat sock' = drop (Z.to_nat n) (concat sock)
         ∧ live sock'.
Proof.
  induction sock as [|c rest IH]; intros n chunks Hlive Hn.
  - simpl in Hn. assert (n = 0) as -> by (unfold blen in Hn; simpl in Hn; lia).
    rewrite recv_all_loop_turn. simpl. exists [].
    rewrite app_nil_r. split; [reflexivity | split; [reflexivity | constructor]].
  - apply Forall_cons in Hlive as [Hc Hrest].
    pose proof (blen_pos c Hc) as Hcpos.
    rewrite recv_all_loop_turn.
    destruct (Z.ltb_spec 0 n) as [Hpos|Hzero].
    + simpl recv. destruct (Z.leb_spec (blen c) n) as [Hle|Hgt]; simpl.
      * destruct (Z.ltb_spec 0 (blen c)); [|lia].
        simpl in Hn. rewrite blen_app in Hn.
        destruct (IH (n - blen c) (chunks ++ [c]) Hrest ltac:(lia))
          as (sock' & Heq & Hcat & Hl).
        exists sock'. rewrite Heq. split; [|split; [|exact Hl]].
        -- f_equal. f_equal. rewrite concat_app. simpl. rewrite app_nil_r.
           rewrite <- app_assoc. f_equal.
           rewrite take_app. unfold blen in *.
           rewrite (take_ge c) by lia. f_equal. f_equal. lia.
        -- rewrite Hcat. rewrite drop_app. unfold blen in *.
           rewrite (drop_ge c) by lia. simpl. f_equal. lia.
      * assert (Htk : blen (take (Z.to_nat n) c) = n).
        { unfold blen in *. rewrite length_take. lia. }
        rewrite Htk. destruct (Z.ltb_spec 0 n); [|lia].
        rewrite recv_all_loop_turn.
        replace (n - n) with 0 by lia. simpl.
        exists (drop (Z.to_nat n) c :: rest). split; [|split].
        -- f_equal. f_equal. rewrite concat_app. simpl. rewrite app_nil_r.
           f_equal. rewrite take_app. unfold blen in *.
           replace (Z.to_nat n - length c)%nat with 0%nat by lia.
           simpl. rewrite app_nil_r. reflexivity.
        -- rewrite drop_app. unfold blen in *.
           replace (Z.to_nat n - length c)%nat with 0%nat by lia.
           reflexivity.
        -- constructor; [|exact Hrest].
           intros Hd. apply (f_equal length) in Hd.
           rewrite length_drop in Hd. unfold blen in *. simpl in Hd. lia.
    + assert (n = 0) as -> by lia. simpl.
      exists (c :: rest). rewrite app_nil_r.
      split; [reflexivity | split; [reflexivity | constructor; assumption]].
Qed.

(** When the connection closes before [n] bytes have arrived, the loop
    raises [ConnectionError]. *)
Lemma recv_all_loop_short sock : ∀ n chunks,
  blen (concat sock) < n →
  recv_all_loop sock n chunks
  = Raise (ConnectionError "Conexión cerrada inesperadamente").
Proof.
  induction sock as [|c rest IH]; intros n chunks Hn.
  - rewrite recv_all_loop_turn. simpl in *.
    destruct (Z.ltb_spec 0 n); [reflexivity | unfold blen in Hn; simpl in Hn; lia].
  - rewrite recv_all_loop_turn. simpl in Hn. rewrite blen_app in Hn.
    pose proof (blen_nonneg c). pose proof (blen_nonneg (concat rest)).
    destruct (Z.ltb_spec 0 n); [|lia].
    simpl recv. destruct (Z.leb_spec (blen c) n); [|lia]. simpl.
    destruct (Z.ltb_spec 0 (blen c)); [|reflexivity].
    apply IH. lia.
Qed.

Lemma recv_all_enough sock n :
  live sock → 0 <= n <= blen (concat sock) →
  ∃ sock', recv_all sock n = Ok (take (Z.to_nat n) (concat sock), sock')
         ∧ concat sock' = drop (Z.to_nat n) (concat sock)
         ∧ live sock'.
Proof.
  intros Hl Hn. unfold recv_all.
  destruct (recv_all_loop_enough sock n [] Hl Hn) as (sock' & Heq & H).
  exists sock'. split; [exact Heq | exact H].
Qed.

Lemma live_concat_nil sock : live sock → concat sock = [] → sock = [].
Proof.
  intros Hl Hc. destruct sock as [|c rest]; [reflexivity|].
  apply Forall_cons in Hl as [Hc' _]. simpl in Hc.
  apply app_eq_nil in Hc as [-> _]. congruence.
Qed.

Lemma recv_all_short sock n :
  blen (concat sock) < n →
  recv_all sock n = Raise (ConnectionError "Conexión cerrada inesperadamente").
Proof. apply recv_all_loop_short. Qed.

(** ** Framing *)

Section Framing.
Context `{JsonCodec}.

(** Reading the header of a frame whose four header bytes have arrived. *)
Lemma recv_header sock hdr rest :
  live sock → concat sock = hdr ++ rest → length hdr = 4%nat →
  ∃ sock', recv_all sock HEADER_STRUCT_size = Ok (hdr, sock')
         ∧ concat sock' = rest ∧ live sock'.
Proof.
  intros Hl Hc Hh.
  destruct (recv_all_enough sock HEADER_STRUCT_size Hl) as (sock' & Heq & Hcat & Hl').
  { rewrite Hc, blen_app. unfold HEADER_STRUCT_size, blen. rewrite Hh.
    lia. }
  exists sock'. rewrite Heq, Hcat, Hc.
  change (Z.to_nat HEADER_STRUCT_size) with 4%nat.
  rewrite take_app_length' by (symmetry; exact Hh). rewrite drop_app_length' by (symmetry; exact Hh).
  auto.
Qed.

(** The server-side decoder on a frame announcing [L] bytes: it rejects
    [L = 0] and [L > 1_000_000_000], and otherwise hands exactly the next
    [L] bytes to the JSON parser, or fails when the connection closes
    before they have arrived. *)
Lemma recv_message_frame sock hdr rest L :
  live sock → concat sock = hdr ++ rest → length hdr = 4%nat →
  HEADER_STRUCT_unpack hdr = Ok L →
  (L = 0 ∨ L > 1000000000 →
     recv_message sock = Raise (ValueError "Tamaño de mensaje inválido"))
  ∧ (0 < L <= 1000000000 → L <= blen rest →
     ∃ sock', recv_message sock
              = (payload ← json_loads (take (Z.to_nat L) rest);
                 Ok (payload, sock'))
            ∧ concat sock' = drop (Z.to_nat L) rest ∧ live sock')
  ∧ (0 < L <= 1000000000 → blen rest < L →
     recv_message sock
     = Raise (ConnectionError "Conexión cerrada inesperadamente")).
Proof.
  intros Hl Hc Hh HL.
  destruct (recv_header sock hdr rest Hl Hc Hh) as (s1 & Hr1 & Hc1 & Hl1).
  unfold recv_message. rewrite Hr1. simpl. rewrite HL. simpl.
  split; [|split].
  - intros [->|Hbig]; [reflexivity|].
    destruct (Z.leb_spec L 0); [reflexivity|].
    destruct (Z.gtb_spec L 1000000000); [reflexivity | lia].
  - intros HLr Hen.
    destruct (Z.leb_spec L 0); [lia|].
    destruct (Z.gtb_spec L 1000000000); [lia|]. simpl.
    destruct (recv_all_enough s1 L Hl1) as (s2 & Hr2 & Hc2 & Hl2).
    { rewrite Hc1. lia. }
    exists s2. rewrite Hr2, Hc1. simpl. rewrite Hc2, Hc1. auto.
  - intros HLr Hsh.
    destruct (Z.leb_spec L 0); [lia|].
    destruct (Z.gtb_spec L 1000000000); [lia|]. simpl.
    rewrite recv_all_short by (rewrite Hc1; exact Hsh). reflexivity.
Qed.

Lemma readexactly_enough sock n :
  live sock → 0 <= n <= blen (concat sock) →
  ∃ sock', readexactly sock n = Ok (take (Z.to_nat n) (concat sock), sock')
         ∧ concat sock' = drop (Z.to_nat n) (concat sock)
         ∧ live sock'.
Proof.
  intros Hl Hn. unfold readexactly.
  destruct (recv_all_enough sock n Hl Hn) as (sock' & -> & Hrest).
  exists sock'. auto.
Qed.

(** The client-side decoder on a reply announcing [L] bytes: it rejects
    exactly [L = 0] and [L > 100_000_000], and otherwise hands exactly the
    next [L] bytes to the JSON parser. *)
Lemma client_frame request reader hdr rest L :
  blen (json_dumps request) < 2 ^ 32 →
  live reader → concat reader = hdr ++ rest → length hdr = 4%nat →
  HEADER_STRUCT_unpack hdr = Ok L →
  (L = 0 ∨ L > MAX_FRAME →
     call_processing_server_async (Ok (λ _, reader)) request
     = Raise (ValueError ("Tamaño de mensaje inválido: " +:+ pretty L)))
  ∧ (0 < L <= MAX_FRAME → L <= blen rest →
     call_processing_server_async (Ok (λ _, reader)) request
     = json_loads (take (Z.to_nat L) rest)).
Proof.
  intros Hreq Hl Hc Hh HL. unfold MAX_FRAME.
  unfold call_processing_server_async. simpl.
  rewrite pack_header_of by (pose proof (blen_nonneg (json_dumps request)); lia).
  simpl.
  destruct (readexactly_enough reader 4 Hl) as (s1 & Hr1 & Hc1 & Hl1).
  { rewrite Hc, blen_app. unfold blen. rewrite Hh. lia. }
  rewrite Hr1, Hc. change (Z.to_nat 4) with 4%nat.
  rewrite take_app_length' by (symmetry; exact Hh). simpl. rewrite HL. simpl.
  rewrite Hc in Hc1. rewrite drop_app_length' in Hc1 by (symmetry; exact Hh).
  split.
  - intros [->|Hbig]; [reflexivity|].
    destruct (Z.leb_spec L 0); [reflexivity|].
    destruct (Z.gtb_spec L 100000000); [reflexivity | lia].
  - intros HLr Hen.
    destruct (Z.leb_spec L 0); [lia|].
    destruct (Z.gtb_spec L 100000000); [lia|]. simpl.
    destruct (readexactly_enough s1 L Hl1) as (s2 & Hr2 & Hc2 & _).
    { rewrite Hc1. lia. }
    rewrite Hr2, Hc1. reflexivity.
Qed.

End Framing.

(** Every frame announcing between 100_000_001 and 1_000_000_000 bytes whose
    body arrives is accepted by the server-side decoder. *)
Lemma recv_message_accepts_beyond_max `{JsonCodec} sock body L :
  MAX_FRAME < L <= 1000000000 → blen body = L →
  live sock → concat sock = header_of L ++ body →
  recv_message sock = (payload ← json_loads body; Ok (payload, [])).
Proof.
  unfold MAX_FRAME. intros HL Hb Hl Hc.
  assert (Hu : HEADER_STRUCT_unpack (header_of L) = Ok L)
    by (apply unpack_header_of; lia).
  pose proof (recv_message_frame sock (header_of L) body L Hl Hc eq_refl Hu)
    as (_ & Hacc & _).
  destruct Hacc as (sock' & Heq & Hrest & Hl'); [lia | lia |].
  rewrite Heq. unfold blen in Hb.
  rewrite take_ge by lia. rewrite drop_ge in Hrest by lia.
  rewrite (live_concat_nil sock' Hl' Hrest). reflexivity.
Qed.

(** C1.  The server-side decoder [recv_message] does not reject a frame
    whose header announces 100_000_001 bytes, one more than the limit of the
    protocol: the length check lets it through and the decoder goes on to
    read the body, so that on a connection carrying nothing but this header
    the failure is the closed connection and not the invalid size. *)
Theorem recv_message_oversized_frame `{JsonCodec} :
  MAX_FRAME < 100000001
  ∧ recv_message [header_of 100000001]
    = Raise (ConnectionError "Conexión cerrada inesperadamente").
Proof.
  split; [reflexivity|].
  assert (Hu : HEADER_STRUCT_unpack (header_of 100000001) = Ok 100000001)
    by (apply unpack_header_of; lia).
  assert (Hl : live [header_of 100000001])
    by (constructor; [discriminate | constructor]).
  pose proof (recv_message_frame [header_of 100000001]
                (header_of 100000001) [] 100000001 Hl eq_refl eq_refl Hu)
    as (_ & _ & Hshort).
  apply Hshort; [lia | reflexivity].
Qed.

(** The frame of a message: the header announcing the length of its
    encoding, then the encoding. *)
Lemma send_message_frame `{JsonCodec} (m : json) :
  0 <= blen (json_dumps m) < 2 ^ 32 →
  send_message [] m = Ok (header_of (blen (json_dumps m)) ++ json_dumps m).
Proof.
  intros Hsz. unfold send_message. cbn [mbind result_bind].
  rewrite pack_header_of by exact Hsz. reflexivity.
Qed.

(** [recv_message] returns the message whose frame arrives, in whatever
    segments. *)
Lemma recv_message_of_frame `{JsonCodec} (m : json) sock :
  json_loads (json_dumps m) = Ok m →
  0 < blen (json_dumps m) <= 1000000000 →
  live sock →
  concat sock = header_of (blen (json_dumps m)) ++ json_dumps m →
  recv_message sock = Ok (m, []).
Proof.
  intros Hrt Hsz Hl Hc.
  set (data := json_dumps m) in *. set (L := blen data) in *.
  assert (Hu : HEADER_STRUCT_unpack (header_of L) = Ok L)
    by (apply unpack_header_of; lia).
  pose proof (recv_message_frame sock (header_of L) data L Hl Hc eq_refl Hu)
    as (_ & Hacc & _).
  destruct Hacc as (sock' & Heq & Hrest & Hl'); [lia | subst L; lia |].
  rewrite Heq. subst L. unfold blen in *.
  rewrite Nat2Z.id, firstn_all in *. rewrite skipn_all in Hrest.
  rewrite Hrt. simpl.
  rewrite (live_concat_nil sock' Hl' Hrest). reflexivity.
Qed.

(** So does the decoder of the RPC client, for the reply of its peer. *)
Lemma client_of_frame `{JsonCodec} (m request : json) peer :
  json_loads (json_dumps m) = Ok m →
  0 < blen (json_dumps m) <= MAX_FRAME →
  blen (json_dumps request) < 2 ^ 32 →
  let sent := header_of (blen (json_dumps request)) ++ json_dumps request in
  live (peer sent) →
  concat (peer sent) = header_of (blen (json_dumps m)) ++ json_dumps m →
  call_processing_server_async (Ok peer) request = Ok m.
Proof.
  intros Hrt Hsz Hreq sent Hl Hc. unfold MAX_FRAME in Hsz.
  set (data := json_dumps m) in *. set (L := blen data) in *.
  assert (Hu : HEADER_STRUCT_unpack (header_of L) = Ok L)
    by (apply unpack_header_of; lia).
  unfold call_processing_server_async. cbn [mbind result_bind].
  rewrite pack_header_of
    by (pose proof (blen_nonneg (json_dumps request)); lia).
  cbn [mbind result_bind]. fold sent.
  pose proof (client_frame request (peer sent) (header_of L) data L Hreq Hl Hc
                eq_refl Hu) as (_ & Hacc).
  unfold call_processing_server_async in Hacc. cbn [mbind result_bind] in Hacc.
  rewrite pack_header_of in Hacc
    by (pose proof (blen_nonneg (json_dumps request)); lia).
  cbn [mbind result_bind] in Hacc.
  rewrite Hacc by (unfold MAX_FRAME; subst L; lia).
  subst L. unfold blen. rewrite Nat2Z.id, firstn_all. exact Hrt.
Qed.



(** ** The rate limiter *)

Lemma popleft_while_split now period bucket :
  ∃ purged, bucket = purged ++ popleft_while now period bucket
          ∧ Forall (λ t, t < now - period) purged
          ∧ match popleft_while now period bucket with
            | t :: _ => now - period <= t
            | [] => True
            end.
Proof.
  induction bucket as [|t rest IH]; simpl.
  - exists []. repeat split; constructor.
  - destruct (Z.gtb_spec (now - t) period) as [Hold|Hfresh].
    + destruct IH as (purged & Heq & Hp & Hh).
      exists (t :: purged). split; [simpl; congruence|].
      split; [constructor; [lia | exact Hp] | exact Hh].
    + exists []. split; [reflexivity|]. split; [constructor | lia].
Qed.

(** On a bucket in chronological order, the loop removes exactly the stamps
    older than the period. *)
Lemma popleft_while_sorted now period bucket :
  StronglySorted Z.le bucket →
  popleft_while now period bucket
  = List.filter (λ t, now - period <=? t) bucket.
Proof.
  induction 1 as [|t rest Hs IH Hle]; simpl; [reflexivity|].
  destruct (Z.gtb_spec (now - t) period) as [Hold|Hfresh].
  - destruct (Z.leb_spec (now - period) t); [lia | exact IH].
  - destruct (Z.leb_spec (now - period) t); [|lia].
    f_equal. symmetry. apply forallb_filter_id.
    apply forallb_forall. intros x Hx. apply Z.leb_le.
    rewrite Forall_forall in Hle. specialize (Hle x).
    rewrite list_elem_of_In in Hle. specialize (Hle Hx). lia.
Qed.

(** C2.  [allow] returns true and leaves the limiter as it is when
    [max <= 0].  Otherwise it removes from the front of the domain's bucket
    the stamps [t] with [now - t > 60 s], up to the first stamp that is not
    older than that (on a bucket in chronological order: all the stamps with
    [t < now - 60 s], and no other); a stamp of exactly [now - 60 s] stays.
    It returns false iff the number of stamps left is at least [max], and
    then stores the bucket so purged; else it stores the purged bucket with
    [now] appended and returns true. *)
Theorem allow_behaviour (l : DomainRateLimiter) (domain : string) (now : Z) :
  let bucket := default [] (l.(_calls) !! domain) in
  let kept := popleft_while now l.(_period) bucket in
  (l.(_max) <= 0 → allow l domain now = (true, l))
  ∧ (0 < l.(_max) →
     (∃ purged, bucket = purged ++ kept
              ∧ Forall (λ t, t < now - l.(_period)) purged
              ∧ match kept with
                | t :: _ => now - l.(_period) <= t
                | [] => True
                end)
     ∧ (StronglySorted Z.le bucket →
        kept = List.filter (λ t, now - l.(_period) <=? t) bucket)
     ∧ ((allow l domain now).1 = false ↔ l.(_max) <= Z.of_nat (length kept))
     ∧ (l.(_max) <= Z.of_nat (length kept) →
        allow l domain now
        = (false, {| _max := l.(_max);
                     _calls := <[domain := kept]> l.(_calls);
                     _period := l.(_period) |}))
     ∧ (Z.of_nat (length kept) < l.(_max) →
        allow l domain now
        = (true, {| _max := l.(_max);
                    _calls := <[domain := kept ++ [now]]> l.(_calls);
                    _period := l.(_period) |}))).
Proof.
  intros bucket kept. unfold allow. fold bucket. fold kept. split.
  - intros Hmax. destruct (Z.leb_spec (_max l) 0); [reflexivity | lia].
  - intros Hmax. destruct (Z.leb_spec (_max l) 0); [lia|].
    split; [apply popleft_while_split|].
    split; [apply popleft_while_sorted|].
    destruct (Z.geb_spec (Z.of_nat (length kept)) (_max l)); simpl.
    + split; [split; [lia | reflexivity]|]. split; [reflexivity | lia].
    + split; [split; [discriminate | lia]|]. split; [lia | reflexivity].
Qed.

Lemma allow_behaviour_witness :
  0 < sample_limiter.(_max)
  ∧ (allow sample_limiter "example.com" sample_instant).1 = false.
Proof.
  split; [reflexivity|].
  apply (proj1 (proj2 (proj2 (proj2
           (allow_behaviour sample_limiter "example.com" sample_instant)
           eq_refl)))).
  vm_compute. congruence.
Defined.

(** C2, as stated, fails at the boundary: a stamp exactly sixty seconds old
    is [<= now - 60 s], but [allow] keeps it, so a limiter of one request
    per minute rejects the request that the stated policy accepts. *)
Lemma allow_boundary_counterexample :
  1700000000 * us <= sample_instant - sample_limiter.(_period)
  ∧ allow sample_limiter "example.com" sample_instant = (false, sample_limiter)
  ∧ (allow_spec sample_limiter "example.com" sample_instant).1 = true.
Proof.
  split; [vm_compute; congruence|]. split; reflexivity.
Qed.

(** With a clock that does not run backwards the buckets stay in
    chronological order. *)
Lemma allow_keeps_sorted l domain now :
  (∀ d b, l.(_calls) !! d = Some b →
          StronglySorted Z.le b ∧ Forall (λ t, t <= now) b) →
  ∀ d b, (allow l domain now).2.(_calls) !! d = Some b →
         StronglySorted Z.le b ∧ Forall (λ t, t <= now) b.
Proof.
  intros Hinv d b. unfold allow.
  destruct (Z.leb_spec (_max l) 0); [apply Hinv|].
  set (bucket := default [] (_calls l !! domain)).
  assert (Hb : StronglySorted Z.le bucket ∧ Forall (λ t, t <= now) bucket).
  { unfold bucket. destruct (_calls l !! domain) as [b0|] eqn:E; simpl.
    - exact (Hinv _ _ E).
    - split; constructor. }
  destruct Hb as [Hs Hf].
  set (kept := popleft_while now (_period l) bucket).
  assert (Hk : StronglySorted Z.le kept ∧ Forall (λ t, t <= now) kept).
  { destruct (popleft_while_split now (_period l) bucket)
      as (purged & Heq & _ & _). fold kept in Heq.
    rewrite Heq in Hs, Hf. apply Forall_app in Hf as [_ Hf].
    split; [|exact Hf].
    clear -Hs. induction purged as [|p purged IH]; [exact Hs|].
    apply IH. simpl in Hs. inversion Hs; assumption. }
  destruct Hk as [Hks Hkf].
  destruct (Z.of_nat (length kept) >=? _max l); simpl;
    (destruct (decide (domain = d)) as [->|Hne];
     [rewrite lookup_insert_eq; intros [= <-]
     | rewrite lookup_insert_ne by exact Hne; apply Hinv]).
  - split; assumption.
  - split.
    + clear -Hks Hkf. induction kept as [|t kept IH]; simpl.
      * repeat constructor.
      * inversion Hks; subst. inversion Hkf; subst.
        constructor; [apply IH; assumption|].
        apply Forall_app. split; [assumption|]. repeat constructor. lia.
    + apply Forall_app. split; [assumption|]. repeat constructor. lia.
Qed.

(** A bucket never holds more than [max] stamps. *)
Lemma allow_bucket_bound l domain now :
  0 < l.(_max) →
  (∀ d b, l.(_calls) !! d = Some b → Z.of_nat (length b) <= l.(_max)) →
  ∀ d b, (allow l domain now).2.(_calls) !! d = Some b →
         Z.of_nat (length b) <= l.(_max).
Proof.
  intros Hmax Hinv d b. unfold allow.
  destruct (Z.leb_spec (_max l) 0); [lia|].
  set (bucket := default [] (_calls l !! domain)).
  assert (Hb : Z.of_nat (length bucket) <= _max l).
  { unfold bucket. destruct (_calls l !! domain) as [b0|] eqn:E; simpl.
    - exact (Hinv _ _ E).
    - lia. }
  set (kept := popleft_while now (_period l) bucket).
  assert (Hk : (length kept <= length bucket)%nat).
  { destruct (popleft_while_split now (_period l) bucket)
      as (purged & Heq & _ & _). fold kept in Heq.
    apply (f_equal length) in Heq. rewrite length_app in Heq. lia. }
  destruct (Z.geb_spec (Z.of_nat (length kept)) (_max l)); cbn;
    (destruct (decide (domain = d)) as [->|Hne];
     [rewrite lookup_insert_eq; intros [= <-]
     | rewrite lookup_insert_ne by exact Hne; apply Hinv]).
  - lia.
  - rewrite length_app. cbn. lia.
Qed.

(** After an admission, the stamps of a bucket in chronological order all
    lie within the period that ends at the admission. *)
Lemma allow_admitted_window l domain now b :
  0 < l.(_max) →
  StronglySorted Z.le (default [] (l.(_calls) !! domain)) →
  0 <= l.(_period) →
  (allow l domain now).1 = true →
  (allow l domain now).2.(_calls) !! domain = Some b →
  Forall (λ t, now - t <= l.(_period)) b.
Proof.
  intros Hmax Hs Hp. unfold allow.
  destruct (Z.leb_spec (_max l) 0); [lia|].
  rewrite (popleft_while_sorted now (_period l) _ Hs).
  destruct (Z.of_nat _ >=? _max l); cbn; [discriminate|].
  intros _. rewrite lookup_insert_eq. intros [= <-].
  apply Forall_app. split.
  - apply Forall_forall. intros t Ht. apply list_elem_of_In in Ht.
    apply filter_In in Ht as [_ Ht]. apply Z.leb_le in Ht. lia.
  - repeat constructor. lia.
Qed.

(** ** The result cache *)

Lemma cache_step_ttl c op : (cache_step c op).(_ttl) = c.(_ttl).
Proof.
  destruct op as [u now|u data now]; simpl; [|reflexivity].
  unfold cache_get. destruct (_entries c !! u) as [[ts d]|]; [|reflexivity].
  destruct (seconds_gt (now - ts) (_ttl c)); reflexivity.
Qed.

Lemma cache_run_cons c op ops :
  cache_run c (op :: ops) = cache_run (cache_step c op) ops.
Proof. reflexivity. Qed.

Lemma cache_run_ttl ops : ∀ c, (cache_run c ops).(_ttl) = c.(_ttl).
Proof.
  induction ops as [|op ops IH]; intros c; [reflexivity|].
  rewrite cache_run_cons, IH. apply cache_step_ttl.
Qed.

(** Operations other than [set(u, _)] leave the entry of [u] in place or
    remove it. *)
Lemma cache_step_entry u e c op :
  sets_url u op = false →
  c.(_entries) !! u = Some e ∨ c.(_entries) !! u = None →
  (cache_step c op).(_entries) !! u = Some e
  ∨ (cache_step c op).(_entries) !! u = None.
Proof.
  intros Hop Hc. destruct op as [u' now|u' data now]; simpl in *.
  - unfold cache_get. destruct (_entries c !! u') as [[ts d]|]; [|exact Hc].
    destruct (seconds_gt (now - ts) (_ttl c)); [|exact Hc]. simpl.
    destruct (decide (u' = u)) as [->|Hne].
    + right. apply lookup_delete_eq.
    + rewrite lookup_delete_ne by exact Hne. exact Hc.
  - apply bool_decide_eq_false in Hop.
    rewrite lookup_insert_ne by exact Hop. exact Hc.
Qed.

Lemma cache_run_entry u e ops : ∀ c,
  Forall (λ op, sets_url u op = false) ops →
  c.(_entries) !! u = Some e ∨ c.(_entries) !! u = None →
  (cache_run c ops).(_entries) !! u = Some e
  ∨ (cache_run c ops).(_entries) !! u = None.
Proof.
  induction ops as [|op ops IH]; intros c Hops Hc; [exact Hc|].
  apply Forall_cons in Hops as [Hop Hops]. rewrite cache_run_cons.
  apply IH; [exact Hops|]. apply cache_step_entry; assumption.
Qed.

(** While the entry is within its time to live, such operations leave it
    in place. *)
Lemma cache_step_fresh u t r c op :
  sets_url u op = false →
  op_time op - t <= c.(_ttl) * us →
  c.(_entries) !! u = Some (t, r) →
  (cache_step c op).(_entries) !! u = Some (t, r).
Proof.
  intros Hop Ht Hc. destruct op as [u' now|u' data now]; simpl in *.
  - unfold cache_get. destruct (_entries c !! u') as [[ts d]|] eqn:E;
      [|exact Hc].
    unfold seconds_gt. destruct (Z.gtb_spec (now - ts) (_ttl c * us));
      [|exact Hc]. simpl.
    destruct (decide (u' = u)) as [->|Hne].
    + rewrite Hc in E. injection E as <- <-. lia.
    + rewrite lookup_delete_ne by exact Hne. exact Hc.
  - apply bool_decide_eq_false in Hop.
    rewrite lookup_insert_ne by exact Hop. exact Hc.
Qed.

Lemma cache_run_fresh u t r now ops : ∀ c,
  Forall (λ op, sets_url u op = false) ops →
  Forall (λ op, op_time op <= now) ops →
  now - t <= c.(_ttl) * us →
  c.(_entries) !! u = Some (t, r) →
  (cache_run c ops).(_entries) !! u = Some (t, r).
Proof.
  induction ops as [|op ops IH]; intros c Hops Htimes Hnow Hc; [exact Hc|].
  apply Forall_cons in Hops as [Hop Hops].
  apply Forall_cons in Htimes as [Htime Htimes]. rewrite cache_run_cons.
  apply IH; [exact Hops | exact Htimes | rewrite cache_step_ttl; exact Hnow |].
  apply cache_step_fresh; [exact Hop | lia | exact Hc].
Qed.

(** C4.  After [set(u, r)] at instant [t], and whatever gets and sets of
    other URLs (and gets of [u]) follow: a [get(u)] at an instant [now] with
    [now - t <= TTL], the clock not having run backwards in between, returns
    [r]; a [get(u)] with [now - t > TTL] returns a miss and leaves no entry
    for [u]. *)
Theorem cache_get_after_set (c : ResultCache) (u : string) (r : doc)
    (t : Z) (ops : list cache_op) (now : Z) :
  Forall (λ op, sets_url u op = false) ops →
  let c' := cache_run (cache_set c u r t) ops in
  (now - t <= c.(_ttl) * us → Forall (λ op, op_time op <= now) ops →
   (cache_get c' u now).1 = Some r)
  ∧ (now - t > c.(_ttl) * us →
     (cache_get c' u now).1 = None
     ∧ (cache_get c' u now).2.(_entries) !! u = None).
Proof.
  intros Hops c'.
  assert (Httl : _ttl c' = _ttl c) by (unfold c'; rewrite cache_run_ttl; reflexivity).
  split.
  - intros Hnow Htimes.
    assert (He : _entries c' !! u = Some (t, r)).
    { unfold c'. apply (cache_run_fresh u t r now); try assumption.
      simpl. apply lookup_insert_eq. }
    unfold cache_get. rewrite He, Httl. unfold seconds_gt.
    destruct (Z.gtb_spec (now - t) (_ttl c * us)); [lia | reflexivity].
  - intros Hnow.
    assert (He : _entries c' !! u = Some (t, r) ∨ _entries c' !! u = None).
    { unfold c'. apply cache_run_entry; [exact Hops|].
      left. simpl. apply lookup_insert_eq. }
    unfold cache_get. destruct He as [He|He]; rewrite He.
    + rewrite Httl. unfold seconds_gt.
      destruct (Z.gtb_spec (now - t) (_ttl c * us)); [|lia]. simpl.
      split; [reflexivity | apply lookup_delete_eq].
    + simpl. split; [reflexivity | exact He].
Qed.

Lemma cache_get_after_set_witness :
  let c := cache_run (cache_set sample_cache "https://example.com" sample_doc
                        (1700000000 * us)) sample_history in
  (cache_get c "https://example.com" (1700003600 * us)).1 = Some sample_doc
  ∧ (cache_get c "https://example.com" (1700003600 * us + 1)).1 = None.
Proof.
  split.
  - apply (proj1 (cache_get_after_set sample_cache "https://example.com"
                    sample_doc (1700000000 * us) sample_history
                    (1700003600 * us) ltac:(repeat constructor))).
    + vm_compute. congruence.
    + repeat constructor; vm_compute; congruence.
  - apply (proj2 (cache_get_after_set sample_cache "https://example.com"
                    sample_doc (1700000000 * us) sample_history
                    (1700003600 * us + 1) ltac:(repeat constructor))).
    vm_compute. reflexivity.
Defined.

(** ** The analyzer dispatch of the processing server *)

Lemma guarded_off name key call dflt st :
  guarded false name key call dflt st = st.
Proof. reflexivity. Qed.

Lemma guarded_lookup flag name key call dflt st k :
  k ≠ key → (guarded flag name key call dflt st).1 !! k = st.1 !! k.
Proof.
  intros Hk. unfold guarded. destruct flag; [|reflexivity]. simpl.
  apply lookup_insert_ne. congruence.
Qed.

Lemma guarded_calls flag name key call dflt st n :
  n ≠ name → n ∈ (guarded flag name key call dflt st).2 ↔ n ∈ st.2.
Proof.
  intros Hn. unfold guarded. destruct flag; [|reflexivity]. simpl.
  rewrite elem_of_app, list_elem_of_singleton. tauto.
Qed.

(** C10.  [process_tasks] returns for every dictionary of task flags.  When
    [html] is the empty string, the technology, SEO, structured-data and
    accessibility analyzers are not among the calls made, whatever the flags,
    and their fields hold the defaults [[]], [{}], [[]], [{}]; when
    [image_urls] is the empty list, the thumbnail generator is not called
    and [thumbnails] is [[]]. *)
Theorem process_tasks_empty_inputs `{Platform} `{Analyzers}
    (u image_urls html scraping_data : json) (tasks : gmap string json) :
  (∃ out calls,
     process_tasks u (JDict tasks) image_urls (JStr "") scraping_data
     = Ok (out, calls)
     ∧ ("detect_technologies" ∉ calls)
     ∧ ("evaluate_seo" ∉ calls)
     ∧ ("extract_structured_data" ∉ calls)
     ∧ ("analyze_accessibility" ∉ calls)
     ∧ out !! "tech_stack" = Some (JList [])
     ∧ out !! "seo" = Some (JDict ∅)
     ∧ out !! "structured_data" = Some (JList [])
     ∧ out !! "accessibility" = Some (JDict ∅))
  ∧ (∃ out calls,
       process_tasks u (JDict tasks) (JList []) html scraping_data
       = Ok (out, calls)
       ∧ ("generate_thumbnails" ∉ calls)
       ∧ out !! "thumbnails" = Some (JList [])).
Proof.
  split.
  - unfold process_tasks. simpl truthy. rewrite !andb_false_r.
    rewrite !guarded_off.
    match goal with |- ∃ out calls, Ok ?st = _ ∧ _ =>
      exists st.1, st.2; split; [destruct st; reflexivity|] end.
    rewrite !guarded_calls by discriminate.
    rewrite !guarded_lookup by discriminate. simpl.
    repeat split; solve [apply not_elem_of_nil | reflexivity].
  - unfold process_tasks. simpl truthy. rewrite !andb_false_r.
    rewrite !guarded_off.
    match goal with |- ∃ out calls, Ok ?st = _ ∧ _ =>
      exists st.1, st.2; split; [destruct st; reflexivity|] end.
    rewrite !guarded_calls by discriminate.
    rewrite !guarded_lookup by discriminate. simpl.
    repeat split; solve [apply not_elem_of_nil | reflexivity].
Qed.

(** ** SEO scoring *)

(** Looking a literal key up in a dictionary built from literal keys. *)
Ltac lookup_hnf :=
  lazymatch goal with
  | |- ?m !! ?k = ?rhs =>
      let v := eval hnf in (m !! k) in change (v = rhs)
  end.

Lemma truthy_JStr s : truthy (JStr s) = bool_decide (s ≠ "").
Proof.
  unfold truthy. destruct (String.eqb_spec s "") as [->|Hne]; cbn [negb].
  - reflexivity.
  - symmetry. apply bool_decide_eq_true_2. exact Hne.
Qed.

Lemma between_decide a x b :
  (a <=? x) && (x <=? b) = bool_decide (a <= x <= b).
Proof.
  destruct (Z.leb_spec a x), (Z.leb_spec x b); cbn [andb]; symmetry;
    (apply bool_decide_eq_true_2; lia) || (apply bool_decide_eq_false_2; lia).
Qed.

Lemma b2z_if b n : b2z b n = if b then n else 0.
Proof. reflexivity. Qed.

(** The score of [evaluate_seo] is the sum of the specification, for a title
    and a description that are strings. *)
Lemma evaluate_seo_score `{Platform} html sd d t desc :
  or_empty_dict sd = Ok d →
  seo_title (BeautifulSoup html) d = JStr t →
  seo_description d = Ok (JStr desc) →
  let soup := BeautifulSoup html in
  ∃ out, evaluate_seo html sd = Ok out
       ∧ out !! "score"
         = Some (JInt (seo_score_spec t desc (count_tags soup "h1")
                         (bool_decide (is_Some (find_rel soup "link" "canonical")))
                         (bool_decide (is_Some (find_attr soup "meta" "name" "robots")))
                         (seo_open_graph soup)))
       ∧ out !! "h1_count" = Some (JInt (count_tags soup "h1")).
Proof.
  intros Hd Ht Hdesc soup. unfold evaluate_seo. fold soup.
  rewrite Hd. simpl. fold soup in Ht. rewrite Ht, Hdesc. simpl.
  eexists. split; [reflexivity|]. split; [|reflexivity].
  lookup_hnf. f_equal. f_equal. unfold seo_score_spec.
  rewrite !b2z_if, !between_decide.
  destruct (String.eqb_spec t ""), (String.eqb_spec desc ""); simpl;
    repeat match goal with
    | |- context [bool_decide (?s ≠ "")] =>
        (rewrite (bool_decide_eq_true_2 (s ≠ "")) by assumption)
        || (rewrite (bool_decide_eq_false_2 (s ≠ "")) by tauto)
    end;
    repeat match goal with
    | |- context [bool_decide ?P] => destruct (bool_decide P)
    end;
    destruct (seo_open_graph soup); reflexivity.
Qed.

Lemma head_filter_Some {A} (p : A → bool) l x :
  head (List.filter p l) = Some x → In x l ∧ p x = true.
Proof.
  intros Hh. apply filter_In.
  destruct (List.filter p l) as [|y rest]; [discriminate|].
  injection Hh as ->. left. reflexivity.
Qed.

Lemma set_if_present_other meta key value k :
  k ≠ key → set_if_present meta key value !! k = meta !! k.
Proof.
  intros Hk. unfold set_if_present.
  destruct value as [[|a v]|]; try reflexivity.
  apply lookup_insert_ne. congruence.
Qed.

Lemma extract_meta_tags_description `{Platform} html el desc :
  find_attr (BeautifulSoup html) "meta" "name" "description" = Some el →
  tag_get el "content" = Some desc → desc ≠ "" →
  extract_meta_tags html !! "description" = Some desc.
Proof.
  intros Hel Hc Hne. unfold extract_meta_tags.
  rewrite !set_if_present_other by discriminate.
  rewrite Hel. simpl. rewrite Hc. unfold set_if_present.
  destruct desc; [congruence|]. apply lookup_insert_eq.
Qed.

Lemma seo_open_graph_og_title soup el :
  find_attr soup "meta" "property" "og:title" = Some el →
  seo_open_graph soup = true.
Proof.
  intros Hel. apply head_filter_Some in Hel as [Hin Hp].
  apply andb_true_iff in Hp as [Hname Hprop].
  apply bool_decide_eq_true in Hprop.
  unfold seo_open_graph. apply existsb_exists. exists el. split.
  - unfold find_all. apply filter_In. split; assumption.
  - rewrite Hprop. reflexivity.
Qed.

(** The pipeline path: the page of the scenario, scored with the
    [scraping_data] that the scraper extracted from it. *)
Lemma evaluate_seo_scenario `{Platform} html u title_el desc_el desc og_el :
  let soup := BeautifulSoup html in
  find soup "title" = Some title_el →
  title_el.(tag_text) = "Example title for SEO" →
  find_attr soup "meta" "name" "description" = Some desc_el →
  tag_get desc_el "content" = Some desc →
  String.length desc = 60%nat →
  count_tags soup "h1" = 1 →
  is_Some (find_rel soup "link" "canonical") →
  find_attr soup "meta" "name" "robots" = None →
  find_attr soup "meta" "property" "og:title" = Some og_el →
  ∃ out, evaluate_seo html (Some (JDict (scraping_data_of html u))) = Ok out
       ∧ out !! "score" = Some (JInt 95)
       ∧ out !! "h1_count" = Some (JInt 1).
Proof.
  intros soup Htitle Htext Hdesc Hcontent Hlen Hh1 Hcanon Hrobots Hog.
  assert (Hne : desc ≠ "") by (intros ->; discriminate).
  set (sd := scraping_data_of html u).
  assert (Hsd : or_empty_dict (Some (JDict sd)) = Ok sd).
  { unfold or_empty_dict. simpl.
    rewrite bool_decide_eq_false_2; [reflexivity|].
    intros He. apply (f_equal (λ m : gmap string json, m !! "title")) in He.
    discriminate He. }
  assert (Ht : seo_title (BeautifulSoup html) sd
               = JStr "Example title for SEO").
  { unfold seo_title.
    change (sd !! "title")
      with (Some (JStr (bs_title (parse_basic_structure html (Some u))))).
    unfold parse_basic_structure. cbn [bs_title]. fold soup.
    rewrite Htitle, Htext. reflexivity. }
  assert (Hd : seo_description sd = Ok (JStr desc)).
  { unfold seo_description.
    change (sd !! "meta_tags")
      with (Some (JDict (JStr <$> extract_meta_tags html))).
    cbn [mbind result_bind]. rewrite lookup_fmap.
    rewrite (extract_meta_tags_description html desc_el desc Hdesc Hcontent Hne).
    cbn [fmap option_fmap option_map]. unfold py_or. rewrite truthy_JStr.
    rewrite bool_decide_eq_true_2 by exact Hne. reflexivity. }
  destruct (evaluate_seo_score html (Some (JDict sd)) sd
              "Example title for SEO" desc Hsd Ht Hd) as (out & Hout & Hs & Hc).
  exists out. split; [exact Hout|].
  fold soup in Hs, Hc. rewrite Hh1 in Hs, Hc. split; [|exact Hc].
  rewrite Hs. rewrite Hrobots, (seo_open_graph_og_title soup og_el Hog).
  rewrite (bool_decide_eq_true_2 _ Hcanon).
  unfold seo_score_spec, slen. rewrite Hlen.
  rewrite (bool_decide_eq_true_2 (desc ≠ "") Hne). reflexivity.
Qed.

(** C7.  The score is the stated sum, capped at 100, of the title and
    description that [evaluate_seo] works with: the title of
    [scraping_data], else the one of the page; the description of
    [scraping_data.meta_tags], else the empty string.  For the page of the
    scenario, scored as the processing server does, with the
    [scraping_data] extracted from that page, the score is 95 and
    [h1_count] is 1. *)
Theorem evaluate_seo_contract `{Platform} :
  (∀ html sd d t desc,
     or_empty_dict sd = Ok d →
     seo_title (BeautifulSoup html) d = JStr t →
     seo_description d = Ok (JStr desc) →
     let soup := BeautifulSoup html in
     ∃ out, evaluate_seo html sd = Ok out
          ∧ out !! "score"
            = Some (JInt (seo_score_spec t desc (count_tags soup "h1")
                  (bool_decide (is_Some (find_rel soup "link" "canonical")))
                  (bool_decide (is_Some (find_attr soup "meta" "name" "robots")))
                  (seo_open_graph soup)))
          ∧ out !! "h1_count" = Some (JInt (count_tags soup "h1")))
  ∧ (∀ html u title_el desc_el desc og_el,
       let soup := BeautifulSoup html in
       find soup "title" = Some title_el →
       title_el.(tag_text) = "Example title for SEO" →
       find_attr soup "meta" "name" "description" = Some desc_el →
       tag_get desc_el "content" = Some desc →
       String.length desc = 60%nat →
       count_tags soup "h1" = 1 →
       is_Some (find_rel soup "link" "canonical") →
       find_attr soup "meta" "name" "robots" = None →
       find_attr soup "meta" "property" "og:title" = Some og_el →
       ∃ out,
         evaluate_seo html (Some (JDict (scraping_data_of html u))) = Ok out
         ∧ out !! "score" = Some (JInt 95)
         ∧ out !! "h1_count" = Some (JInt 1)).
Proof.
  split.
  - intros. eapply evaluate_seo_score; eassumption.
  - intros. eapply evaluate_seo_scenario; eassumption.
Qed.

Lemma evaluate_seo_contract_witness :
  ∃ out,
    @evaluate_seo sample_platform sample_html
      (Some (JDict (@scraping_data_of sample_platform sample_html
                      "https://example.com"))) = Ok out
    ∧ out !! "score" = Some (JInt 95)
    ∧ out !! "h1_count" = Some (JInt 1).
Proof.
  refine (proj2 (@evaluate_seo_contract sample_platform) sample_html
            "https://example.com" _ _ _ _ _ _ _ _ _ _ _ _ _).
  - vm_compute. reflexivity.
  - reflexivity.
  - vm_compute. reflexivity.
  - vm_compute. reflexivity.
  - vm_compute. reflexivity.
  - vm_compute. reflexivity.
  - vm_compute. eexists. reflexivity.
  - vm_compute. reflexivity.
  - vm_compute. reflexivity.
Defined.

(** C7, as stated, fails when [evaluate_seo] is given the page alone, as the
    repository's own test calls it: the description meta of the page is not
    read, and the page of the scenario scores 65. *)
Lemma evaluate_seo_page_alone_counterexample :
  (String.length <$>
     (find_attr sample_soup "meta" "name" "description"
      ≫= λ el, tag_get el "content")) = Some 60%nat
  ∧ result_field (@evaluate_seo sample_platform sample_html None) "score"
    = Some (JInt 65)
  ∧ result_field (@evaluate_seo sample_platform sample_html None)
      "meta_description_length" = Some (JInt 0).
Proof.
  repeat split; vm_compute; reflexivity.
Qed.

(** ** The scrape pipeline *)

Lemma do_set_status_known app tid st err now r :
  app.(task_manager) !! tid = Some r →
  do_set_status tid st err now app
  = (Ok (), with_task_manager app
              (<[tid := record_set_status r st err now]> app.(task_manager))).
Proof. intros Hr. unfold do_set_status, set_status. rewrite Hr. reflexivity. Qed.

Lemma do_set_result_known app tid res st now r :
  app.(task_manager) !! tid = Some r →
  do_set_result tid res st now app
  = (Ok (), with_task_manager app
              (<[tid := record_set_result r res st now]> app.(task_manager))).
Proof. intros Hr. unfold do_set_result, set_result. rewrite Hr. reflexivity. Qed.

Lemma on_exception_known app tid now exc r :
  app.(task_manager) !! tid = Some r →
  on_exception tid now exc app
  = (Ok (), with_task_manager app
              (<[tid := record_set_status r "failed"
                          (Some (failure_reason exc)) now]>
                 app.(task_manager))).
Proof.
  intros Hr. unfold on_exception, failure_reason.
  destruct (is_timeout exc); apply do_set_status_known; exact Hr.
Qed.

(** C6.  When the fetch raises a timeout, [process_scrape_task] ends with
    the task [failed] and its error exactly ["Timeout"]; the result of the
    record is what it was, the records of the other tasks and the cache are
    untouched. *)
Theorem fetch_timeout_fails_task `{Platform} (app : App) (tid u msg : string)
    (processing : result json) (now1 now2 now3 : Z) (r : TaskRecord) :
  app.(task_manager) !! tid = Some r →
  let run := process_scrape_task tid u (Raise (TimeoutError msg)) processing
               now1 now2 now3 app in
  run.1 = Ok ()
  ∧ (∃ r', run.2.(task_manager) !! tid = Some r'
         ∧ r'.(status) = "failed"
         ∧ r'.(error) = Some "Timeout"
         ∧ r'.(result_) = r.(result_))
  ∧ (∀ tid', tid' ≠ tid →
       run.2.(task_manager) !! tid' = app.(task_manager) !! tid')
  ∧ run.2.(cache) = app.(cache).
Proof.
  intros Hr run. unfold run, process_scrape_task, scrape_begin.
  rewrite (do_set_status_known _ _ _ _ _ _ Hr).
  unfold scrape_fetched, bind, lift.
  erewrite on_exception_known by (cbn; apply lookup_insert_eq).
  cbn. split; [reflexivity|]. split; [|split; [|reflexivity]].
  - eexists. split; [apply lookup_insert_eq|]. cbn. auto.
  - intros tid' Hne. rewrite !lookup_insert_ne by congruence. reflexivity.
Qed.

Lemma fetch_timeout_fails_task_witness :
  let run := @process_scrape_task sample_platform sample_id sample_url
               (Raise (TimeoutError "")) (Ok JNull)
               (1700000001 * us) (1700000031 * us) (1700000032 * us)
               sample_app1 in
  ∃ r', run.2.(task_manager) !! sample_id = Some r'
      ∧ r'.(status) = "failed"
      ∧ r'.(error) = Some "Timeout"
      ∧ r'.(result_) = None.
Proof.
  assert (H0 : sample_app1.(task_manager) !! sample_id = Some sample_record)
    by (vm_compute; reflexivity).
  destruct (@fetch_timeout_fails_task sample_platform sample_app1 sample_id
              sample_url "" (Ok JNull) (1700000001 * us) (1700000031 * us)
              (1700000032 * us) sample_record H0)
    as (_ & (r' & Hr' & Hst & Herr & Hres) & _).
  exists r'. auto.
Defined.

Lemma merge_result_raise `{Platform} u scraping_data exc now :
  merge_result u scraping_data (processing_response_of (Raise exc)) now
  = Ok (partial_result u scraping_data exc now).
Proof. reflexivity. Qed.

(** The pipeline run in which the fetch succeeds and the processing call
    raises. *)
Lemma rpc_failure_completes_task `{Platform} app tid u html exc
    now1 now2 now3 r :
  app.(task_manager) !! tid = Some r →
  let run := process_scrape_task tid u (Ok html) (Raise exc)
               now1 now2 now3 app in
  run.1 = Ok ()
  ∧ ∃ r' res, run.2.(task_manager) !! tid = Some r'
            ∧ r'.(status) = "completed"
            ∧ r'.(result_) = Some res
            ∧ r'.(error) = None
            ∧ res !! "status" = Some (JStr "partial")
            ∧ res !! "processing_data" = Some (JDict ∅)
            ∧ res !! "processing_error"
              = Some (JStr (exn_type_name exc +:+ ": " +:+ exn_str exc))
            ∧ run.2.(cache).(_entries) !! u = Some (now3, res).
Proof.
  intros Hr run. unfold run, process_scrape_task, scrape_begin.
  rewrite (do_set_status_known _ _ _ _ _ _ Hr).
  unfold scrape_fetched, bind, lift, ret.
  erewrite do_set_status_known by (cbn; apply lookup_insert_eq).
  unfold try_except, scrape_processed, bind, lift.
  rewrite merge_result_raise.
  erewrite do_set_result_known by (cbn; apply lookup_insert_eq).
  unfold do_cache_set. cbn [fst snd].
  split; [reflexivity|].
  eexists _, (partial_result u _ exc now3).
  split; [cbn; apply lookup_insert_eq|].
  split; [reflexivity|]. split; [reflexivity|]. split; [reflexivity|].
  split; [reflexivity|]. split; [reflexivity|]. split; [reflexivity|].
  cbn. apply lookup_insert_eq.
Qed.

(** ** The invariant of the server *)

Section Invariant.
Context (Q : doc → Prop).

Lemma record_ok_status r st now :
  st ≠ "completed" → st ≠ "failed" →
  record_ok (record_set_status r st None now).
Proof. intros H1 H2. split; intros Hs; cbn in Hs; congruence. Qed.

Lemma record_ok_failed r msg now :
  r.(result_) = None →
  record_ok (record_set_status r "failed" (Some msg) now).
Proof.
  intros Hres. split; intros Hs; cbn in *; [discriminate|].
  split; [exact Hres | eexists; reflexivity].
Qed.

Lemma record_ok_completed r res now :
  record_ok (record_set_result r res "completed" now).
Proof.
  split; intros Hs; cbn in *; [|discriminate].
  split; [eexists; reflexivity | reflexivity].
Qed.

Lemma tables_inv_empty : tables_inv Q ∅ ∅ ∅.
Proof.
  split; [|split]; intros *; rewrite lookup_empty; discriminate.
Qed.

(** A record is replaced by one that is in order and holds no result. *)
Lemma tables_inv_update tasks running entries tid r' :
  tables_inv Q tasks running entries →
  is_Some (tasks !! tid) → record_ok r' → r'.(result_) = None →
  tables_inv Q (<[tid := r']> tasks) running entries.
Proof.
  intros (Ht & Hr & He) Hsome Hok Hres. split; [|split; [|exact He]].
  - intros t r. destruct (decide (tid = t)) as [->|Hne].
    + rewrite lookup_insert_eq. intros [= <-]. split; [exact Hok|].
      intros res Hx. congruence.
    + rewrite lookup_insert_ne by exact Hne. apply Ht.
  - intros t co Hco. destruct (Hr t co Hco) as (Hc & r & Hlr & Hrn).
    split; [exact Hc|]. destruct (decide (tid = t)) as [->|Hne].
    + exists r'. rewrite lookup_insert_eq. auto.
    + exists r. rewrite lookup_insert_ne by exact Hne. auto.
Qed.

(** A record is given a result, its coroutine being over. *)
Lemma tables_inv_complete tasks running entries tid r res now :
  tables_inv Q tasks running entries →
  Q res →
  tables_inv Q (<[tid := record_set_result r res "completed" now]> tasks)
    (delete tid running) entries.
Proof.
  intros (Ht & Hr & He) Hq. split; [|split; [|exact He]].
  - intros t r0. destruct (decide (tid = t)) as [->|Hne].
    + rewrite lookup_insert_eq. intros [= <-].
      split; [apply record_ok_completed|]. cbn. intros res0 [= <-]. exact Hq.
    + rewrite lookup_insert_ne by exact Hne. apply Ht.
  - intros t co. destruct (decide (tid = t)) as [->|Hne].
    + rewrite lookup_delete_eq. discriminate.
    + rewrite lookup_delete_ne by exact Hne. intros Hco.
      destruct (Hr t co Hco) as (Hc & r0 & Hlr & Hrn).
      split; [exact Hc|]. exists r0.
      rewrite lookup_insert_ne by exact Hne. auto.
Qed.

Lemma tables_inv_finish tasks running entries tid :
  tables_inv Q tasks running entries →
  tables_inv Q tasks (delete tid running) entries.
Proof.
  intros (Ht & Hr & He). split; [exact Ht|split; [|exact He]].
  intros t co. destruct (decide (tid = t)) as [->|Hne].
  - rewrite lookup_delete_eq. discriminate.
  - rewrite lookup_delete_ne by exact Hne. apply Hr.
Qed.

Lemma tables_inv_suspend tasks running entries tid co r :
  tables_inv Q tasks running entries →
  coroutine_task co = tid → tasks !! tid = Some r → r.(result_) = None →
  tables_inv Q tasks (<[tid := co]> running) entries.
Proof.
  intros (Ht & Hr & He) Hco Hlr Hres. split; [exact Ht|split; [|exact He]].
  intros t co'. destruct (decide (tid = t)) as [->|Hne].
  - rewrite lookup_insert_eq. intros [= <-]. split; [exact Hco|].
    exists r. auto.
  - rewrite lookup_insert_ne by exact Hne. apply Hr.
Qed.

Lemma tables_inv_create tasks running entries uuid r :
  tables_inv Q tasks running entries →
  tasks !! uuid = None → record_ok r → r.(result_) = None →
  tables_inv Q (<[uuid := r]> tasks) running entries.
Proof.
  intros (Ht & Hr & He) Hfresh Hok Hres. split; [|split; [|exact He]].
  - intros t r0. destruct (decide (uuid = t)) as [->|Hne].
    + rewrite lookup_insert_eq. intros [= <-]. split; [exact Hok|].
      intros res Hx. congruence.
    + rewrite lookup_insert_ne by exact Hne. apply Ht.
  - intros t co Hco. destruct (Hr t co Hco) as (Hc & r0 & Hlr & Hrn).
    split; [exact Hc|]. exists r0. split; [|exact Hrn].
    rewrite lookup_insert_ne; [exact Hlr|]. congruence.
Qed.

Lemma tables_inv_cache_set tasks running entries u ts res :
  tables_inv Q tasks running entries → Q res →
  tables_inv Q tasks running (<[u := (ts, res)]> entries).
Proof.
  intros (Ht & Hr & He) Hq. split; [exact Ht|split; [exact Hr|]].
  intros u' ts' d. destruct (decide (u = u')) as [->|Hne].
  - rewrite lookup_insert_eq. intros [= <- <-]. exact Hq.
  - rewrite lookup_insert_ne by exact Hne. apply He.
Qed.

Lemma tables_inv_cache_delete tasks running entries u :
  tables_inv Q tasks running entries →
  tables_inv Q tasks running (delete u entries).
Proof.
  intros (Ht & Hr & He). split; [exact Ht|split; [exact Hr|]].
  intros u' ts d. destruct (decide (u = u')) as [->|Hne].
  - rewrite lookup_delete_eq. discriminate.
  - rewrite lookup_delete_ne by exact Hne. apply He.
Qed.

(** [cache.get] keeps the invariant and returns documents satisfying [Q]. *)
Lemma cache_get_inv tasks running c u now :
  tables_inv Q tasks running c.(_entries) →
  tables_inv Q tasks running (cache_get c u now).2.(_entries)
  ∧ ∀ d, (cache_get c u now).1 = Some d → Q d.
Proof.
  intros Hinv. unfold cache_get.
  destruct (_entries c !! u) as [[ts d]|] eqn:E; [|split; [exact Hinv|discriminate]].
  destruct (seconds_gt (now - ts) (_ttl c)); cbn.
  - split; [apply tables_inv_cache_delete; exact Hinv | discriminate].
  - split; [exact Hinv|]. intros d' [= <-].
    destruct Hinv as (_ & _ & He). exact (He _ _ _ E).
Qed.

End Invariant.

(** [handle_scrape] keeps the invariant when the identifier is fresh. *)
Lemma handle_scrape_inv `{Platform} Q request uuid now app :
  server_inv Q app → app.(task_manager) !! uuid = None →
  server_inv Q (handle_scrape request uuid now app).2.
Proof.
  intros Hinv Hfresh. unfold handle_scrape.
  destruct (_extract_url request) as [resp|[| | |u| |]]; try exact Hinv.
  destruct (urlparse_hostname u) as [[|a dom]|]; try exact Hinv.
  unfold bind at 1. unfold do_allow.
  destruct (allow (rate_limiter app) (String a dom) now) as [allowed l'].
  destruct allowed; cbn [negb]; [|exact Hinv].
  unfold bind at 1. unfold do_create_task, create_task. cbn [task_id].
  unfold bind at 1. unfold do_cache_get. cbn [cache with_task_manager with_rate_limiter].
  set (fresh := {| task_id := uuid; url := u; status := "pending";
                   created_at := now; updated_at := now;
                   result_ := None; error := None |}).
  assert (Hok : record_ok fresh) by (split; intros Hs; discriminate Hs).
  assert (Hrun : running_tasks app !! uuid = None).
  { destruct (running_tasks app !! uuid) as [co|] eqn:E; [|reflexivity].
    destruct Hinv as (_ & Hr & _). destruct (Hr _ _ E) as (_ & r & Hlr & _).
    congruence. }
  pose proof (tables_inv_create Q _ _ _ uuid fresh Hinv Hfresh Hok eq_refl)
    as Hinv1.
  destruct (cache_get_inv Q _ _ (cache app) u now Hinv1) as [Hinv2 Hq].
  destruct (cache_get (cache app) u now) as [cached c'].
  cbn [fst snd] in Hinv2, Hq.
  assert (Hmiss : server_inv Q
            (schedule_pipeline fresh u
               (with_cache
                  (with_task_manager (with_rate_limiter app l')
                     (<[uuid:=fresh]> (task_manager (with_rate_limiter app l'))))
                  c')).2).
  { unfold schedule_pipeline, bind, schedule_background_task, ret.
    unfold server_inv. cbn.
    apply (tables_inv_suspend Q _ _ _ uuid (AtStart uuid u) fresh Hinv2 eq_refl);
      [apply lookup_insert_eq | reflexivity]. }
  destruct cached as [d|]; [|exact Hmiss].
  destruct (truthy (JDict d)); [|exact Hmiss].
  unfold bind, do_set_result, set_result.
  cbn [task_manager with_cache with_task_manager with_rate_limiter].
  rewrite lookup_insert_eq. unfold server_inv. cbn.
  rewrite <- (delete_id (running_tasks app) uuid Hrun).
  apply tables_inv_complete; [exact Hinv2 | apply Hq; reflexivity].
Qed.

Section Steps.
Context `{Platform} (reply_ok : json → Prop) (Q : doc → Prop).
Hypothesis merge_Q : ∀ u sd processing now res,
  (∀ r, processing = Ok r → reply_ok r) →
  merge_result u sd (processing_response_of processing) now = Ok res → Q res.

Lemma fail_inv app tid now exc r :
  server_inv Q app → app.(task_manager) !! tid = Some r →
  r.(result_) = None →
  server_inv Q (finish tid (on_exception tid now exc app).2).2.
Proof.
  intros Hinv Hr Hres. rewrite (on_exception_known _ _ _ _ _ Hr).
  unfold finish, server_inv. cbn.
  apply tables_inv_finish. apply tables_inv_update.
  - exact Hinv.
  - rewrite Hr. eexists; reflexivity.
  - apply record_ok_failed. exact Hres.
  - exact Hres.
Qed.

Lemma resume_inv app tid co fetched processing now :
  server_inv Q app → app.(running_tasks) !! tid = Some co →
  (∀ r, processing = Ok r → reply_ok r) →
  server_inv Q (resume co fetched processing now app).2.
Proof.
  intros Hinv Hco Hreply.
  destruct (proj1 (proj2 Hinv) _ _ Hco) as (Htid & r & Hr & Hres).
  destruct co as [t u|t u|t u sd]; cbn in Htid; subst t; unfold resume,
    run_stretch, try_except.
  - unfold bind at 1. unfold scrape_begin.
    rewrite (do_set_status_known _ _ _ _ _ _ Hr). unfold ret, suspend,
      schedule_background_task, server_inv. cbn.
    apply (tables_inv_suspend Q _ _ _ tid _ (record_set_status r "scraping" None now)).
    + apply tables_inv_update; [exact Hinv | rewrite Hr; eexists; reflexivity
        | apply record_ok_status; discriminate | exact Hres].
    + reflexivity.
    + apply lookup_insert_eq.
    + exact Hres.
  - unfold bind at 1. unfold scrape_fetched. unfold bind at 1. unfold lift at 1.
    destruct fetched as [html|exc].
    + unfold bind at 1. unfold bind at 1.
      rewrite (do_set_status_known _ _ _ _ _ _ Hr). unfold ret, suspend,
        schedule_background_task, server_inv. cbn.
      apply (tables_inv_suspend Q _ _ _ tid _ (record_set_status r "processing" None now)).
      * apply tables_inv_update; [exact Hinv | rewrite Hr; eexists; reflexivity
          | apply record_ok_status; discriminate | exact Hres].
      * reflexivity.
      * apply lookup_insert_eq.
      * exact Hres.
    + unfold bind at 1. unfold ret.
      pose proof (fail_inv app tid now exc r Hinv Hr Hres) as Hf.
      rewrite (on_exception_known _ _ _ _ _ Hr) in Hf |- *. exact Hf.
  - unfold bind at 1. unfold scrape_processed. unfold bind at 1.
    unfold lift at 1.
    destruct (merge_result u sd (processing_response_of processing) now)
      as [res|exc] eqn:Em.
    + unfold bind at 1.
      rewrite (do_set_result_known _ _ _ _ _ _ Hr).
      unfold do_cache_set, ret, finish, server_inv. cbn.
      pose proof (merge_Q _ _ _ _ _ Hreply Em) as Hq.
      apply tables_inv_cache_set; [|exact Hq].
      apply tables_inv_complete; [exact Hinv | exact Hq].
    + unfold bind, ret.
      pose proof (fail_inv app tid now exc r Hinv Hr Hres) as Hf.
      rewrite (on_exception_known _ _ _ _ _ Hr) in Hf |- *. exact Hf.
Qed.

Lemma step_inv app app' :
  server_inv Q app → step reply_ok app app' → server_inv Q app'.
Proof.
  intros Hinv Hstep. destruct Hstep as [app request uuid now Hfresh
    | app tid co fetched processing now Hco Hreply].
  - apply handle_scrape_inv; assumption.
  - eapply resume_inv; eassumption.
Qed.

Lemma reachable_inv rate_limit cache_ttl app :
  reachable reply_ok rate_limit cache_ttl app → server_inv Q app.
Proof.
  induction 1 as [|app app' _ IH Hstep].
  - apply tables_inv_empty.
  - exact (step_inv _ _ IH Hstep).
Qed.

End Steps.

(** ** Result documents *)

Lemma merge_status_ok `{Platform} u sd response now res :
  merge_result u sd response now = Ok res → status_ok res.
Proof.
  unfold merge_result. destruct response as [| | | | |resp]; try discriminate.
  intros [= <-]. unfold status_ok.
  destruct (resp !! "error"), (is_str (resp !! "status") "success");
    (left; reflexivity) || (right; reflexivity).
Qed.

Lemma merge_partial_iff `{Platform} u sd processing now res :
  (∀ r, processing = Ok r → reply_conforms r) →
  merge_result u sd (processing_response_of processing) now = Ok res →
  partial_iff_error res.
Proof.
  intros Hreply. destruct processing as [reply|exc].
  - specialize (Hreply reply eq_refl). unfold processing_response_of, merge_result.
    destruct reply as [| | | | |resp]; try discriminate.
    intros [= <-]. unfold reply_conforms in Hreply. unfold partial_iff_error.
    destruct (resp !! "error") as [e|],
             (is_str (resp !! "status") "success").
    + destruct Hreply as [Hreply _]. discriminate Hreply. eexists; reflexivity.
    + split; intros _; [eexists|]; reflexivity.
    + split; [intros Hx; discriminate Hx | intros [x Hx]; discriminate Hx].
    + destruct Hreply as [_ Hreply]. destruct (Hreply eq_refl) as [x Hx].
      discriminate Hx.
  - rewrite merge_result_raise. intros [= <-]. unfold partial_iff_error.
    split; intros _; [eexists|]; reflexivity.
Qed.

(** Every response of the processing server has one of the two shapes of
    the protocol. *)
Lemma handle_reply_conforms `{Platform} `{Analyzers} received :
  reply_conforms (JDict (handle_response received)).
Proof.
  unfold handle_response, reply_conforms, error_doc.
  destruct received as [payload|exc]; cbn [mbind result_bind].
  - destruct payload as [| | | | |payload];
      try (split; [reflexivity | intros _; eexists; reflexivity]).
    destruct (negb (truthy_opt (payload !! "url"))).
    + split; [reflexivity | intros _; eexists; reflexivity].
    + destruct (process_tasks _ _ _ _ _) as [[res calls]|exc];
        cbn [mbind result_bind].
      * split; [intros [x Hx]; discriminate Hx | intros Hx; discriminate Hx].
      * split; [reflexivity | intros _; eexists; reflexivity].
  - split; [reflexivity | intros _; eexists; reflexivity].
Qed.

(** The RPC client against the processing server of the repository: the
    call returns the response that the handler builds for the request, and
    that response has one of the two shapes of the protocol. *)
Lemma rpc_call_against_server `{JsonCodec} `{Platform} `{Analyzers} payload :
  let resp := JDict (handle_response (Ok payload)) in
  json_loads (json_dumps payload) = Ok payload →
  0 < blen (json_dumps payload) <= 1000000000 →
  json_loads (json_dumps resp) = Ok resp →
  0 < blen (json_dumps resp) <= MAX_FRAME →
  call_processing_server_async (Ok processing_server) payload = Ok resp
  ∧ reply_conforms resp.
Proof.
  intros resp Hreq Hreqsz Hresp Hrespsz.
  split; [|apply handle_reply_conforms].
  assert (Hsz32 : 0 <= blen (json_dumps resp) < 2 ^ 32)
    by (unfold MAX_FRAME in Hrespsz; lia).
  assert (Hhandle : ∀ sent : bytes,
            sent = header_of (blen (json_dumps payload)) ++ json_dumps payload →
            handle [sent]
            = header_of (blen (json_dumps resp)) ++ json_dumps resp).
  { intros sent ->. unfold handle.
    rewrite (recv_message_of_frame payload _ Hreq Hreqsz).
    - cbn [fmap result_fmap fst]. fold resp.
      rewrite (send_message_frame resp Hsz32). reflexivity.
    - constructor; [discriminate | constructor].
    - cbn [concat]. apply app_nil_r. }
  apply (client_of_frame resp payload processing_server Hresp Hrespsz).
  - lia.
  - unfold processing_server. rewrite (Hhandle _ eq_refl).
    constructor; [discriminate | constructor].
  - unfold processing_server. rewrite (Hhandle _ eq_refl).
    cbn [concat]. apply app_nil_r.
Qed.

(** ** The sample run *)

Lemma sample_app3_reachable reply_ok :
  reply_ok JNull → @reachable sample_platform reply_ok 5 3600 sample_app3.
Proof.
  intros Hnull.
  assert (Hreply : ∀ r : json, Ok JNull = Ok r → reply_ok r)
    by (intros r [= <-]; exact Hnull).
  apply (@reachable_step sample_platform reply_ok 5 3600 sample_app2).
  apply (@reachable_step sample_platform reply_ok 5 3600 sample_app1).
  apply (@reachable_step sample_platform reply_ok 5 3600 sample_app0).
  - apply reachable_init.
  - exact (@step_scrape sample_platform reply_ok sample_app0 sample_request
             sample_id (1700000000 * us) eq_refl).
  - refine (@step_resume sample_platform reply_ok sample_app1 sample_id
              (AtStart sample_id sample_url) (Ok "") (Ok JNull)
              (1700000001 * us) _ Hreply).
    vm_compute. reflexivity.
  - refine (@step_resume sample_platform reply_ok sample_app2 sample_id
              (AtFetch sample_id sample_url) (Ok sample_html) (Ok JNull)
              (1700000002 * us) _ Hreply).
    vm_compute. reflexivity.
Qed.

Lemma sample_app3_running :
  sample_app3.(running_tasks) !! sample_id
  = Some (AtRpc sample_id sample_url
            (@scraping_data_of sample_platform sample_html sample_url)).
Proof. vm_compute. reflexivity. Qed.

Lemma sample_app_refused_reachable reply_ok :
  reply_ok JNull →
  @reachable sample_platform reply_ok 5 3600 sample_app_refused.
Proof.
  intros Hnull.
  apply (@reachable_step sample_platform reply_ok 5 3600 sample_app3).
  - apply sample_app3_reachable. exact Hnull.
  - refine (@step_resume sample_platform reply_ok sample_app3 sample_id _
              (Ok "") _ (1700000003 * us) sample_app3_running _).
    intros r Hr. discriminate Hr.
Qed.

Lemma sample_app_bare_error_reachable :
  @reachable sample_platform (λ _, True) 5 3600 sample_app_bare_error.
Proof.
  apply (@reachable_step sample_platform (λ _, True) 5 3600 sample_app3).
  - apply sample_app3_reachable. exact I.
  - refine (@step_resume sample_platform (λ _, True) sample_app3 sample_id _
              (Ok "") _ (1700000003 * us) sample_app3_running _).
    intros r _. exact I.
Qed.

(** ** Task records *)

(** C5.  In every state that the server reaches by serving [/scrape]
    requests and running the pipelines it scheduled, in any interleaving and
    whatever the fetches and the processing calls return or raise, every
    task record with status [completed] has a result and no error, and every
    record with status [failed] has no result and an error. *)
Theorem server_records_in_order `{Platform} (reply_ok : json → Prop)
    (rate_limit cache_ttl : Z) (app : App) (tid : string) (r : TaskRecord) :
  reachable reply_ok rate_limit cache_ttl app →
  app.(task_manager) !! tid = Some r →
  record_ok r.
Proof.
  intros Hreach Hr.
  assert (Hinv : server_inv (λ _, True) app).
  { apply (reachable_inv reply_ok (λ _, True)) with rate_limit cache_ttl;
      [|exact Hreach]. intros; exact I. }
  destruct Hinv as (Ht & _). exact (proj1 (Ht _ _ Hr)).
Qed.

Lemma server_records_in_order_witness :
  from_option record_ok False (sample_app_refused.(task_manager) !! sample_id)
  ∧ (status <$> sample_app_refused.(task_manager) !! sample_id)
    = Some "completed".
Proof.
  split; [|vm_compute; reflexivity].
  destruct (sample_app_refused.(task_manager) !! sample_id) as [r|] eqn:E.
  - exact (@server_records_in_order sample_platform (λ _, True) 5 3600
             sample_app_refused sample_id r
             (sample_app_refused_reachable (λ _, True) I) E).
  - vm_compute in E. discriminate E.
Defined.

(** C5, as stated, fails: [set_status] accepts any status for any record,
    so [create_task] followed by [set_status(id, "completed")] leaves a
    completed record without a result. *)
Lemma manager_operations_counterexample :
  manager_reachable sample_manager_completed
  ∧ ∃ r, sample_manager_completed !! sample_id = Some r
       ∧ r.(status) = "completed"
       ∧ r.(result_) = None
       ∧ ¬ record_ok r.
Proof.
  split.
  - apply (manager_set_status
             (create_task ∅ sample_id (1700000000 * us) sample_url).2
             _ sample_id "completed" None (1700000001 * us)).
    + apply manager_create. apply manager_empty.
    + reflexivity.
  - eexists. split; [apply lookup_insert_eq|].
    split; [reflexivity|]. split; [reflexivity|].
    intros [Hc _]. destruct (Hc eq_refl) as [[x Hx] _]. discriminate Hx.
Qed.

(** C3.  (a) When the processing call raises, [process_scrape_task] ends
    with the task [completed], and its result document has [status]
    ["partial"], [processing_data] [{}] and a [processing_error] naming the
    exception.  (b) In every state the server reaches, the result of a
    completed task has [status] ["success"] or ["partial"].  (c) When every
    reply of the processing peer carries an [error] key exactly when its
    [status] is not ["success"], as every response of the processing server
    does, the result of a completed task has [status] ["partial"] iff it
    has the key [processing_error]. *)
Theorem processing_failure_is_partial `{Platform} :
  (∀ app tid u html exc now1 now2 now3 r,
     app.(task_manager) !! tid = Some r →
     let run := process_scrape_task tid u (Ok html) (Raise exc)
                  now1 now2 now3 app in
     run.1 = Ok ()
     ∧ ∃ r' res, run.2.(task_manager) !! tid = Some r'
               ∧ r'.(status) = "completed"
               ∧ r'.(result_) = Some res
               ∧ r'.(error) = None
               ∧ res !! "status" = Some (JStr "partial")
               ∧ res !! "processing_data" = Some (JDict ∅)
               ∧ res !! "processing_error"
                 = Some (JStr (exn_type_name exc +:+ ": " +:+ exn_str exc))
               ∧ run.2.(cache).(_entries) !! u = Some (now3, res))
  ∧ (∀ reply_ok rate_limit cache_ttl app tid r,
       reachable reply_ok rate_limit cache_ttl app →
       app.(task_manager) !! tid = Some r →
       r.(status) = "completed" →
       ∃ res, r.(result_) = Some res ∧ status_ok res)
  ∧ (∀ rate_limit cache_ttl app tid r,
       reachable reply_conforms rate_limit cache_ttl app →
       app.(task_manager) !! tid = Some r →
       r.(status) = "completed" →
       ∃ res, r.(result_) = Some res ∧ partial_iff_error res).
Proof.
  split; [|split].
  - intros app tid u html exc now1 now2 now3 r Hr.
    exact (rpc_failure_completes_task app tid u html exc now1 now2 now3 r Hr).
  - intros reply_ok rate_limit cache_ttl app tid r Hreach Hr Hs.
    assert (Hinv : server_inv status_ok app).
    { apply (reachable_inv reply_ok status_ok) with rate_limit cache_ttl;
        [|exact Hreach]. intros. eapply merge_status_ok. eassumption. }
    destruct Hinv as (Ht & _). destruct (Ht _ _ Hr) as ((Hc & _) & Hq).
    destruct (Hc Hs) as ([res Hres] & _). exists res. auto.
  - intros rate_limit cache_ttl app tid r Hreach Hr Hs.
    assert (Hinv : server_inv partial_iff_error app).
    { apply (reachable_inv reply_conforms partial_iff_error)
        with rate_limit cache_ttl; [|exact Hreach].
      intros. eapply merge_partial_iff; eassumption. }
    destruct Hinv as (Ht & _). destruct (Ht _ _ Hr) as ((Hc & _) & Hq).
    destruct (Hc Hs) as ([res Hres] & _). exists res. auto.
Qed.

Lemma processing_failure_is_partial_witness :
  (let run := @process_scrape_task sample_platform sample_id sample_url
                (Ok sample_html)
                (Raise (OtherError "ConnectionRefusedError" "Connect call failed"))
                (1700000001 * us) (1700000002 * us) (1700000003 * us)
                sample_app1 in
   ∃ r' res, run.2.(task_manager) !! sample_id = Some r'
           ∧ r'.(status) = "completed"
           ∧ r'.(result_) = Some res
           ∧ res !! "status" = Some (JStr "partial"))
  ∧ from_option
      (λ r, ∃ res, r.(result_) = Some res ∧ partial_iff_error res) False
      (sample_app_refused.(task_manager) !! sample_id).
Proof.
  split.
  - assert (H0 : sample_app1.(task_manager) !! sample_id = Some sample_record)
      by (vm_compute; reflexivity).
    destruct (proj1 (@processing_failure_is_partial sample_platform)
                sample_app1 sample_id sample_url sample_html
                (OtherError "ConnectionRefusedError" "Connect call failed")
                (1700000001 * us) (1700000002 * us) (1700000003 * us)
                sample_record H0)
      as (_ & r' & res & Hr' & Hs & Hres & _ & Hp & _).
    exists r', res. auto.
  - assert (Hs : (status <$> sample_app_refused.(task_manager) !! sample_id)
                 = Some "completed") by (vm_compute; reflexivity).
    destruct (sample_app_refused.(task_manager) !! sample_id) as [r|] eqn:E;
      [|discriminate Hs].
    injection Hs as Hs.
    exact (proj2 (proj2 (@processing_failure_is_partial sample_platform))
             5 3600 sample_app_refused sample_id r
             (sample_app_refused_reachable reply_conforms I) E Hs).
Defined.

(** C3, as stated, fails for a reply that is not of the shapes of the
    protocol: after the reply [{status: error}], which has no [error] key,
    the task is completed with [status] ["partial"] and its result has no
    [processing_error]. *)
Lemma bare_error_reply_counterexample :
  @reachable sample_platform (λ _, True) 5 3600 sample_app_bare_error
  ∧ (summary <$> sample_app_bare_error.(task_manager) !! sample_id)
    = Some ("completed", Some (JStr "partial"), None).
Proof.
  split; [exact sample_app_bare_error_reachable | vm_compute; reflexivity].
Qed.

(** ** The HTTP front end *)

(** [handle_scrape] on a request whose URL has a host: the verdict of the
    limiter decides, before anything else is read or written. *)
Lemma handle_scrape_with_host `{Platform} app request u domain uuid now :
  _extract_url request = inr (JStr u) →
  urlparse_hostname u = Some domain → domain ≠ "" →
  handle_scrape request uuid now app
  = if (allow app.(rate_limiter) domain now).1 then
      admitted_outcome app (allow app.(rate_limiter) domain now).2 uuid u now
    else
      (Ok (error_response "Rate limit excedido para el dominio" 429),
       with_rate_limiter app (allow app.(rate_limiter) domain now).2).
Proof.
  intros Hurl Hhost Hne. unfold handle_scrape. rewrite Hurl, Hhost.
  destruct domain as [|a dom]; [congruence|].
  unfold bind at 1. unfold do_allow.
  destruct (allow (rate_limiter app) (String a dom) now) as [allowed l'].
  cbn [fst snd]. destruct allowed; cbn [negb]; [|reflexivity].
  unfold admitted_outcome, bind at 1. unfold do_create_task, create_task.
  cbn [task_id]. unfold bind at 1. unfold do_cache_get.
  cbn [cache with_task_manager with_rate_limiter].
  destruct (cache_get (cache app) u now) as [cached c'].
  destruct cached as [d|]; [destruct (truthy (JDict d))|]; try reflexivity.
  unfold bind, do_set_result, set_result.
  cbn [task_manager with_cache with_task_manager with_rate_limiter].
  rewrite lookup_insert_eq. reflexivity.
Qed.

Lemma admitted_outcome_facts app l' uuid u now :
  let run := admitted_outcome app l' uuid u now in
  run.2.(rate_limiter) = l'
  ∧ is_Some (run.2.(task_manager) !! uuid)
  ∧ (∀ d, (cache_get app.(cache) u now).1 = Some d → d ≠ ∅ →
     ∃ body, run.1 = Ok {| resp_status := 200; resp_body := body |}
           ∧ body !! "cached" = Some (JBool true)).
Proof.
  unfold admitted_outcome.
  destruct (cache_get (cache app) u now) as [cached c']. cbn [fst snd].
  destruct cached as [d|]; [destruct (truthy (JDict d)) eqn:Et|]; cbn.
  - split; [reflexivity|]. split.
    + rewrite lookup_insert_eq. eexists; reflexivity.
    + intros d' _ _. eexists. split; reflexivity.
  - split; [reflexivity|]. split.
    + rewrite lookup_insert_eq. eexists; reflexivity.
    + intros d' [= <-] Hd. cbn in Et.
      apply negb_false_iff, bool_decide_eq_true in Et. contradiction.
  - split; [reflexivity|]. split.
    + rewrite lookup_insert_eq. eexists; reflexivity.
    + intros d' Hd. discriminate Hd.
Qed.

(** C9.  For a [/scrape] request whose URL has a host, [allow] runs first.
    With the limiter enabled ([max > 0]) and the window of the domain full,
    the response is 429 and only the limiter has changed: no task is
    created and the cache is not read, whether or not it holds a fresh
    entry for the URL.  With the limiter enabled and the window not full,
    the admission stamp [now] is appended to the bucket of the domain and a
    task is created, and this is so also when the request is then answered
    from the cache (200, [cached: true]).  With the limiter disabled
    ([max <= 0]) the request is admitted and the limiter is left as it
    is. *)
Theorem handle_scrape_rate_limit_first `{Platform} (app : App)
    (request : Request) (u domain uuid : string) (now : Z) :
  _extract_url request = inr (JStr u) →
  urlparse_hostname u = Some domain → domain ≠ "" →
  let l := app.(rate_limiter) in
  let kept :=
    popleft_while now l.(_period) (default [] (l.(_calls) !! domain)) in
  let run := handle_scrape request uuid now app in
  (0 < l.(_max) → l.(_max) <= Z.of_nat (length kept) →
   run = (Ok (error_response "Rate limit excedido para el dominio" 429),
          with_rate_limiter app
            {| _max := l.(_max); _calls := <[domain := kept]> l.(_calls);
               _period := l.(_period) |}))
  ∧ (0 < l.(_max) → Z.of_nat (length kept) < l.(_max) →
     run.2.(rate_limiter)
     = {| _max := l.(_max); _calls := <[domain := kept ++ [now]]> l.(_calls);
          _period := l.(_period) |}
     ∧ is_Some (run.2.(task_manager) !! uuid)
     ∧ (∀ d, (cache_get app.(cache) u now).1 = Some d → d ≠ ∅ →
        ∃ body, run.1 = Ok {| resp_status := 200; resp_body := body |}
              ∧ body !! "cached" = Some (JBool true)))
  ∧ (l.(_max) <= 0 →
     run.2.(rate_limiter) = l ∧ is_Some (run.2.(task_manager) !! uuid)).
Proof.
  intros Hurl Hhost Hne l kept run. unfold run.
  rewrite (handle_scrape_with_host app request u domain uuid now Hurl Hhost Hne).
  unfold allow. fold l. fold kept.
  split; [|split].
  - intros Hmax Hfull. destruct (Z.leb_spec (_max l) 0); [lia|].
    destruct (Z.geb_spec (Z.of_nat (length kept)) (_max l)); [|lia].
    reflexivity.
  - intros Hmax Hroom. destruct (Z.leb_spec (_max l) 0); [lia|].
    destruct (Z.geb_spec (Z.of_nat (length kept)) (_max l)); [lia|].
    cbn [fst snd]. apply admitted_outcome_facts.
  - intros Hoff. destruct (Z.leb_spec (_max l) 0); [|lia]. cbn [fst snd].
    destruct (admitted_outcome_facts app l uuid u now) as (H1 & H2 & _).
    split; assumption.
Qed.

Lemma handle_scrape_rate_limit_first_witness :
  (@handle_scrape sample_platform sample_request sample_id
     (1700000000 * us) sample_app0).2.(rate_limiter)
  = {| _max := 5; _calls := {[ "example.com" := [1700000000 * us] ]};
       _period := 60 * us |}.
Proof.
  refine (proj1 (proj1 (proj2
    (@handle_scrape_rate_limit_first sample_platform sample_app0
       sample_request sample_url "example.com" sample_id (1700000000 * us)
       eq_refl _ _)) _ _)).
  - vm_compute. reflexivity.
  - discriminate.
  - reflexivity.
  - reflexivity.
Defined.

(** C9, as stated, fails with the limiter disabled: the request is
    admitted, and no stamp is stored for its domain. *)
Lemma disabled_limiter_counterexample :
  let run := @handle_scrape sample_platform sample_request sample_id
               (1700000000 * us) (build_app 0 3600) in
  (∃ body, run.1 = Ok {| resp_status := 202; resp_body := body |})
  ∧ is_Some (run.2.(task_manager) !! sample_id)
  ∧ run.2.(rate_limiter).(_calls) !! "example.com" = None.
Proof.
  split; [eexists; reflexivity|].
  split; [eexists; vm_compute; reflexivity | reflexivity].
Qed.

(** ** The pipeline as the event loop runs it *)

(** Resuming the coroutine of a task three times, with nothing else in
    between, leaves the tables as [process_scrape_task] run from start to
    end does. *)
Lemma process_scrape_task_by_stretches `{Platform} app tid u fetched
    processing now1 now2 now3 r :
  app.(task_manager) !! tid = Some r →
  let app1 := (resume (AtStart tid u) fetched processing now1 app).2 in
  let app2 := (resume (AtFetch tid u) fetched processing now2 app1).2 in
  let app3 :=
    match fetched with
    | Ok html =>
        (resume (AtRpc tid u (scraping_data_of html u)) fetched processing
           now3 app2).2
    | Raise _ => app2
    end in
  let whole :=
    (process_scrape_task tid u fetched processing now1 now2 now3 app).2 in
  app3.(task_manager) = whole.(task_manager)
  ∧ app3.(cache) = whole.(cache)
  ∧ app3.(rate_limiter) = whole.(rate_limiter).
Proof.
  intros Hr. unfold process_scrape_task, resume, run_stretch, try_except.
  unfold bind, scrape_begin.
  rewrite (do_set_status_known _ _ _ _ _ _ Hr).
  unfold ret, suspend, schedule_background_task. cbn [fst snd].
  unfold scrape_fetched, bind, lift. destruct fetched as [html|exc].
  - erewrite !do_set_status_known by (cbn; apply lookup_insert_eq).
    unfold ret. cbn [fst snd].
    unfold scrape_processed, bind, lift.
    destruct (merge_result u (scraping_data_of html u)
                (processing_response_of processing) now3) as [res|exc].
    + erewrite !do_set_result_known by (cbn; apply lookup_insert_eq).
      cbn. auto.
    + erewrite !on_exception_known by (cbn; apply lookup_insert_eq).
      cbn. auto.
  - erewrite !on_exception_known by (cbn; apply lookup_insert_eq).
    cbn. auto.
Qed.

(** ** More on the codec *)

(** X1.  On a connection whose segments all carry data, [recv_all(sock, n)]
    returns exactly the first [n] bytes of the stream, however they are
    split into segments, and leaves the rest unread; it returns [b""]
    without reading when [n <= 0]; and it raises [ConnectionError] when the
    stream ends before [n] bytes have arrived. *)
Theorem recv_all_exactly (sock : socket) (n : Z) :
  live sock →
  (n <= blen (concat sock) →
   ∃ sock', recv_all sock n = Ok (take (Z.to_nat n) (concat sock), sock')
          ∧ concat sock' = drop (Z.to_nat n) (concat sock))
  ∧ (n <= 0 → recv_all sock n = Ok ([], sock))
  ∧ (blen (concat sock) < n →
     recv_all sock n
     = Raise (ConnectionError "Conexión cerrada inesperadamente")).
Proof.
  intros Hl. split; [|split].
  - intros Hn. destruct (Z.le_gt_cases 0 n) as [Hpos|Hneg].
    + destruct (recv_all_enough sock n Hl (conj Hpos Hn)) as (s & Heq & Hc & _).
      exists s. auto.
    + exists sock. unfold recv_all. rewrite recv_all_loop_turn.
      destruct (Z.ltb_spec 0 n); [lia|].
      replace (Z.to_nat n) with 0%nat by lia. auto.
  - intros Hn. unfold recv_all. rewrite recv_all_loop_turn.
    destruct (Z.ltb_spec 0 n); [lia | reflexivity].
  - apply recv_all_short.
Qed.

Lemma recv_all_exactly_witness :
  live sample_stream
  ∧ ∃ sock', recv_all sample_stream 4 = Ok (header_of 40, sock')
           ∧ concat sock' = sample_text.
Proof.
  assert (Hl : live sample_stream) by (repeat constructor; discriminate).
  split; [exact Hl|].
  destruct (proj1 (recv_all_exactly sample_stream 4 Hl)) as (s & Heq & Hc).
  - vm_compute. congruence.
  - exists s. split; [exact Heq | exact Hc].
Defined.

(** X2.  Two messages written one after the other with [send_message] are
    returned by two successive calls of [recv_message], in the order sent
    and whatever the segments in which the bytes arrive; the second call
    leaves nothing unread. *)
Theorem recv_message_in_sequence `{JsonCodec} (m1 m2 : json) (sock : socket) :
  json_loads (json_dumps m1) = Ok m1 →
  json_loads (json_dumps m2) = Ok m2 →
  0 < blen (json_dumps m1) <= 1000000000 →
  0 < blen (json_dumps m2) <= 1000000000 →
  live sock →
  (wire ← send_message [] m1; send_message wire m2) = Ok (concat sock) →
  ∃ sock1, recv_message sock = Ok (m1, sock1)
         ∧ recv_message sock1 = Ok (m2, []).
Proof.
  intros Hrt1 Hrt2 Hsz1 Hsz2 Hl Hwire.
  rewrite (send_message_frame m1) in Hwire by lia.
  cbn [mbind result_bind] in Hwire. unfold send_message in Hwire.
  cbn [mbind result_bind] in Hwire.
  rewrite pack_header_of in Hwire by lia. cbn [mbind result_bind] in Hwire.
  injection Hwire as Hwire. symmetry in Hwire.
  set (frame2 := header_of (blen (json_dumps m2)) ++ json_dumps m2) in *.
  change (concat sock
          = header_of (blen (json_dumps m1)) ++ json_dumps m1 ++ frame2)
    in Hwire.
  assert (Hu : HEADER_STRUCT_unpack (header_of (blen (json_dumps m1)))
               = Ok (blen (json_dumps m1)))
    by (apply unpack_header_of; lia).
  pose proof (recv_message_frame sock _ _ _ Hl Hwire eq_refl Hu)
    as (_ & Hacc & _).
  destruct Hacc as (sock1 & Heq & Hrest & Hl1);
    [lia | rewrite blen_app; pose proof (blen_nonneg frame2); lia |].
  exists sock1. unfold blen in Heq, Hrest. rewrite Nat2Z.id in Heq, Hrest.
  rewrite take_app_length in Heq. rewrite drop_app_length in Hrest.
  rewrite Hrt1 in Heq. split; [exact Heq|].
  apply recv_message_of_frame; assumption.
Qed.

Lemma recv_message_in_sequence_witness :
  let frame := header_of 40 ++ sample_text in
  ∃ sock1,
    @recv_message sample_codec [take 50 (frame ++ frame); drop 50 (frame ++ frame)]
    = Ok (sample_message, sock1)
    ∧ @recv_message sample_codec sock1 = Ok (sample_message, []).
Proof.
  refine (@recv_message_in_sequence sample_codec sample_message sample_message
            _ eq_refl eq_refl _ _ _ _).
  - split; vm_compute; congruence.
  - split; vm_compute; congruence.
  - repeat constructor; discriminate.
  - vm_compute. reflexivity.
Defined.

(** X3.  [recv_message] never returns a message from an incomplete frame:
    when the connection closes after a proper prefix of the frame of a
    message has arrived, in the header or in the body, it raises
    [ConnectionError]. *)
Theorem recv_message_truncated `{JsonCodec} (m : json) (sock : socket)
    (cut : nat) :
  0 < blen (json_dumps m) <= 1000000000 →
  live sock →
  let frame := header_of (blen (json_dumps m)) ++ json_dumps m in
  (cut < length frame)%nat →
  concat sock = take cut frame →
  recv_message sock
  = Raise (ConnectionError "Conexión cerrada inesperadamente").
Proof.
  intros Hsz Hl frame Hcut Hc.
  destruct (Nat.lt_ge_cases cut 4) as [Hhdr|Hbody].
  - unfold recv_message. rewrite recv_all_short; [reflexivity|].
    rewrite Hc. unfold blen, HEADER_STRUCT_size. rewrite length_take. lia.
  - assert (Hu : HEADER_STRUCT_unpack (header_of (blen (json_dumps m)))
                 = Ok (blen (json_dumps m)))
      by (apply unpack_header_of; lia).
    assert (Hsplit : take cut frame
                     = header_of (blen (json_dumps m))
                       ++ take (cut - 4) (json_dumps m)).
    { unfold frame. rewrite take_app.
      rewrite (take_ge (header_of _)) by (cbn; lia). reflexivity. }
    rewrite Hsplit in Hc.
    pose proof (recv_message_frame sock _ _ _ Hl Hc eq_refl Hu)
      as (_ & _ & Hshort).
    apply Hshort; [lia|].
    unfold frame in Hcut. rewrite length_app in Hcut. cbn in Hcut.
    unfold blen. rewrite length_take. lia.
Qed.

Lemma recv_message_truncated_witness :
  @recv_message sample_codec [header_of 40; take 39 sample_text]
  = Raise (ConnectionError "Conexión cerrada inesperadamente").
Proof.
  refine (@recv_message_truncated sample_codec sample_message
            [header_of 40; take 39 sample_text] 43 _ _ _ _).
  - split; vm_compute; congruence.
  - repeat constructor; discriminate.
  - vm_compute. lia.
  - vm_compute. reflexivity.
Defined.

Lemma byte_of_Z_of_byte b : byte_of_Z (Z_of_byte b) = b.
Proof.
  unfold byte_of_Z. pose proof (Z_of_byte_range b) as Hb.
  rewrite Z.mod_small by exact Hb. unfold Z_of_byte.
  rewrite N2Z.id, Byte.of_to_N. reflexivity.
Qed.

Lemma byte_of_Z_mod z : byte_of_Z (z mod 256) = byte_of_Z z.
Proof. unfold byte_of_Z. rewrite Z.mod_mod by lia. reflexivity. Qed.

Lemma lor_shiftl_add hi lo k :
  0 <= k → 0 <= lo < 2 ^ k → Z.lor (Z.shiftl hi k) lo = hi * 2 ^ k + lo.
Proof.
  intros Hk Hlo. rewrite Z.shiftl_mul_pow2 by exact Hk.
  assert (Hland : Z.land (hi * 2 ^ k) lo = 0).
  { apply Z.bits_inj'. intros i Hi. rewrite Z.land_spec, Z.bits_0.
    destruct (Z.ltb_spec i k).
    - rewrite Z.mul_pow2_bits_low by lia. reflexivity.
    - assert (Hbit : Z.testbit lo i = false).
      { destruct (Z.eq_dec lo 0) as [->|Hne]; [apply Z.bits_0|].
        apply Z.bits_above_log2; [lia|]. apply Z.log2_lt_pow2; [lia|].
        eapply Z.lt_le_trans; [apply Hlo|]. apply Z.pow_le_mono_r; lia. }
      rewrite Hbit. apply andb_false_r. }
  rewrite <- Z.lxor_lor by exact Hland. symmetry.
  apply Z.add_nocarry_lxor. exact Hland.
Qed.

(** The number that four bytes spell, most significant first. *)
Lemma unpack_value b3 b2 b1 b0 :
  HEADER_STRUCT_unpack [b3; b2; b1; b0]
  = Ok (Z_of_byte b3 * 2 ^ 24 + Z_of_byte b2 * 2 ^ 16
        + Z_of_byte b1 * 2 ^ 8 + Z_of_byte b0).
Proof.
  unfold HEADER_STRUCT_unpack. f_equal.
  pose proof (Z_of_byte_range b3). pose proof (Z_of_byte_range b2).
  pose proof (Z_of_byte_range b1). pose proof (Z_of_byte_range b0).
  rewrite (lor_shiftl_add _ (Z_of_byte b0) 8) by lia.
  rewrite (lor_shiftl_add _ _ 16) by lia.
  rewrite (lor_shiftl_add _ _ 24) by lia. lia.
Qed.

(** X4.  The length header is a bijection between the numbers from [0] to
    [2^32 - 1] and the strings of four bytes: [HEADER_STRUCT.unpack(b)]
    gives [n] exactly when [HEADER_STRUCT.pack(n)] gives [b], so packing
    raises for every number that no header spells, and no two numbers share
    a header. *)
Theorem HEADER_STRUCT_inverse (b : bytes) (n : Z) :
  HEADER_STRUCT_unpack b = Ok n ↔ HEADER_STRUCT_pack n = Ok b.
Proof.
  split.
  - intros Hu. pose proof (unpack_nonneg b n Hu) as Hn.
    destruct b as [|b3 [|b2 [|b1 [|b0 [|]]]]]; try discriminate Hu.
    rewrite unpack_value in Hu. injection Hu as Hu.
    pose proof (Z_of_byte_range b3). pose proof (Z_of_byte_range b2).
    pose proof (Z_of_byte_range b1). pose proof (Z_of_byte_range b0).
    rewrite pack_header_of by lia. unfold header_of.
    rewrite !Z.shiftr_div_pow2 by lia.
    rewrite <- (byte_of_Z_mod (n / 2 ^ 24)), <- (byte_of_Z_mod (n / 2 ^ 16)),
      <- (byte_of_Z_mod (n / 2 ^ 8)), <- (byte_of_Z_mod n).
    change (2 ^ 24) with 16777216 in *. change (2 ^ 16) with 65536 in *.
    change (2 ^ 8) with 256 in *.
    assert (H3 : (n / 16777216) mod 256 = Z_of_byte b3)
      by (subst n; Z.div_mod_to_equations; lia).
    assert (H2' : (n / 65536) mod 256 = Z_of_byte b2)
      by (subst n; Z.div_mod_to_equations; lia).
    assert (H1' : (n / 256) mod 256 = Z_of_byte b1)
      by (subst n; Z.div_mod_to_equations; lia).
    assert (H0' : n mod 256 = Z_of_byte b0)
      by (subst n; Z.div_mod_to_equations; lia).
    rewrite H3, H2', H1', H0'.
    rewrite !byte_of_Z_of_byte. reflexivity.
  - unfold HEADER_STRUCT_pack.
    destruct (Z.leb_spec 0 n); [|discriminate].
    destruct (Z.ltb_spec n (2 ^ 32)); [|discriminate].
    cbn [andb]. intros [= <-]. apply unpack_header_of. lia.
Qed.

(** ** The rate limiter over a history of calls *)

Lemma allow_run_cons l c calls :
  allow_run l (c :: calls) = allow_run (allow l c.1 c.2).2 calls.
Proof. reflexivity. Qed.

Lemma allow_params l domain now :
  (allow l domain now).2.(_max) = l.(_max)
  ∧ (allow l domain now).2.(_period) = l.(_period).
Proof.
  unfold allow. destruct (_max l <=? 0); [auto|].
  destruct (_ >=? _max l); auto.
Qed.

Lemma allow_other_bucket l domain now d :
  d ≠ domain →
  (allow l domain now).2.(_calls) !! d = l.(_calls) !! d.
Proof.
  intros Hne. unfold allow. destruct (_max l <=? 0); [reflexivity|].
  destruct (_ >=? _max l); cbn; apply lookup_insert_ne; congruence.
Qed.

(** The verdict of [allow] depends on the limiter through its two
    parameters and the bucket of the domain only. *)
Lemma allow_verdict_local l l' domain now :
  l'.(_max) = l.(_max) → l'.(_period) = l.(_period) →
  l'.(_calls) !! domain = l.(_calls) !! domain →
  (allow l' domain now).1 = (allow l domain now).1.
Proof.
  intros Hm Hp Hb. unfold allow. rewrite Hm, Hp, Hb.
  destruct (_max l <=? 0); [reflexivity|].
  destruct (_ >=? _max l); reflexivity.
Qed.

Lemma allow_run_others l domain calls :
  Forall (λ c : string * Z, c.1 ≠ domain) calls →
  (allow_run l calls).(_max) = l.(_max)
  ∧ (allow_run l calls).(_period) = l.(_period)
  ∧ (allow_run l calls).(_calls) !! domain = l.(_calls) !! domain.
Proof.
  revert l. induction calls as [|c calls IH]; intros l Hc; [auto|].
  apply Forall_cons in Hc as [Hne Hc]. rewrite allow_run_cons.
  destruct (IH (allow l c.1 c.2).2 Hc) as (Hm & Hp & Hb).
  destruct (allow_params l c.1 c.2) as [Hm' Hp'].
  rewrite Hm, Hp, Hb, Hm', Hp'.
  rewrite allow_other_bucket by congruence. auto.
Qed.

(** X5.  The quota of a domain is its own: [allow] calls made for other
    domains, however many and at whatever instants, change neither the
    bucket of a domain nor the verdict that its next request gets. *)
Theorem allow_domains_independent (l : DomainRateLimiter) (domain : string)
    (calls : list (string * Z)) (now : Z) :
  Forall (λ c : string * Z, c.1 ≠ domain) calls →
  (allow_run l calls).(_calls) !! domain = l.(_calls) !! domain
  ∧ (allow (allow_run l calls) domain now).1 = (allow l domain now).1.
Proof.
  intros Hc. destruct (allow_run_others l domain calls Hc) as (Hm & Hp & Hb).
  split; [exact Hb|]. apply allow_verdict_local; assumption.
Qed.

Lemma allow_domains_independent_witness :
  (allow (allow_run sample_limiter
            [("example.org", 1700000001 * us); ("example.org", 1700000002 * us)])
     "example.com" (1700000003 * us)).1 = false.
Proof.
  rewrite (proj2 (allow_domains_independent sample_limiter "example.com"
                    [("example.org", 1700000001 * us);
                     ("example.org", 1700000002 * us)] (1700000003 * us)
                    ltac:(repeat constructor; discriminate))).
  reflexivity.
Defined.

Lemma filter_filter_weaken {A} (p q : A → bool) l :
  (∀ x, p x = true → q x = true) →
  List.filter p (List.filter q l) = List.filter p l.
Proof.
  intros Hpq. induction l as [|x l IH]; [reflexivity|]. simpl.
  destruct (q x) eqn:Eq; simpl.
  - destruct (p x); [f_equal|]; exact IH.
  - destruct (p x) eqn:Ep; [|exact IH].
    rewrite (Hpq x Ep) in Eq. discriminate.
Qed.

Lemma filter_window_snoc now period l t :
  t <= now →
  List.filter (λ x, now - period <=? x) (l ++ [t])
  = List.filter (λ x, now - period <=? x) l
    ++ (if now - period <=? t then [t] else []).
Proof. intros _. rewrite List.filter_app. reflexivity. Qed.

(** The bucket of a domain and the history of its admissions hold the same
    stamps within every window that ends at or after the last call. *)
Lemma allow_run_bucket domain calls : ∀ l hist lb,
  0 < l.(_max) →
  StronglySorted Z.le (lb :: calls.*2) →
  StronglySorted Z.le (default [] (l.(_calls) !! domain)) →
  Forall (λ t, t <= lb) (default [] (l.(_calls) !! domain)) →
  (∀ now, lb <= now →
     List.filter (λ t, now - l.(_period) <=? t) (default [] (l.(_calls) !! domain))
     = List.filter (λ t, now - l.(_period) <=? t) hist) →
  let l' := allow_run l calls in
  l'.(_max) = l.(_max) ∧ l'.(_period) = l.(_period)
  ∧ StronglySorted Z.le (default [] (l'.(_calls) !! domain))
  ∧ ∀ now, Forall (λ t, t <= now) (lb :: calls.*2) →
      List.filter (λ t, now - l.(_period) <=? t)
        (default [] (l'.(_calls) !! domain))
      = List.filter (λ t, now - l.(_period) <=? t)
          (hist ++ admitted l domain calls).
Proof.
  induction calls as [|[d t] calls IH]; intros l hist lb Hmax Hs Hb Hlb Hh.
  - cbn. split; [reflexivity|]. split; [reflexivity|]. split; [exact Hb|].
    intros now Hnow. apply Forall_cons in Hnow as [Hnow _].
    rewrite app_nil_r. apply Hh. exact Hnow.
  - cbn [fmap list_fmap snd] in Hs.
    apply StronglySorted_inv in Hs as [Hs Hle].
    apply Forall_cons in Hle as [Hlbt Hle].
    intros l'. unfold l'. rewrite allow_run_cons. cbn [fst snd].
    destruct (allow_params l d t) as [Hm1 Hp1].
    set (l1 := (allow l d t).2) in *.
    set (hist1 := hist ++ (if bool_decide (d = domain) && (allow l d t).1
                           then [t] else [])).
    assert (H1 : StronglySorted Z.le (default [] (_calls l1 !! domain))
                 ∧ Forall (λ x, x <= t) (default [] (_calls l1 !! domain))
                 ∧ ∀ now, t <= now →
                     List.filter (λ x, now - _period l <=? x)
                       (default [] (_calls l1 !! domain))
                     = List.filter (λ x, now - _period l <=? x) hist1).
    { destruct (decide (d = domain)) as [->|Hne].
      - unfold hist1. rewrite bool_decide_eq_true_2 by reflexivity.
        cbn [andb]. unfold l1, allow.
        destruct (Z.leb_spec (_max l) 0); [lia|].
        rewrite (popleft_while_sorted t (_period l) _ Hb).
        set (bucket := default [] (_calls l !! domain)) in *.
        set (kept := List.filter (λ x, t - _period l <=? x) bucket).
        assert (Hks : StronglySorted Z.le kept).
        { unfold kept. clear -Hb. induction Hb as [|x b Hb IHb Hx]; cbn.
          - constructor.
          - destruct (t - _period l <=? x); [|exact IHb].
            constructor; [exact IHb|].
            apply Forall_forall. intros y Hy. apply list_elem_of_In in Hy.
            apply filter_In in Hy as [Hy _]. rewrite Forall_forall in Hx.
            apply Hx. apply list_elem_of_In. exact Hy. }
        assert (Hkt : Forall (λ x, x <= t) kept).
        { apply Forall_forall. intros y Hy. apply list_elem_of_In in Hy.
          apply filter_In in Hy as [Hy _]. rewrite Forall_forall in Hlb.
          apply list_elem_of_In, Hlb in Hy. lia. }
        assert (Hkf : ∀ now, t <= now →
                  List.filter (λ x, now - _period l <=? x) kept
                  = List.filter (λ x, now - _period l <=? x) hist).
        { intros now Hnow. unfold kept. rewrite filter_filter_weaken.
          - apply Hh. lia.
          - intros x Hx. apply Z.leb_le in Hx. apply Z.leb_le. lia. }
        destruct (Z.of_nat (length kept) >=? _max l); cbn [fst snd _calls].
        + rewrite lookup_insert_eq. cbn [default from_option id]. rewrite app_nil_r.
          split; [exact Hks|]. split; [exact Hkt|]. exact Hkf.
        + rewrite lookup_insert_eq. cbn [default from_option id].
          split; [|split].
          * apply StronglySorted_app_2; [|exact Hks | repeat constructor].
            intros x y Hx Hy. apply list_elem_of_singleton in Hy as ->.
            rewrite Forall_forall in Hkt. apply Hkt. exact Hx.
          * apply Forall_app. split; [exact Hkt|]. repeat constructor. lia.
          * intros now Hnow. rewrite !List.filter_app. f_equal.
            apply Hkf. exact Hnow.
      - unfold hist1. rewrite bool_decide_eq_false_2 by exact Hne.
        cbn [andb]. rewrite app_nil_r. unfold l1.
        rewrite allow_other_bucket by congruence.
        split; [exact Hb|]. split.
        + eapply Forall_impl; [exact Hlb|]. cbn. intros; lia.
        + intros now Hnow. apply Hh. lia. }
    destruct H1 as (Hb1 & Hlb1 & Hh1).
    rewrite <- Hp1 in Hh1.
    destruct (IH l1 hist1 t ltac:(lia) Hs Hb1 Hlb1 Hh1) as (Hm & Hp & Hbs & Hf).
    split; [lia|]. split; [congruence|]. split; [exact Hbs|].
    intros now Hnow. apply Forall_cons in Hnow as [_ Hnow].
    rewrite <- Hp1. rewrite (Hf now Hnow). unfold hist1.
    rewrite <- app_assoc. reflexivity.
Qed.

(** X6.  On a limiter that starts empty with [max > 0] and is called at
    instants that do not decrease, a request is admitted exactly when fewer
    than [max] requests of its domain were admitted in the sixty seconds up
    to it (a request exactly sixty seconds old still counts); requests that
    were rejected do not count. *)
Theorem allow_counts_admissions (max_requests : Z) (calls : list (string * Z))
    (domain : string) (now : Z) :
  0 < max_requests →
  StronglySorted Z.le (calls.*2 ++ [now]) →
  let l0 := DomainRateLimiter_init max_requests in
  (allow (allow_run l0 calls) domain now).1 = true
  ↔ Z.of_nat (length (List.filter (λ t, now - 60 * us <=? t)
                        (admitted l0 domain calls))) < max_requests.
Proof.
  intros Hmax Hs l0.
  set (lb := match calls.*2 with [] => now | t :: _ => t end).
  assert (Hs' : StronglySorted Z.le (lb :: calls.*2)).
  { unfold lb. destruct (calls.*2) as [|t ts] eqn:E.
    - repeat constructor.
    - cbn in Hs. apply StronglySorted_inv in Hs as [Hs Ht].
      apply StronglySorted_app_1_l in Hs.
      constructor; [constructor; [exact Hs|]|].
      + apply Forall_app in Ht as [Ht _]. exact Ht.
      + constructor; [lia|]. apply Forall_app in Ht as [Ht _]. exact Ht. }
  assert (Hnow : Forall (λ t, t <= now) (lb :: calls.*2)).
  { assert (Hall : Forall (λ t, t <= now) calls.*2).
    { apply StronglySorted_app in Hs as (Hs & _ & _).
      apply Forall_forall. intros t Ht. apply Hs; [exact Ht|].
      apply list_elem_of_singleton. reflexivity. }
    constructor; [|exact Hall]. unfold lb.
    destruct (calls.*2) as [|t ts]; [lia|].
    apply Forall_cons in Hall as [Ht _]. exact Ht. }
  destruct (allow_run_bucket domain calls l0 [] lb Hmax Hs')
    as (Hm & Hp & Hbs & Hf).
  { cbn. rewrite lookup_empty. constructor. }
  { cbn. rewrite lookup_empty. constructor. }
  { intros t _. cbn. rewrite lookup_empty. reflexivity. }
  specialize (Hf now Hnow). cbn [app] in Hf.
  unfold allow. rewrite Hm, Hp. cbn [l0 DomainRateLimiter_init _max _period].
  destruct (Z.leb_spec max_requests 0); [lia|].
  rewrite (popleft_while_sorted now (60 * us) _ Hbs).
  cbn [l0 DomainRateLimiter_init _period] in Hf. rewrite Hf.
  destruct (Z.geb_spec
              (Z.of_nat (length (List.filter (λ t, now - 60 * us <=? t)
                                   (admitted l0 domain calls))))
              max_requests); cbn [fst]; split; intros; try lia; try discriminate;
    reflexivity.
Qed.

Lemma allow_counts_admissions_witness :
  (allow (allow_run (DomainRateLimiter_init 1)
            [("example.com", 1700000000 * us); ("example.com", 1700000030 * us)])
     "example.com" (1700000061 * us)).1 = true.
Proof.
  apply (proj2 (allow_counts_admissions 1
                  [("example.com", 1700000000 * us);
                   ("example.com", 1700000030 * us)]
                  "example.com" (1700000061 * us) eq_refl
                  ltac:(repeat constructor; vm_compute; congruence))).
  vm_compute. reflexivity.
Defined.

(** ** The result cache over a history of operations *)

(** Where an entry of the cache comes from. *)
Lemma cache_run_origin u t d ops : ∀ c,
  (cache_run c ops).(_entries) !! u = Some (t, d) →
  (c.(_entries) !! u = Some (t, d)
   ∧ Forall (λ op, sets_url u op = false) ops)
  ∨ ∃ before after, ops = before ++ CacheSet u d t :: after
                  ∧ Forall (λ op, sets_url u op = false) after.
Proof.
  induction ops as [|op ops IH]; intros c He.
  - left. split; [exact He | constructor].
  - rewrite cache_run_cons in He.
    destruct (IH _ He) as [[Hc Hops]|(before & after & -> & Hafter)].
    + destruct op as [u' now|u' data now]; cbn [cache_step] in Hc.
      * left. split; [|constructor; [reflexivity | exact Hops]].
        unfold cache_get in Hc.
        destruct (_entries c !! u') as [[ts d']|] eqn:E; [|exact Hc].
        destruct (seconds_gt (now - ts) (_ttl c)); [|exact Hc].
        cbn in Hc. apply lookup_delete_Some in Hc as [_ Hc]. exact Hc.
      * cbn in Hc. destruct (decide (u' = u)) as [->|Hne].
        -- rewrite lookup_insert_eq in Hc. injection Hc as -> ->.
           right. exists [], ops. split; [reflexivity | exact Hops].
        -- rewrite lookup_insert_ne in Hc by exact Hne.
           left. split; [exact Hc|]. constructor; [|exact Hops].
           cbn. apply bool_decide_eq_false_2. exact Hne.
    + right. exists (op :: before), after. split; [reflexivity | exact Hafter].
Qed.

(** X7.  The cache never serves a document that it was not given, nor one
    that is past its time to live: whatever [get] and [set] calls were made
    on a cache since it was created, a [get(url)] that returns a document
    returns the one of the last [set(url, _)], and that [set] was made at
    most [ttl] seconds earlier. *)
Theorem cache_serves_last_set (ttl : Z) (ops : list cache_op) (u : string)
    (now : Z) (d : doc) :
  (cache_get (cache_run (ResultCache_init ttl) ops) u now).1 = Some d →
  ∃ before t after,
    ops = before ++ CacheSet u d t :: after
    ∧ Forall (λ op, sets_url u op = false) after
    ∧ now - t <= ttl * us.
Proof.
  intros Hget. unfold cache_get in Hget.
  destruct (_entries (cache_run (ResultCache_init ttl) ops) !! u)
    as [[t d']|] eqn:E; [|discriminate Hget].
  rewrite cache_run_ttl in Hget. cbn [ResultCache_init _ttl] in Hget.
  unfold seconds_gt in Hget.
  destruct (Z.gtb_spec (now - t) (ttl * us)); [discriminate Hget|].
  injection Hget as ->.
  destruct (cache_run_origin _ _ _ _ _ E)
    as [[Hc _]|(before & after & -> & Hafter)].
  - cbn in Hc. rewrite lookup_empty in Hc. discriminate Hc.
  - exists before, t, after. split; [reflexivity|]. split; [exact Hafter | lia].
Qed.

Lemma cache_serves_last_set_witness :
  ∃ before t after,
    CacheSet "https://example.com" sample_doc (1700000000 * us) :: sample_history
    = before ++ CacheSet "https://example.com" sample_doc t :: after
    ∧ Forall (λ op, sets_url "https://example.com" op = false) after
    ∧ 1700000030 * us - t <= 3600 * us.
Proof.
  apply (cache_serves_last_set 3600
           (CacheSet "https://example.com" sample_doc (1700000000 * us)
            :: sample_history)
           "https://example.com" (1700000030 * us) sample_doc).
  vm_compute. reflexivity.
Defined.

(** ** The task manager *)

(** X8.  Whatever [create_task], [set_status] and [set_result] calls are
    made on a task manager, every record is stored under its own [task_id]:
    the updates change neither the identifier of a record nor the key it is
    stored under. *)
Theorem manager_keys_are_task_ids (tasks : TaskManager) (tid : string)
    (r : TaskRecord) :
  manager_reachable tasks → tasks !! tid = Some r → r.(task_id) = tid.
Proof.
  intros Hreach. revert tid r.
  induction Hreach as [|tasks uuid now u _ IH
                        |tasks tasks' t st err now _ IH Hset
                        |tasks tasks' t res st now _ IH Hset]; intros tid r.
  - rewrite lookup_empty. discriminate.
  - unfold create_task. cbn [snd fresh_record task_id].
    destruct (decide (uuid = tid)) as [->|Hne].
    + rewrite lookup_insert_eq. intros [= <-]. reflexivity.
    + rewrite lookup_insert_ne by exact Hne. apply IH.
  - unfold set_status in Hset.
    destruct (tasks !! t) as [r0|] eqn:E; [|discriminate Hset].
    injection Hset as <-. destruct (decide (t = tid)) as [->|Hne].
    + rewrite lookup_insert_eq. intros [= <-]. cbn. exact (IH _ _ E).
    + rewrite lookup_insert_ne by exact Hne. apply IH.
  - unfold set_result in Hset.
    destruct (tasks !! t) as [r0|] eqn:E; [|discriminate Hset].
    injection Hset as <-. destruct (decide (t = tid)) as [->|Hne].
    + rewrite lookup_insert_eq. intros [= <-]. cbn. exact (IH _ _ E).
    + rewrite lookup_insert_ne by exact Hne. apply IH.
Qed.

Lemma manager_keys_are_task_ids_witness :
  (record_set_status sample_record "completed" None (1700000001 * us)).(task_id)
  = sample_id.
Proof.
  apply (manager_keys_are_task_ids sample_manager_completed).
  - apply (manager_set_status
             (create_task ∅ sample_id (1700000000 * us) sample_url).2
             _ sample_id "completed" None (1700000001 * us)).
    + apply manager_create. apply manager_empty.
    + reflexivity.
  - apply lookup_insert_eq.
Defined.

(** ** Runs of the pipeline *)

Lemma process_scrape_task_known `{Platform} app r tid u fetched processing
    now1 now2 now3 :
  app.(task_manager) !! tid = Some r →
  process_scrape_task tid u fetched processing now1 now2 now3 app
  = (Ok (), pipeline_outcome app r tid u fetched processing now1 now2 now3).
Proof.
  intros Hr. unfold process_scrape_task, pipeline_outcome, scrape_begin.
  rewrite (do_set_status_known _ _ _ _ _ _ Hr).
  unfold scrape_fetched, bind, lift. destruct fetched as [html|exc].
  - erewrite do_set_status_known by (cbn; apply lookup_insert_eq).
    unfold ret, try_except, scrape_processed, bind, lift.
    destruct (merge_result u (scraping_data_of html u)
                (processing_response_of processing) now3) as [res|exc].
    + erewrite do_set_result_known by (cbn; apply lookup_insert_eq).
      unfold do_cache_set, with_cache, with_task_manager. cbn.
      rewrite !insert_insert_eq. reflexivity.
    + erewrite on_exception_known by (cbn; apply lookup_insert_eq).
      unfold with_task_manager. cbn. rewrite !insert_insert_eq. reflexivity.
  - erewrite on_exception_known by (cbn; apply lookup_insert_eq).
    unfold with_task_manager. cbn. rewrite !insert_insert_eq. reflexivity.
Qed.

Lemma merge_result_completes `{Platform} u sd html processing now :
  match merge_result u sd (processing_response_of processing) now with
  | Ok res => pipeline_completes (Ok html) processing = true
              ∧ is_Some (res !! "status")
  | Raise _ => pipeline_completes (Ok html) processing = false
  end.
Proof.
  destruct processing as [[| | | | |resp]|exc]; cbn; try reflexivity.
  - split; [reflexivity|].
    destruct (resp !! "error"); eexists;
      [rewrite lookup_insert_ne by discriminate|]; reflexivity.
  - split; [reflexivity|]. eexists. reflexivity.
Qed.

(** X9.  A run of [process_scrape_task] for a task that exists never
    raises and always leaves the task in a final state.  It is [completed],
    with no error, a result document and that document cached under the URL,
    exactly when the fetch (with the extraction that follows it) returned
    and the processing call raised or returned a JSON object; otherwise it
    is [failed], with an error message, its result as it was and the cache
    untouched.  The identifier, URL and creation instant of the record, the
    records of the other tasks and the rate limiter are not changed. *)
Theorem process_scrape_task_terminal `{Platform} (app : App) (r : TaskRecord)
    (tid u : string) (fetched : result string) (processing : result json)
    (now1 now2 now3 : Z) :
  app.(task_manager) !! tid = Some r →
  let run := process_scrape_task tid u fetched processing now1 now2 now3 app in
  run.1 = Ok ()
  ∧ (∀ tid', tid' ≠ tid →
       run.2.(task_manager) !! tid' = app.(task_manager) !! tid')
  ∧ run.2.(rate_limiter) = app.(rate_limiter)
  ∧ ∃ r', run.2.(task_manager) !! tid = Some r'
        ∧ r'.(task_id) = r.(task_id) ∧ r'.(url) = r.(url)
        ∧ r'.(created_at) = r.(created_at)
        ∧ if pipeline_completes fetched processing then
            r'.(status) = "completed" ∧ r'.(error) = None
            ∧ ∃ res, r'.(result_) = Some res
                   ∧ run.2.(cache).(_entries) !! u = Some (now3, res)
          else
            r'.(status) = "failed" ∧ is_Some r'.(error)
            ∧ r'.(result_) = r.(result_) ∧ run.2.(cache) = app.(cache).
Proof.
  intros Hr run. unfold run.
  rewrite (process_scrape_task_known app r _ _ _ _ _ _ _ Hr).
  cbn [fst snd]. split; [reflexivity|]. unfold pipeline_outcome.
  destruct fetched as [html|exc].
  - pose proof (merge_result_completes u (scraping_data_of html u) html
                  processing now3) as Hm.
    destruct (merge_result u (scraping_data_of html u)
                (processing_response_of processing) now3) as [res|exc].
    + destruct Hm as [-> _]. cbn.
      split; [intros tid' Hne; apply lookup_insert_ne; congruence|].
      split; [reflexivity|]. eexists. split; [apply lookup_insert_eq|].
      cbn. repeat (split; [reflexivity|]).
      exists res. split; [reflexivity | apply lookup_insert_eq].
    + rewrite Hm. cbn.
      split; [intros tid' Hne; apply lookup_insert_ne; congruence|].
      split; [reflexivity|]. eexists. split; [apply lookup_insert_eq|].
      cbn. repeat (split; [reflexivity|]).
      split; [eexists; reflexivity|]. split; reflexivity.
  - cbn.
    split; [intros tid' Hne; apply lookup_insert_ne; congruence|].
    split; [reflexivity|]. eexists. split; [apply lookup_insert_eq|].
    cbn. repeat (split; [reflexivity|]).
    split; [eexists; reflexivity|]. split; reflexivity.
Qed.

Lemma process_scrape_task_terminal_witness :
  let run := @process_scrape_task sample_platform sample_id sample_url
               (Ok sample_html) (Ok (JList []))
               (1700000001 * us) (1700000002 * us) (1700000003 * us)
               sample_app1 in
  ∃ r', run.2.(task_manager) !! sample_id = Some r'
      ∧ r'.(status) = "failed" ∧ is_Some r'.(error)
      ∧ run.2.(cache) = sample_app1.(cache).
Proof.
  assert (H0 : sample_app1.(task_manager) !! sample_id = Some sample_record)
    by (vm_compute; reflexivity).
  destruct (@process_scrape_task_terminal sample_platform sample_app1
              sample_record sample_id sample_url (Ok sample_html)
              (Ok (JList [])) (1700000001 * us) (1700000002 * us)
              (1700000003 * us) H0)
    as (_ & _ & _ & r' & Hr' & _ & _ & _ & Hst & Herr & _ & Hc).
  exists r'. auto.
Defined.

(** X10.  Once a pipeline run has completed a task, the next [/scrape]
    request for the same URL that the rate limiter admits, made while the
    cached document is at most [ttl] seconds old, is answered at once with
    200 and [cached: true]: no pipeline is scheduled for it, and the task
    created for it is completed with the very document of the earlier
    task. *)
Theorem completed_task_is_served_from_cache `{Platform} (app : App)
    (r : TaskRecord) (tid u : string) (fetched : result string)
    (processing : result json) (now1 now2 now3 : Z)
    (request : Request) (domain uuid : string) (now : Z) :
  app.(task_manager) !! tid = Some r →
  pipeline_completes fetched processing = true →
  let app' :=
    (process_scrape_task tid u fetched processing now1 now2 now3 app).2 in
  _extract_url request = inr (JStr u) →
  urlparse_hostname u = Some domain → domain ≠ "" →
  (allow app'.(rate_limiter) domain now).1 = true →
  now - now3 <= app.(cache).(_ttl) * us →
  let run := handle_scrape request uuid now app' in
  ∃ res,
    (app'.(task_manager) !! tid ≫= result_) = Some res
    ∧ run.1 = Ok {| resp_status := 200;
                    resp_body := <["task_id" := JStr uuid]>
                                 (<["status" := JStr "completed"]>
                                 (<["cached" := JBool true]> ∅)) |}
    ∧ run.2.(running_tasks) = app.(running_tasks)
    ∧ ∃ r', run.2.(task_manager) !! uuid = Some r'
          ∧ r'.(status) = "completed" ∧ r'.(url) = u
          ∧ r'.(result_) = Some res.
Proof.
  intros Hr Hok app' Hurl Hhost Hne Hallow Hfresh run.
  unfold run, app' in *. clear run app'.
  rewrite (process_scrape_task_known app r _ _ _ _ _ _ _ Hr) in *.
  cbn [fst snd] in *.
  rewrite (handle_scrape_with_host _ request u domain uuid now Hurl Hhost Hne).
  rewrite Hallow. unfold pipeline_outcome in *.
  destruct fetched as [html|exc]; [|discriminate Hok].
  pose proof (merge_result_completes u (scraping_data_of html u) html
                processing now3) as Hm.
  destruct (merge_result u (scraping_data_of html u)
              (processing_response_of processing) now3) as [res|exc];
    [|congruence].
  destruct Hm as [_ Hstatus]. exists res.
  assert (Hres : res ≠ ∅).
  { intros ->. rewrite lookup_empty in Hstatus. destruct Hstatus; discriminate. }
  split; [cbn; rewrite lookup_insert_eq; reflexivity|].
  unfold admitted_outcome. cbn [cache with_cache with_task_manager].
  unfold cache_get, cache_set. cbn [_entries _ttl].
  rewrite lookup_insert_eq. unfold seconds_gt.
  destruct (Z.gtb_spec (now - now3) (_ttl (cache app) * us)); [lia|].
  cbn [truthy]. rewrite (bool_decide_eq_false_2 _ Hres). cbn [negb fst snd].
  split; [reflexivity|]. split; [reflexivity|].
  eexists. split; [cbn; apply lookup_insert_eq|]. cbn. auto.
Qed.

Lemma completed_task_is_served_from_cache_witness :
  let app' :=
    (@process_scrape_task sample_platform sample_id sample_url
       (Ok sample_html)
       (Raise (OtherError "ConnectionRefusedError" "Connect call failed"))
       (1700000001 * us) (1700000002 * us) (1700000003 * us) sample_app1).2 in
  let run := @handle_scrape sample_platform sample_request
               "fedcba9876543210fedcba9876543210" (1700000100 * us) app' in
  ∃ res r',
    run.2.(task_manager) !! "fedcba9876543210fedcba9876543210" = Some r'
    ∧ r'.(status) = "completed" ∧ r'.(result_) = Some res.
Proof.
  assert (H0 : sample_app1.(task_manager) !! sample_id = Some sample_record)
    by (vm_compute; reflexivity).
  destruct (@completed_task_is_served_from_cache sample_platform sample_app1
              sample_record sample_id sample_url (Ok sample_html)
              (Raise (OtherError "ConnectionRefusedError" "Connect call failed"))
              (1700000001 * us) (1700000002 * us) (1700000003 * us)
              sample_request "example.com"
              "fedcba9876543210fedcba9876543210" (1700000100 * us)
              H0 eq_refl eq_refl)
    as (res & _ & _ & _ & r' & Hr' & Hst & _ & Hres).
  - vm_compute. reflexivity.
  - discriminate.
  - vm_compute. reflexivity.
  - vm_compute. congruence.
  - exists res, r'. auto.
Defined.

(** ** The analyzer dispatch, for every request *)

Lemma guarded_fields flag name key call dflt st :
  dom st.1 = processing_fields → key ∈ processing_fields →
  dom (guarded flag name key call dflt st).1 = processing_fields.
Proof.
  intros Hd Hk. unfold guarded. destruct flag; [|exact Hd]. cbn.
  rewrite dom_insert_L, Hd. apply subseteq_union_1_L.
  apply singleton_subseteq_l. exact Hk.
Qed.

Lemma guarded_lookup_eq flag name key call dflt st :
  st.1 !! key = Some dflt →
  (guarded flag name key call dflt st).1 !! key
  = Some (field_value flag call dflt).
Proof.
  intros Hk. unfold guarded, field_value. destruct flag; [|exact Hk]. cbn.
  apply lookup_insert_eq.
Qed.

Lemma guarded_log flag name key call dflt st :
  (guarded flag name key call dflt st).2
  = st.2 ++ (if flag then [name] else []).
Proof.
  unfold guarded. destruct flag; [reflexivity|]. rewrite app_nil_r. reflexivity.
Qed.

Lemma sublist_option_cons (b : bool) (x : string) l1 l2 :
  l1 `sublist_of` l2 → (if b then [x] else []) ++ l1 `sublist_of` x :: l2.
Proof.
  intros Hs. destruct b; cbn.
  - apply sublist_skip. exact Hs.
  - apply sublist_cons. exact Hs.
Qed.

(** [process_tasks] returns for every dictionary of task flags, and what it
    returns has the seven fields. *)
Lemma process_tasks_returns `{Platform} `{Analyzers}
    (u image_urls html scraping_data : json) (tasks : gmap string json) :
  ∃ out calls,
    process_tasks u (JDict tasks) image_urls html scraping_data
    = Ok (out, calls)
    ∧ dom out = processing_fields.
Proof.
  unfold process_tasks.
  match goal with |- ∃ out calls, Ok ?st = _ ∧ _ =>
    exists st.1, st.2; split; [destruct st; reflexivity|] end.
  repeat (apply guarded_fields;
          [|apply (bool_decide_unpack _); vm_compute; reflexivity]).
  cbn [fst]. rewrite !dom_insert_L, dom_empty_L. unfold processing_fields.
  rewrite (right_id_L ∅ (∪)). reflexivity.
Qed.

(** X11.  [process_tasks] returns for every dictionary of task flags,
    whatever the analyzers do: an analyzer that raises does not make it
    raise.  The dictionary returned has exactly the seven fields
    [screenshot], [performance], [thumbnails], [tech_stack], [seo],
    [structured_data] and [accessibility], and the analyzers are called at
    most once each, in that order. *)
Theorem process_tasks_total `{Platform} `{Analyzers}
    (u image_urls html scraping_data : json) (tasks : gmap string json) :
  ∃ out calls,
    process_tasks u (JDict tasks) image_urls html scraping_data
    = Ok (out, calls)
    ∧ dom out = processing_fields
    ∧ calls `sublist_of` analyzer_names.
Proof.
  destruct (process_tasks_returns u image_urls html scraping_data tasks)
    as (out & calls & Heq & Hdom).
  exists out, calls. split; [exact Heq|]. split; [exact Hdom|].
  unfold process_tasks in Heq. injection Heq as Heq.
  apply (f_equal snd) in Heq. cbn [snd] in Heq. rewrite <- Heq.
  rewrite !guarded_log. cbn [snd app]. unfold analyzer_names.
  repeat (rewrite <- ?app_assoc; apply sublist_option_cons).
  destruct (_ && _); [reflexivity | apply sublist_nil_l].
Qed.

Ltac guarded_field :=
  rewrite ?guarded_lookup by discriminate;
  rewrite guarded_lookup_eq
    by (rewrite ?guarded_lookup by discriminate; reflexivity);
  reflexivity.

(** X12.  Each field of the dictionary that [process_tasks] returns depends
    on its own analyzer only.  It holds the default ([None], [[]] or [{}])
    when the task flag is missing or false, when the input of the analyzer
    is empty ([image_urls] for the thumbnails, [html] for the four page
    analyzers), and when the analyzer raises; otherwise it holds what the
    analyzer returned, the screenshot and the thumbnails in base64. *)
Theorem process_tasks_fields `{Platform} `{Analyzers}
    (u image_urls html scraping_data : json) (tasks : gmap string json) :
  let asked key := truthy_opt (tasks !! key) in
  ∃ out calls,
    process_tasks u (JDict tasks) image_urls html scraping_data
    = Ok (out, calls)
    ∧ out !! "screenshot"
      = Some (field_value (asked "screenshot")
                (png ← take_screenshot u; Ok (JStr (b64encode png))) JNull)
    ∧ out !! "performance"
      = Some (field_value (asked "performance") (analyze_performance u) JNull)
    ∧ out !! "thumbnails"
      = Some (field_value (asked "thumbnails" && truthy image_urls)
                (thumbs ← generate_thumbnails image_urls;
                 Ok (JList (JStr <$> (b64encode <$> thumbs))))
                (JList []))
    ∧ out !! "tech_stack"
      = Some (field_value (asked "tech_stack" && truthy html)
                (detect_technologies html) (JList []))
    ∧ out !! "seo"
      = Some (field_value (asked "seo" && truthy html)
                (call_evaluate_seo html scraping_data) (JDict ∅))
    ∧ out !! "structured_data"
      = Some (field_value (asked "structured_data" && truthy html)
                (extract_structured_data html) (JList []))
    ∧ out !! "accessibility"
      = Some (field_value (asked "accessibility" && truthy html)
                (analyze_accessibility html) (JDict ∅)).
Proof.
  intros asked. unfold process_tasks.
  match goal with |- ∃ out calls, Ok ?st = _ ∧ _ =>
    exists st.1, st.2; split; [destruct st; reflexivity|] end.
  assert (Henc : ∀ thumbs, _encode_thumbnails thumbs = b64encode <$> thumbs).
  { intros thumbs. unfold _encode_thumbnails.
    induction thumbs as [|t thumbs IH]; [reflexivity|].
    cbn. now f_equal. }
  assert (Hthumbs :
    (thumbs ← generate_thumbnails image_urls;
     Ok (JList (JStr <$> _encode_thumbnails thumbs)))
    = (thumbs ← generate_thumbnails image_urls;
       Ok (JList (JStr <$> (b64encode <$> thumbs))))).
  { destruct (generate_thumbnails image_urls) as [thumbs|e]; [|reflexivity].
    cbn. rewrite Henc. reflexivity. }
  rewrite Hthumbs. unfold asked.
  repeat split; guarded_field.
Qed.

(** ** The two servers together *)

(** The response of the processing server to the request that the pipeline
    sends for a page. *)
Lemma handle_response_to_pipeline `{Platform} `{Analyzers} limit html u :
  u ≠ "" →
  ∃ pd, handle_response (Ok (JDict (processing_payload_of limit html u)))
        = <["status" := JStr "success"]> (<["processing_data" := JDict pd]> ∅)
      ∧ dom pd = processing_fields.
Proof.
  intros Hu. unfold handle_response. cbn [mbind result_bind].
  change (processing_payload_of limit html u !! "url") with (Some (JStr u)).
  change (processing_payload_of limit html u !! "tasks")
    with (Some (JDict all_tasks)).
  cbn [truthy_opt default from_option id]. rewrite truthy_JStr.
  rewrite (bool_decide_eq_true_2 _ Hu). cbn [negb].
  destruct (process_tasks_returns (JStr u)
              (default (JList []) (processing_payload_of limit html u !! "image_urls"))
              (default (JStr "") (processing_payload_of limit html u !! "html"))
              (default (JDict ∅)
                 (processing_payload_of limit html u !! "scraping_data"))
              all_tasks) as (out & calls & Heq & Hdom).
  rewrite Heq. cbn [mbind result_bind]. exists out. split; [reflexivity | exact Hdom].
Qed.

(** X13.  The two servers together: when the reply to the processing
    request of a page is the one that the handler of the processing server
    builds for that request, the task ends [completed] and its result
    document has [status] ["success"], no [processing_error], the scraping
    data of the page, and a [processing_data] with exactly the seven
    analyzer fields; this whatever the analyzers return or raise. *)
Theorem pipeline_with_processing_server `{Platform} `{Analyzers} (app : App)
    (r : TaskRecord) (tid u html : string) (now1 now2 now3 : Z) :
  app.(task_manager) !! tid = Some r → u ≠ "" →
  let payload := JDict (processing_payload_of app.(image_limit) html u) in
  let reply := JDict (handle_response (Ok payload)) in
  let run :=
    process_scrape_task tid u (Ok html) (Ok reply) now1 now2 now3 app in
  ∃ r' res pd,
    run.2.(task_manager) !! tid = Some r'
    ∧ r'.(status) = "completed" ∧ r'.(result_) = Some res
    ∧ res !! "status" = Some (JStr "success")
    ∧ res !! "processing_error" = None
    ∧ res !! "scraping_data" = Some (JDict (scraping_data_of html u))
    ∧ res !! "processing_data" = Some (JDict pd)
    ∧ dom pd = processing_fields.
Proof.
  intros Hr Hu payload reply run. unfold run, reply, payload.
  rewrite (process_scrape_task_known app r _ _ _ _ _ _ _ Hr).
  destruct (handle_response_to_pipeline (image_limit app) html u Hu)
    as (pd & -> & Hdom).
  cbn [fst snd]. unfold pipeline_outcome, processing_response_of, merge_result.
  cbn [task_manager with_cache with_task_manager].
  eexists _, _, pd. split; [apply lookup_insert_eq|].
  cbn [status result_ record_set_result].
  split; [reflexivity|]. split; [reflexivity|].
  repeat split; try reflexivity. exact Hdom.
Qed.

Lemma pipeline_with_processing_server_witness :
  let payload :=
    JDict (@processing_payload_of sample_platform 3 sample_html sample_url) in
  let reply :=
    JDict (@handle_response sample_platform sample_analyzers (Ok payload)) in
  let run := @process_scrape_task sample_platform sample_id sample_url
               (Ok sample_html) (Ok reply)
               (1700000001 * us) (1700000002 * us) (1700000003 * us)
               sample_app1 in
  ∃ r' res,
    run.2.(task_manager) !! sample_id = Some r'
    ∧ r'.(result_) = Some res
    ∧ res !! "status" = Some (JStr "success")
    ∧ res !! "processing_error" = None.
Proof.
  assert (H0 : sample_app1.(task_manager) !! sample_id = Some sample_record)
    by (vm_compute; reflexivity).
  destruct (@pipeline_with_processing_server sample_platform sample_analyzers
              sample_app1 sample_record sample_id sample_url sample_html
              (1700000001 * us) (1700000002 * us) (1700000003 * us) H0
              ltac:(discriminate))
    as (r' & res & pd & Hr' & _ & Hres & Hst & Herr & _).
  exists r', res. auto.
Defined.

(** ** The HTTP front end, for every request *)



(** X15.  A [POST /scrape] whose JSON body gives [url] a value that is true
    but is not a string (a number, [true], a non-empty list or object)
    passes [_extract_url]; [handle_scrape] then raises at [urlparse], before
    the rate limiter is asked and before any task is created. *)
Theorem handle_scrape_url_not_a_string `{Platform} (request : Request)
    (payload : gmap string json) (v : json) (uuid : string) (now : Z)
    (app : App) :
  request.(method) ≠ "GET" →
  request.(body_json) = Ok (JDict payload) →
  payload !! "url" = Some v → truthy v = true → (∀ s, v ≠ JStr s) →
  _extract_url request = inr v
  ∧ ∃ msg, handle_scrape request uuid now app
           = (Raise (AttributeError msg), app).
Proof.
  intros Hm Hb Hv Ht Hs.
  assert (Hurl : _extract_url request = inr v).
  { unfold _extract_url. apply String.eqb_neq in Hm. rewrite Hm, Hb, Hv.
    cbn. rewrite Ht. reflexivity. }
  split; [exact Hurl|]. unfold handle_scrape. rewrite Hurl.
  destruct v; try (eexists; reflexivity). destruct (Hs s eq_refl).
Qed.

Lemma handle_scrape_url_not_a_string_witness :
  (@handle_scrape sample_platform
     {| method := "POST"; query := ∅;
        body_json := Ok (JDict {[ "url" := JInt 5 ]}) |}
     sample_id (1700000000 * us) sample_app0).2 = sample_app0.
Proof.
  destruct (proj2 (@handle_scrape_url_not_a_string sample_platform
              {| method := "POST"; query := ∅;
                 body_json := Ok (JDict {[ "url" := JInt 5 ]}) |}
              {[ "url" := JInt 5 ]} (JInt 5) sample_id (1700000000 * us)
              sample_app0 ltac:(discriminate) eq_refl eq_refl eq_refl
              ltac:(discriminate))) as [msg Hrun].
  rewrite Hrun. reflexivity.
Defined.

(** ** Reading a task back *)

Lemma status_ok_nonempty res : status_ok res → res ≠ ∅.
Proof.
  intros [Hs|Hs] ->; rewrite lookup_empty in Hs; discriminate Hs.
Qed.

(** In the states the server reaches, the records are in order and the
    result documents have one of the two statuses. *)
Lemma reachable_status_ok `{Platform} reply_ok rate_limit cache_ttl app :
  reachable reply_ok rate_limit cache_ttl app → server_inv status_ok app.
Proof.
  intros Hreach.
  apply (reachable_inv reply_ok status_ok) with rate_limit cache_ttl;
    [|exact Hreach].
  intros. eapply merge_status_ok. eassumption.
Qed.

(** X16.  [GET /result/{task_id}] in any state that the server reaches: it
    answers 404 when no task has the identifier; 200 with the result
    document, [task_id] added, when the task is [completed]; 500 with the
    stored error message, or ["Tarea fallida"] when that message is empty,
    when the task is [failed]; and 202 with [status: pending] in every
    other case.  It changes nothing. *)
Theorem handle_result_answers `{Platform} (reply_ok : json → Prop)
    (rate_limit cache_ttl : Z) (app : App) (match_info : gmap string string) :
  reachable reply_ok rate_limit cache_ttl app →
  let tid := default "" (match_info !! "task_id") in
  let run := handle_result match_info app in
  run.2 = app
  ∧ match app.(task_manager) !! tid with
    | None => run.1 = Ok (error_response "task_id inexistente" 404)
    | Some r =>
        (r.(status) = "completed" →
         ∃ res, r.(result_) = Some res ∧ status_ok res
              ∧ run.1 = Ok {| resp_status := 200;
                              resp_body := <["task_id" := JStr tid]> res |})
        ∧ (r.(status) = "failed" →
           run.1 = Ok (error_response (error_or r.(error) "Tarea fallida") 500))
        ∧ (r.(status) ≠ "completed" → r.(status) ≠ "failed" →
           run.1 = Ok {| resp_status := 202;
                         resp_body :=
                           <["status" := JStr "pending"]>
                           (<["message" := JStr "La tarea aún no finalizó"]>
                            ∅) |})
    end.
Proof.
  intros Hreach tid run. unfold run, handle_result, manager_get. fold tid.
  pose proof (reachable_status_ok _ _ _ _ Hreach) as (Hrec & _ & _).
  destruct (task_manager app !! tid) as [r|] eqn:Er; [|split; reflexivity].
  destruct (Hrec _ _ Er) as ((Hc & Hf) & Hq).
  split; [destruct (result_ r); [destruct (_ || _)|]; reflexivity|].
  split; [|split].
  - intros Hs. destruct (Hc Hs) as ([res Hres] & _). exists res.
    pose proof (Hq _ Hres) as Hok. split; [exact Hres|]. split; [exact Hok|].
    rewrite Hres, Hs. cbn [String.eqb negb orb truthy].
    rewrite (bool_decide_eq_false_2 _ (status_ok_nonempty _ Hok)).
    reflexivity.
  - intros Hs. destruct (Hf Hs) as (Hres & _). rewrite Hres, Hs. reflexivity.
  - intros Hnc Hnf. apply String.eqb_neq in Hnc, Hnf. rewrite Hnc, Hnf.
    destruct (result_ r); reflexivity.
Qed.

Lemma handle_result_answers_witness :
  ∃ res,
    (handle_result {[ "task_id" := sample_id ]} sample_app_refused).1
    = Ok {| resp_status := 200;
            resp_body := <["task_id" := JStr sample_id]> res |}
    ∧ status_ok res.
Proof.
  pose proof (@handle_result_answers sample_platform (λ _, True) 5 3600
                sample_app_refused {[ "task_id" := sample_id ]}
                (sample_app_refused_reachable (λ _, True) I)) as [_ Hcase].
  change (default "" ({[ "task_id" := sample_id ]} !! "task_id"))
    with sample_id in Hcase.
  destruct (task_manager sample_app_refused !! sample_id) as [r|] eqn:Er.
  - destruct Hcase as [Hc _].
    assert (Hs : status r = "completed").
    { assert (Hsome : (status <$> task_manager sample_app_refused !! sample_id)
                      = Some "completed") by (vm_compute; reflexivity).
      rewrite Er in Hsome. injection Hsome as Hsome. exact Hsome. }
    destruct (Hc Hs) as (res & _ & Hok & Hrun). exists res. auto.
  - vm_compute in Er. discriminate Er.
Defined.

(** X17.  [GET /status/{task_id}] in any state that the server reaches: it
    answers 404 when no task has the identifier, and otherwise 200 with the
    status payload of the record.  For a [completed] task the payload has a
    [result_status] that is ["success"] or ["partial"] and no [error]; for a
    [failed] task it has no [result_status], and it has an [error] exactly
    when the stored message is not empty. *)
Theorem handle_status_answers `{Platform} `{Datetime} (reply_ok : json → Prop)
    (rate_limit cache_ttl : Z) (app : App) (match_info : gmap string string) :
  reachable reply_ok rate_limit cache_ttl app →
  let tid := default "" (match_info !! "task_id") in
  let run := handle_status match_info app in
  run.2 = app
  ∧ match app.(task_manager) !! tid with
    | None => run.1 = Ok (error_response "task_id inexistente" 404)
    | Some r =>
        ∃ payload,
          run.1 = Ok {| resp_status := 200; resp_body := payload |}
          ∧ payload !! "task_id" = Some (JStr r.(task_id))
          ∧ payload !! "url" = Some (JStr r.(url))
          ∧ payload !! "status" = Some (JStr r.(status))
          ∧ (r.(status) = "completed" →
             (payload !! "result_status" = Some (JStr "success")
              ∨ payload !! "result_status" = Some (JStr "partial"))
             ∧ payload !! "error" = None)
          ∧ (r.(status) = "failed" →
             payload !! "result_status" = None
             ∧ (is_Some (payload !! "error") ↔
                ∃ msg, r.(error) = Some msg ∧ msg ≠ ""))
    end.
Proof.
  intros Hreach tid run. unfold run, handle_status, manager_get. fold tid.
  pose proof (reachable_status_ok _ _ _ _ Hreach) as (Hrec & _ & _).
  destruct (task_manager app !! tid) as [r|] eqn:Er; [|split; reflexivity].
  destruct (Hrec _ _ Er) as ((Hc & Hf) & Hq).
  split; [reflexivity|]. cbn [fst]. eexists. split; [reflexivity|].
  assert (Hbase : ∀ k, k ≠ "error" → k ≠ "result_status" →
            as_status_payload r !! k
            = (<["task_id" := JStr (task_id r)]>
               (<["url" := JStr (url r)]>
               (<["status" := JStr (status r)]>
               (<["created_at" := JStr (isoformat (created_at r))]>
               (<["updated_at" := JStr (isoformat (updated_at r))]>
                (∅ : doc)))))) !! k).
  { intros k Hk1 Hk2. unfold as_status_payload.
    destruct (result_ r) as [res|]; [destruct (truthy (JDict res));
      [destruct (res !! "status")|]|];
      rewrite ?lookup_insert_ne by congruence;
      (destruct (error r) as [[|a s]|];
       rewrite ?lookup_insert_ne by congruence; reflexivity). }
  split; [rewrite Hbase by discriminate; reflexivity|].
  split; [rewrite Hbase by discriminate; reflexivity|].
  split; [rewrite Hbase by discriminate; reflexivity|].
  split.
  - intros Hs. destruct (Hc Hs) as ([res Hres] & Herr).
    pose proof (Hq _ Hres) as Hok. unfold as_status_payload.
    rewrite Hres, Herr. cbn [truthy].
    rewrite (bool_decide_eq_false_2 _ (status_ok_nonempty _ Hok)).
    cbn [negb]. destruct Hok as [Hst|Hst]; rewrite Hst;
      (split; [rewrite lookup_insert_eq; auto|]);
      rewrite lookup_insert_ne by discriminate; reflexivity.
  - intros Hs. destruct (Hf Hs) as (Hres & Herr).
    unfold as_status_payload. rewrite Hres.
    destruct (error r) as [[|a s]|].
    + split; [reflexivity|]. split.
      * intros [x Hx]. discriminate Hx.
      * intros (msg & [= <-] & Hne). congruence.
    + split; [reflexivity|]. split.
      * intros _. exists (String a s). split; [reflexivity | discriminate].
      * intros _. rewrite lookup_insert_eq. eexists; reflexivity.
    + destruct Herr as [x Hx]. discriminate Hx.
Qed.

Lemma handle_status_answers_witness :
  ∃ payload,
    (@handle_status sample_datetime {[ "task_id" := sample_id ]}
       sample_app_refused).1
    = Ok {| resp_status := 200; resp_body := payload |}
    ∧ payload !! "status" = Some (JStr "completed")
    ∧ payload !! "error" = None.
Proof.
  pose proof (@handle_status_answers sample_platform sample_datetime
                (λ _, True) 5 3600 sample_app_refused
                {[ "task_id" := sample_id ]}
                (sample_app_refused_reachable (λ _, True) I)) as [_ Hcase].
  change (default "" ({[ "task_id" := sample_id ]} !! "task_id"))
    with sample_id in Hcase.
  destruct (task_manager sample_app_refused !! sample_id) as [r|] eqn:Er.
  - assert (Hs : status r = "completed").
    { assert (Hsome : (status <$> task_manager sample_app_refused !! sample_id)
                      = Some "completed") by (vm_compute; reflexivity).
      rewrite Er in Hsome. injection Hsome as Hsome. exact Hsome. }
    destruct Hcase as (payload & Hrun & _ & _ & Hst & Hc & _).
    exists payload. rewrite Hs in Hst.
    split; [exact Hrun|]. split; [exact Hst|]. exact (proj2 (Hc Hs)).
  - vm_compute in Er. discriminate Er.
Defined.

(** ** The extractors *)

Lemma length_omap_le {A B} (f : A → option B) l :
  (length (omap f l) <= length l)%nat.
Proof.
  induction l as [|x l IH]; [reflexivity|]. cbn.
  destruct (f x); cbn; lia.
Qed.




Lemma set_if_present_Some meta key value k v :
  set_if_present meta key value !! k = Some v →
  (k = key ∧ value = Some v ∧ v ≠ "") ∨ meta !! k = Some v.
Proof.
  unfold set_if_present. destruct value as [[|a s]|]; auto.
  destruct (decide (key = k)) as [->|Hne].
  - rewrite lookup_insert_eq. intros [= <-]. left. auto.
  - rewrite lookup_insert_ne by exact Hne. auto.
Qed.

Lemma find_attr_meta soup key value el :
  find_attr soup "meta" key value = Some el →
  el ∈ soup ∧ el.(tag_name) = "meta".
Proof.
  intros Hf. apply head_filter_Some in Hf as [Hin Hp].
  apply andb_true_iff in Hp as [Hn _]. apply bool_decide_eq_true in Hn.
  split; [apply list_elem_of_In; exact Hin | exact Hn].
Qed.

(** X19.  [extract_meta_tags] returns no other keys than [description],
    [keywords], [og:title] and [og:description], never an empty value, and
    every value it returns is the [content] of a [meta] element of the
    page. *)
Theorem extract_meta_tags_shape `{Platform} (html k v : string) :
  extract_meta_tags html !! k = Some v →
  k ∈ ["description"; "keywords"; "og:title"; "og:description"]
  ∧ v ≠ ""
  ∧ ∃ el, el ∈ BeautifulSoup html ∧ el.(tag_name) = "meta"
        ∧ tag_get el "content" = Some v.
Proof.
  unfold extract_meta_tags. intros Hk.
  assert (Hel : ∀ (o : option Tag),
            (∀ el, o = Some el → el ∈ BeautifulSoup html ∧ tag_name el = "meta") →
            (o ≫= λ el, tag_get el "content") = Some v →
            ∃ el, el ∈ BeautifulSoup html ∧ tag_name el = "meta"
                ∧ tag_get el "content" = Some v).
  { intros [el|] Ho Hc; [|discriminate Hc].
    exists el. destruct (Ho el eq_refl). auto. }
  assert (Hor : ∀ key1 key2 value el,
            or_else (find_attr (BeautifulSoup html) "meta" key1 value)
                    (find_attr (BeautifulSoup html) "meta" key2 value) = Some el →
            el ∈ BeautifulSoup html ∧ tag_name el = "meta").
  { intros key1 key2 value el. unfold or_else.
    destruct (find_attr _ "meta" key1 value) eqn:E1.
    - intros [= <-]. exact (find_attr_meta _ _ _ _ E1).
    - apply find_attr_meta. }
  apply set_if_present_Some in Hk as [(-> & Hc & Hv)|Hk].
  { split; [apply list_elem_of_In; cbn; auto 10|]. split; [exact Hv|].
    apply (Hel _ (Hor _ _ _) Hc). }
  apply set_if_present_Some in Hk as [(-> & Hc & Hv)|Hk].
  { split; [apply list_elem_of_In; cbn; auto 10|]. split; [exact Hv|].
    apply (Hel _ (Hor _ _ _) Hc). }
  apply set_if_present_Some in Hk as [(-> & Hc & Hv)|Hk].
  { split; [apply list_elem_of_In; cbn; auto 10|]. split; [exact Hv|].
    apply (Hel _ (λ el, find_attr_meta _ _ _ el) Hc). }
  apply set_if_present_Some in Hk as [(-> & Hc & Hv)|Hk].
  { split; [apply list_elem_of_In; cbn; auto 10|]. split; [exact Hv|].
    apply (Hel _ (λ el, find_attr_meta _ _ _ el) Hc). }
  rewrite lookup_empty in Hk. discriminate Hk.
Qed.

Lemma extract_meta_tags_shape_witness :
  "Descripcion de prueba para SEO con una longitud adecuada, si" ≠ ""
  ∧ ∃ el, el ∈ @BeautifulSoup sample_platform sample_html
        ∧ el.(tag_name) = "meta"
        ∧ tag_get el "content"
          = Some "Descripcion de prueba para SEO con una longitud adecuada, si".
Proof.
  exact (proj2 (@extract_meta_tags_shape sample_platform sample_html
                  "description"
                  "Descripcion de prueba para SEO con una longitud adecuada, si"
                  ltac:(vm_compute; reflexivity))).
Defined.

(** ** The SEO analyzer on every input *)

Lemma b2z_range b n : 0 <= n → 0 <= b2z b n <= n.
Proof. intros Hn. unfold b2z. destruct b; lia. Qed.

(** X20.  Whenever [evaluate_seo] returns, its [score] is a whole number
    between 0 and 100, and it comes with the six other fields of the
    report. *)
Theorem evaluate_seo_score_range `{Platform} (html : string)
    (scraping_data : option json) (out : gmap string json) :
  evaluate_seo html scraping_data = Ok out →
  (∃ score, out !! "score" = Some (JInt score) ∧ 0 <= score <= 100)
  ∧ dom out = ({[ "title_length"; "meta_description_length"; "h1_count";
                  "has_canonical"; "has_robots"; "has_open_graph"; "score" ]}
               : gset string).
Proof.
  unfold evaluate_seo. intros Hout.
  destruct (or_empty_dict scraping_data) as [sd|]; [|discriminate Hout].
  cbn [mbind result_bind] in Hout.
  destruct (seo_description sd) as [description|]; [|discriminate Hout].
  cbn [mbind result_bind] in Hout.
  destruct (py_len (seo_title (BeautifulSoup html) sd)) as [title_len|];
    [|discriminate Hout].
  cbn [mbind result_bind] in Hout.
  destruct (py_len description) as [description_len|]; [|discriminate Hout].
  cbn [mbind result_bind] in Hout. injection Hout as <-. split.
  - eexists. split; [lookup_hnf; reflexivity|].
    repeat match goal with
    | |- context [b2z ?b ?n] =>
        let Hr := fresh "Hr" in
        pose proof (b2z_range b n ltac:(lia)) as Hr;
        generalize dependent (b2z b n); intros
    end.
    lia.
  - rewrite !dom_insert_L, dom_empty_L. set_solver.
Qed.

Lemma evaluate_seo_score_range_witness :
  ∃ score,
    result_field (@evaluate_seo sample_platform sample_html None) "score"
    = Some (JInt score)
    ∧ 0 <= score <= 100.
Proof.
  assert (Hscore : result_field (@evaluate_seo sample_platform sample_html None)
                     "score" = Some (JInt 65)) by (vm_compute; reflexivity).
  destruct (@evaluate_seo sample_platform sample_html None) as [out|] eqn:E.
  - destruct (@evaluate_seo_score_range sample_platform sample_html None out E)
      as [(score & Hs & Hr) _].
    exists score. split; [exact Hs | exact Hr].
  - discriminate Hscore.
Defined.

(** X21.  On the request that the pipeline builds for a page, the SEO
    analyzer never raises: scored with the [scraping_data] that the scraper
    extracted from the same page, [evaluate_seo] returns, its title is the
    one [parse_basic_structure] found and its description the one
    [extract_meta_tags] found (empty when there is none), and the score is
    the stated sum for them. *)
Theorem evaluate_seo_on_scraped_page `{Platform} (html u : string) :
  let soup := BeautifulSoup html in
  let title := (parse_basic_structure html (Some u)).(bs_title) in
  let description := default "" (extract_meta_tags html !! "description") in
  ∃ out,
    evaluate_seo html (Some (JDict (scraping_data_of html u))) = Ok out
    ∧ out !! "title_length" = Some (JInt (slen title))
    ∧ out !! "meta_description_length" = Some (JInt (slen description))
    ∧ out !! "score"
      = Some (JInt (seo_score_spec title description (count_tags soup "h1")
                 (bool_decide (is_Some (find_rel soup "link" "canonical")))
                 (bool_decide (is_Some (find_attr soup "meta" "name" "robots")))
                 (seo_open_graph soup))).
Proof.
  intros soup title description.
  set (sd := scraping_data_of html u).
  assert (Hsd : or_empty_dict (Some (JDict sd)) = Ok sd).
  { unfold or_empty_dict. simpl.
    rewrite bool_decide_eq_false_2; [reflexivity|].
    intros He. apply (f_equal (λ m : gmap string json, m !! "title")) in He.
    discriminate He. }
  assert (Ht : seo_title (BeautifulSoup html) sd = JStr title).
  { unfold seo_title.
    change (sd !! "title") with (Some (JStr title)).
    unfold py_or. rewrite truthy_JStr.
    destruct (bool_decide (title ≠ "")); reflexivity. }
  assert (Hd : seo_description sd = Ok (JStr description)).
  { unfold seo_description.
    change (sd !! "meta_tags")
      with (Some (JDict (JStr <$> extract_meta_tags html))).
    cbn [mbind result_bind]. rewrite lookup_fmap. unfold description.
    destruct (extract_meta_tags html !! "description") as [d|];
      cbn [fmap option_fmap option_map default from_option id]; [|reflexivity].
    unfold py_or. rewrite truthy_JStr.
    destruct (bool_decide (d ≠ "")) eqn:E; [reflexivity|].
    apply bool_decide_eq_false in E.
    destruct d; [reflexivity | exfalso; apply E; discriminate]. }
  destruct (evaluate_seo_score html (Some (JDict sd)) sd title description
              Hsd Ht Hd) as (out & Hout & Hs & _).
  exists out. split; [exact Hout|].
  unfold evaluate_seo in Hout. rewrite Hsd in Hout.
  cbn [mbind result_bind] in Hout. rewrite Ht, Hd in Hout.
  cbn [mbind result_bind py_len] in Hout. injection Hout as Hout.
  split; [rewrite <- Hout; lookup_hnf; reflexivity|].
  split; [rewrite <- Hout; lookup_hnf; reflexivity|].
  exact Hs.
Qed.

(** ** The handler of the processing server, for every request *)

(** X22.  The handler of the processing server answers every request, and
    with one of two shapes.  The response is [{status: success,
    processing_data}], the data having the seven analyzer fields, exactly
    when the request was received, is a JSON object, its [url] is true and
    its [tasks] (an empty object when missing) is an object; in every other
    case the response is [{status: error, error}] with a message, and has
    no [processing_data]. *)
Theorem handle_response_shape `{Platform} `{Analyzers}
    (received : result json) :
  let resp := handle_response received in
  let well_formed :=
    ∃ payload tasks, received = Ok (JDict payload)
                   ∧ truthy_opt (payload !! "url") = true
                   ∧ default (JDict ∅) (payload !! "tasks") = JDict tasks in
  (well_formed ∧ ∃ pd, resp = <["status" := JStr "success"]>
                              (<["processing_data" := JDict pd]> ∅)
                     ∧ dom pd = processing_fields)
  ∨ (¬ well_formed ∧ ∃ msg, resp = error_doc msg).
Proof.
  intros resp well_formed. unfold resp, well_formed, handle_response.
  destruct received as [payload|exc]; cbn [mbind result_bind].
  - destruct payload as [| | | | |payload];
      try (right; split; [intros (p & t & [=] & _) | eexists; reflexivity]).
    destruct (truthy_opt (payload !! "url")) eqn:Eu; cbn [negb].
    + destruct (default (JDict ∅) (payload !! "tasks")) as [| | | | |tasks] eqn:Et;
        try (right; split;
             [intros (p & t & [= <-] & _ & Ht); rewrite Et in Ht; discriminate Ht
             | eexists; reflexivity]).
      left. split; [exists payload, tasks; auto|].
      destruct (process_tasks_returns (default JNull (payload !! "url"))
                  (default (JList []) (payload !! "image_urls"))
                  (default (JStr "") (payload !! "html"))
                  (default (JDict ∅) (payload !! "scraping_data")) tasks)
        as (out & calls & Heq & Hdom).
      rewrite Heq. cbn [mbind result_bind]. exists out. auto.
    + right. split; [|eexists; reflexivity].
      intros (p & t & [= <-] & Hu & _). congruence.
  - right. split; [intros (p & t & [=] & _) | eexists; reflexivity].
Qed.

(** ** The image limit *)


















(** ** Strings *)

Lemma str_le_cons x s y t :
  str_le (String x s) (String y t)
  ↔ (N_of_ascii x < N_of_ascii y)%N ∨ (x = y ∧ str_le s t).
Proof.
  unfold str_le, String.leb. cbn [String.compare]. unfold Ascii.compare.
  destruct (N.compare_spec (N_of_ascii x) (N_of_ascii y)) as [He|Hl|Hg].
  - assert (x = y) as ->.
    { rewrite <- (ascii_N_embedding x), <- (ascii_N_embedding y), He.
      reflexivity. }
    split; [intros Hs; right; auto | intros [Hl|[_ Hs]]; [lia | exact Hs]].
  - split; [intros _; left; exact Hl | reflexivity].
  - split; [discriminate|]. intros [Hl|[-> _]]; lia.
Qed.

Lemma str_le_trans : Transitive str_le.
Proof.
  intros a. induction a as [|x a IH]; intros [|y b] [|z c] Hab Hbc;
    try reflexivity; try discriminate.
  apply str_le_cons in Hab, Hbc. apply str_le_cons.
  destruct Hab as [Hab|[-> Hab]], Hbc as [Hbc|[-> Hbc]];
    [left; lia | left; exact Hab | left; exact Hbc |].
  right. split; [reflexivity|]. exact (IH _ _ Hab Hbc).
Qed.

Lemma str_le_total : Total str_le.
Proof. intros a b. apply String.leb_total. Qed.

Lemma str_le_antisymm : AntiSymm (=) str_le.
Proof. intros a b. apply String.leb_antisym. Qed.

#[local] Existing Instances str_le_trans str_le_total str_le_antisymm.

Lemma prefix_spec a b :
  String.prefix a b = true ↔ ∃ post, b = a +:+ post.
Proof.
  revert b. induction a as [|x a IH]; intros b.
  - destruct b; cbn; split; eauto.
  - destruct b as [|y b]; cbn.
    + split; [discriminate | intros [post Hp]; discriminate Hp].
    + destruct (Ascii.ascii_dec x y) as [->|Hne].
      * rewrite IH. split; intros [post Hp]; exists post.
        -- change (String y b = String y (a +:+ post)). f_equal. exact Hp.
        -- change (String y b = String y (a +:+ post)) in Hp.
           injection Hp as Hp. exact Hp.
      * split; [discriminate|]. intros [post Hp].
        change (String y b = String x (a +:+ post)) in Hp.
        injection Hp as Hxy _. congruence.
Qed.

Lemma append_cons x (a b : string) : String x a +:+ b = String x (a +:+ b).
Proof. reflexivity. Qed.

Lemma contains_spec needle hay :
  contains needle hay = true ↔ ∃ pre post, hay = pre +:+ needle +:+ post.
Proof.
  induction hay as [|c hay IH]; cbn [contains].
  - rewrite orb_false_r, prefix_spec. split.
    + intros [post Hp]. exists "", post. exact Hp.
    + intros ([|x pre] & post & Hp); [exists post; exact Hp|].
      rewrite append_cons in Hp. discriminate Hp.
  - rewrite orb_true_iff, prefix_spec, IH. split.
    + intros [[post Hp]|(pre & post & Hp)].
      * exists "", post. exact Hp.
      * exists (String c pre), post. rewrite append_cons. congruence.
    + intros ([|x pre] & post & Hp).
      * left. exists post. exact Hp.
      * right. exists pre, post. rewrite append_cons in Hp. congruence.
Qed.

Lemma append_assoc (a b c : string) : (a +:+ b) +:+ c = a +:+ b +:+ c.
Proof.
  induction a as [|x a IH]; [reflexivity|].
  rewrite !append_cons. congruence.
Qed.

Lemma contains_trans a b hay :
  contains a b = true → contains b hay = true → contains a hay = true.
Proof.
  rewrite !contains_spec.
  intros (p1 & q1 & ->) (p2 & q2 & ->).
  exists (p2 +:+ p1), (q1 +:+ q2). rewrite !append_assoc. reflexivity.
Qed.

(** ** The technology detector *)

Lemma filter_keys {B} (f : B → bool) (l : list (string * B)) :
  NoDup l.*1 →
  (List.filter (λ m, f m.2) l).*1
  = List.filter (λ k, existsb (λ m, String.eqb m.1 k && f m.2) l) l.*1.
Proof.
  induction l as [|[k v] l IH]; [reflexivity|]. cbn [fmap list_fmap fst].
  intros Hnd. apply NoDup_cons in Hnd as [Hk Hnd].
  cbn [List.filter existsb fst snd]. rewrite String.eqb_refl. cbn [andb].
  assert (Hhead : existsb (λ m, String.eqb m.1 k && f m.2) l = false).
  { apply not_true_is_false. intros He. apply existsb_exists in He
      as ([k' v'] & Hin & Hm). apply andb_true_iff in Hm as [Hm _].
    apply String.eqb_eq in Hm. cbn in Hm. subst k'. apply Hk.
    apply list_elem_of_In, in_map_iff. exists (k, v'). auto. }
  rewrite Hhead, orb_false_r.
  assert (Hrest : List.filter
            (λ k0, String.eqb k k0 && f v
                   || existsb (λ m, String.eqb m.1 k0 && f m.2) l) l.*1
          = List.filter
              (λ k0, existsb (λ m, String.eqb m.1 k0 && f m.2) l) l.*1).
  { apply List.filter_ext_in. intros k0 Hin.
    destruct (String.eqb_spec k k0) as [->|Hne]; [|reflexivity].
    exfalso. apply Hk. apply list_elem_of_In. exact Hin. }
  rewrite Hrest. destruct (f v); cbn [fmap list_fmap fst];
    rewrite IH by exact Hnd; reflexivity.
Qed.

Lemma filter_Permutation_bool {A} (p : A → bool) l1 l2 :
  l1 ≡ₚ l2 → List.filter p l1 ≡ₚ List.filter p l2.
Proof.
  induction 1 as [|x l1 l2 _ IH|x y l|l1 l2 l3 _ IH1 _ IH2]; cbn.
  - reflexivity.
  - destruct (p x); [constructor|]; exact IH.
  - destruct (p x), (p y); try reflexivity. apply perm_swap.
  - etransitivity; eassumption.
Qed.

Lemma StronglySorted_filter_bool {A} (R : relation A) (p : A → bool) l :
  StronglySorted R l → StronglySorted R (List.filter p l).
Proof.
  induction 1 as [|x l Hs IH Hx]; cbn; [constructor|].
  destruct (p x); [|exact IH]. constructor; [exact IH|].
  apply Forall_forall. intros y Hy. apply list_elem_of_In in Hy.
  apply filter_In in Hy as [Hy _]. rewrite Forall_forall in Hx.
  apply Hx, list_elem_of_In. exact Hy.
Qed.

Lemma detect_technologies_sorted_filter `{Platform} `{Text} html :
  advanced.detect_technologies html
  = List.filter (detected (advanced.haystack_of html)) sorted_labels.
Proof.
  unfold advanced.detect_technologies.
  assert (Hlabels : sorted_labels = merge_sort str_le advanced.markers.*1)
    by (vm_compute; reflexivity).
  apply (Sorted_unique str_le).
  - apply Sorted_merge_sort. apply _.
  - apply StronglySorted_Sorted, StronglySorted_filter_bool.
    rewrite Hlabels. apply StronglySorted_merge_sort; apply _.
  - rewrite merge_sort_Permutation.
    rewrite (filter_keys (advanced.any_clue (advanced.haystack_of html)));
      [|apply (bool_decide_unpack _); vm_compute; reflexivity].
    apply filter_Permutation_bool. rewrite Hlabels.
    symmetry. apply merge_sort_Permutation.
Qed.

(** X24.  [detect_technologies] returns the labels whose clues occur in the
    haystack (the lower-cased page, script sources and stylesheet links),
    each once and always in the order Angular, Bootstrap, Django, Drupal,
    Laravel, Next.js, Nuxt.js, React, Svelte, TailwindCSS, Vue, WordPress,
    jQuery (upper case sorts before lower case).  A clue is looked for as a
    substring, so React is reported exactly when the haystack contains
    [react], and Vue exactly when it contains [v-bind:] or [vue]: the
    longer clues [data-reactroot], [vuejs] and [vue.js] add nothing. *)
Theorem detect_technologies_labels `{Platform} `{Text} (html : string) :
  let haystack := advanced.haystack_of html in
  let found := advanced.detect_technologies html in
  found = List.filter (detected haystack) sorted_labels
  ∧ StronglySorted str_le found
  ∧ NoDup found
  ∧ ("React" ∈ found ↔ contains "react" haystack = true)
  ∧ ("Vue" ∈ found
     ↔ contains "v-bind:" haystack = true ∨ contains "vue" haystack = true).
Proof.
  intros haystack found. unfold found, haystack.
  rewrite detect_technologies_sorted_filter.
  set (h := advanced.haystack_of html).
  assert (Hs : StronglySorted str_le sorted_labels).
  { assert (Hlabels : sorted_labels = merge_sort str_le advanced.markers.*1)
      by (vm_compute; reflexivity).
    rewrite Hlabels. apply StronglySorted_merge_sort; apply _. }
  assert (Hnd : NoDup sorted_labels)
    by (apply (bool_decide_unpack _); vm_compute; reflexivity).
  split; [reflexivity|]. split; [apply StronglySorted_filter_bool; exact Hs|].
  split.
  { apply NoDup_ListNoDup, List.NoDup_filter, NoDup_ListNoDup. exact Hnd. }
  assert (Hin : ∀ label, label ∈ sorted_labels →
            label ∈ List.filter (detected h) sorted_labels
            ↔ detected h label = true).
  { intros label Hl. rewrite list_elem_of_In, filter_In, <- list_elem_of_In.
    tauto. }
  split.
  - rewrite Hin by (apply list_elem_of_In; cbn; auto 20).
    assert (Hd : detected h "React"
                 = contains "data-reactroot" h || contains "react" h).
    { unfold detected, advanced.markers, advanced.any_clue. cbn.
      rewrite !orb_false_r. reflexivity. }
    rewrite Hd, orb_true_iff. split; [|auto].
    intros [Hc|Hc]; [|exact Hc].
    apply (contains_trans _ "data-reactroot"); [reflexivity | exact Hc].
  - rewrite Hin by (apply list_elem_of_In; cbn; auto 20).
    assert (Hd : detected h "Vue"
                 = contains "v-bind:" h
                   || (contains "vuejs" h
                       || (contains "vue.js" h || contains "vue" h))).
    { unfold detected, advanced.markers, advanced.any_clue. cbn.
      rewrite !orb_false_r. reflexivity. }
    rewrite Hd, !orb_true_iff. split; [|tauto].
    intros [Hc|[Hc|[Hc|Hc]]]; [left; exact Hc | right | right | right; exact Hc].
    + apply (contains_trans _ "vuejs"); [reflexivity | exact Hc].
    + apply (contains_trans _ "vue.js"); [reflexivity | exact Hc].
Qed.

(** ** Structured data *)

Lemma structured_data_loop_objects `{Text} scripts : ∀ acc l,
  Forall (λ v, is_dict v = true) acc →
  advanced.structured_data_loop scripts acc = Ok l →
  Forall (λ v, is_dict v = true) l.
Proof.
  induction scripts as [|script scripts IH]; intros acc l Hacc; cbn.
  - intros [= <-]. exact Hacc.
  - destruct (json_loads_str (tag_text script)) as [[| | | |data|d]|e].
    + apply IH. exact Hacc.
    + apply IH. exact Hacc.
    + apply IH. exact Hacc.
    + apply IH. exact Hacc.
    + apply IH. apply Forall_app. split; [exact Hacc|].
      apply Forall_forall. intros v Hv. apply list_elem_of_In in Hv.
      apply filter_In in Hv as [_ Hv]. exact Hv.
    + apply IH. apply Forall_app. split; [exact Hacc|].
      repeat constructor.
    + destruct e; try discriminate. apply IH. exact Hacc.
Qed.

Lemma structured_data_loop_returns `{Text} scripts : ∀ acc,
  (∀ text e, json_loads_str text = Raise e → ∃ msg, e = JSONDecodeError msg) →
  ∃ l, advanced.structured_data_loop scripts acc = Ok l.
Proof.
  induction scripts as [|script scripts IH]; intros acc Hjson; cbn.
  - eexists. reflexivity.
  - destruct (json_loads_str (tag_text script)) as [[| | | |data|d]|e] eqn:E;
      try (apply IH; exact Hjson).
    destruct (Hjson _ _ E) as [msg ->]. apply IH. exact Hjson.
Qed.

(** X25.  Whatever the [application/ld+json] blocks of a page hold,
    [extract_structured_data] returns objects only: a block that is a list
    contributes its items that are objects, a block that is an object
    contributes itself, a block that is any other JSON value contributes
    nothing, and a block that is not JSON is skipped.  As long as the JSON
    parser raises nothing but [JSONDecodeError], the function returns. *)
Theorem extract_structured_data_objects `{Platform} `{Text} (html : string) :
  (∀ l, advanced.extract_structured_data html = Ok l →
        Forall (λ v, is_dict v = true) l)
  ∧ ((∀ text e, json_loads_str text = Raise e →
                ∃ msg, e = JSONDecodeError msg) →
     ∃ l, advanced.extract_structured_data html = Ok l).
Proof.
  unfold advanced.extract_structured_data. split.
  - intros l. apply structured_data_loop_objects. constructor.
  - apply structured_data_loop_returns.
Qed.

(** ** Accessibility *)

Lemma omap_imap_bound {A} (f : nat → A → bool) (l : list A) : ∀ base,
  let found := omap id (imap (λ idx x, if f (base + idx)%nat x
                                        then Some (base + idx)%nat else None) l) in
  Forall (λ idx, (base <= idx < base + length l)%nat) found
  ∧ (length found <= length l)%nat.
Proof.
  induction l as [|x l IH]; intros base; cbn.
  - split; [constructor | lia].
  - specialize (IH (S base)).
    assert (Heq : imap ((λ idx x0, if f (base + idx)%nat x0
                                    then Some (base + idx)%nat else None) ∘ S) l
                  = imap (λ idx x0, if f (S base + idx)%nat x0
                                    then Some (S base + idx)%nat else None) l).
    { apply imap_ext. intros i y _. cbn.
      replace (base + S i)%nat with (S (base + i)) by lia. reflexivity. }
    rewrite Heq. cbn in IH. destruct IH as [IHf IHl].
    rewrite Nat.add_0_r.
    assert (Hw : Forall (λ idx, (base <= idx < base + S (length l))%nat)
                   (omap id (imap (λ idx x0, if f (S (base + idx)) x0
                                             then Some (S (base + idx))
                                             else None) l))).
    { eapply Forall_impl; [exact IHf|]. cbn. intros; lia. }
    destruct (f base x); cbn.
    + split; [constructor; [lia | exact Hw] | lia].
    + split; [exact Hw | lia].
Qed.

(** X26.  The accessibility report: its [score] is [100] less ten for every
    issue listed, and never below zero, so it is a whole number from 0 to
    100, it is 100 exactly when the four lists of issues are empty, and it
    is 0 from ten issues on.  A list never has more entries than the page
    has elements of its kind, and [buttons_without_text] holds positions
    among the [button] elements of the page. *)
Theorem analyze_accessibility_score `{Platform} `{Text} (html : string) :
  let soup := BeautifulSoup html in
  let issues := advanced.find_issues html in
  let total :=
    (length issues.(advanced.images_missing_alt)
     + length issues.(advanced.links_without_text)
     + length issues.(advanced.buttons_without_text)
     + length issues.(advanced.contrast_warnings))%nat in
  ∃ score,
    advanced.analyze_accessibility html !! "score" = Some (JInt score)
    ∧ 0 <= score <= 100
    ∧ score = Z.max 0 (100 - 10 * Z.of_nat total)
    ∧ (score = 100 ↔ total = 0%nat)
    ∧ (score = 0 ↔ (10 <= total)%nat)
    ∧ (length issues.(advanced.images_missing_alt)
       <= length (find_all soup "img"))%nat
    ∧ (length issues.(advanced.links_without_text)
       <= length (find_all soup "a"))%nat
    ∧ (length issues.(advanced.contrast_warnings) <= length soup)%nat
    ∧ Forall (λ idx, (idx < length (find_all soup "button"))%nat)
        issues.(advanced.buttons_without_text).
Proof.
  intros soup issues total. eexists. split; [reflexivity|].
  fold issues. fold total.
  replace (Z.of_nat (length (advanced.images_missing_alt issues))
           + Z.of_nat (length (advanced.links_without_text issues))
           + Z.of_nat (length (advanced.buttons_without_text issues))
           + Z.of_nat (length (advanced.contrast_warnings issues)))
    with (Z.of_nat total) by (unfold total; lia).
  split; [lia|]. split; [lia|]. split; [lia|]. split; [lia|].
  unfold issues, advanced.find_issues. fold soup.
  cbn [advanced.images_missing_alt advanced.links_without_text
       advanced.contrast_warnings advanced.buttons_without_text].
  split; [|split; [|split]].
  - rewrite length_fmap. apply List.filter_length_le.
  - rewrite length_fmap. apply List.filter_length_le.
  - apply length_omap_le.
  - pose proof (omap_imap_bound (λ _ button, blank (Some (tag_text button)))
                  (find_all soup "button") 0) as [Hb _].
    cbn in Hb. eapply Forall_impl; [exact Hb|]. cbn. intros; lia.
Qed.

(** ** Thumbnails *)

(** X27.  [generate_thumbnails] returns at most [max_images] thumbnails and
    at most one for each URL, whatever the downloads and the image library
    do: a URL that cannot be fetched or decoded is passed over, and URLs
    after the first [max_images] are not fetched. *)
Theorem generate_thumbnails_bound `{Imaging} (image_urls : list json)
    (size max_images : Z) :
  0 <= max_images →
  let thumbs := image_processor.generate_thumbnails image_urls size max_images in
  Z.of_nat (length thumbs) <= max_images
  ∧ (length thumbs <= length image_urls)%nat
  ∧ thumbs
    = image_processor.generate_thumbnails
        (take (Z.to_nat max_images) image_urls) size max_images.
Proof.
  intros Hmax thumbs. unfold thumbs, image_processor.generate_thumbnails.
  unfold slice_to. destruct (Z.leb_spec 0 max_images); [|lia].
  rewrite take_take, Nat.min_id.
  pose proof (length_omap_le
    (λ url, match thumbnail_png url size with
            | Ok png => Some png
            | Raise _ => None
            end) (take (Z.to_nat max_images) image_urls)) as Hl.
  rewrite length_take in Hl. split; [lia|]. split; [lia | reflexivity].
Qed.

Lemma generate_thumbnails_bound_witness :
  (length (@image_processor.generate_thumbnails sample_imaging
             [JStr "https://example.com/a.png"; JStr "https://example.com/b.png";
              JStr "https://example.com/c.png"; JStr "https://example.com/d.png"]
             160 3) <= 4)%nat.
Proof.
  exact (proj1 (proj2 (@generate_thumbnails_bound sample_imaging
                         [JStr "https://example.com/a.png";
                          JStr "https://example.com/b.png";
                          JStr "https://example.com/c.png";
                          JStr "https://example.com/d.png"] 160 3
                         ltac:(lia)))).
Defined.

(** ** The client against the server *)

Lemma as_status_payload_status `{Datetime} r :
  as_status_payload r !! "status" = Some (JStr r.(status)).
Proof.
  unfold as_status_payload.
  destruct (result_ r) as [res|]; [destruct (truthy (JDict res));
    [destruct (res !! "status")|]|];
    rewrite ?lookup_insert_ne by discriminate;
    (destruct (error r) as [[|a s]|];
     rewrite ?lookup_insert_ne by discriminate; reflexivity).
Qed.

Lemma as_status_payload_error `{Datetime} r :
  r.(result_) = None →
  default (JStr "tarea fallida") (as_status_payload r !! "error")
  = JStr (error_or r.(error) "tarea fallida").
Proof.
  intros Hres. unfold as_status_payload, error_or. rewrite Hres.
  destruct (error r) as [[|a s]|]; [reflexivity| |reflexivity].
  rewrite lookup_insert_eq. reflexivity.
Qed.

(** X28.  The polling client against the scraping server, in any state that
    the server reaches.  One turn of [wait_for_completion] ends the wait
    with [RuntimeError("task_id inexistente")] when no task has the
    identifier, with the result document of the task ([task_id] added) when
    the task is [completed], and with [RuntimeError] carrying the stored
    error message (["tarea fallida"] when that is empty) when the task is
    [failed].  While the task is in any other status the client raises
    [TimeoutError] if the deadline has been reached at that turn, and polls
    again otherwise; so the status is looked at at least once, also when
    the deadline has passed on entry. *)
Theorem wait_for_completion_turn `{Platform} `{Datetime}
    (reply_ok : json → Prop) (rate_limit cache_ttl : Z) (app : App)
    (tid : string) (deadline now : Z) (rest : list Poll) :
  reachable reply_ok rate_limit cache_ttl app →
  let waiting := wait_for_completion deadline (server_poll app tid now :: rest) in
  match app.(task_manager) !! tid with
  | None => waiting = Raised (RuntimeError (JStr "task_id inexistente"))
  | Some r =>
      (r.(status) = "completed" →
       ∃ res, r.(result_) = Some res
            ∧ waiting = Returned (<["task_id" := JStr tid]> res))
      ∧ (r.(status) = "failed" →
         waiting
         = Raised (RuntimeError (JStr (error_or r.(error) "tarea fallida"))))
      ∧ (r.(status) ≠ "completed" → r.(status) ≠ "failed" →
         waiting
         = if deadline <=? now then
             Raised (WaitTimeout "Tiempo de espera agotado esperando resultado")
           else wait_for_completion deadline rest)
  end.
Proof.
  intros Hreach waiting. unfold waiting, server_poll.
  cbn [wait_for_completion status_response result_response clock].
  unfold handle_status, handle_result, manager_get.
  change (default "" ({[ "task_id" := tid ]} !! "task_id")) with tid.
  pose proof (reachable_status_ok _ _ _ _ Hreach) as (Hrec & _ & _).
  destruct (task_manager app !! tid) as [r|] eqn:Er; [|reflexivity].
  destruct (Hrec _ _ Er) as ((Hc & Hf) & Hq).
  cbn [fst json_response resp_status resp_body Z.eqb].
  rewrite as_status_payload_status. cbn [is_str].
  split; [|split].
  - intros Hs. destruct (Hc Hs) as ([res Hres] & _). exists res.
    split; [exact Hres|]. pose proof (Hq _ Hres) as Hok.
    rewrite Hs, Hres. cbn [String.eqb Ascii.eqb Bool.eqb negb orb truthy].
    rewrite (bool_decide_eq_false_2 _ (status_ok_nonempty _ Hok)).
    reflexivity.
  - intros Hs. destruct (Hf Hs) as (Hres & _).
    rewrite Hs. cbn [String.eqb Ascii.eqb Bool.eqb].
    rewrite (as_status_payload_error r Hres). reflexivity.
  - intros Hnc Hnf. apply String.eqb_neq in Hnc, Hnf. rewrite Hnc, Hnf.
    reflexivity.
Qed.

Lemma wait_for_completion_turn_witness :
  ∃ res,
    wait_for_completion (1700000120 * us)
      [@server_poll sample_datetime sample_app_refused sample_id
         (1700000004 * us)]
    = Returned (<["task_id" := JStr sample_id]> res).
Proof.
  pose proof (@wait_for_completion_turn sample_platform sample_datetime
                (λ _, True) 5 3600 sample_app_refused sample_id
                (1700000120 * us) (1700000004 * us) []
                (sample_app_refused_reachable (λ _, True) I)) as Hcase.
  cbv zeta in Hcase.
  destruct (task_manager sample_app_refused !! sample_id) as [r|] eqn:Er.
  - assert (Hs : status r = "completed").
    { assert (Hsome : (status <$> task_manager sample_app_refused !! sample_id)
                      = Some "completed") by (vm_compute; reflexivity).
      rewrite Er in Hsome. injection Hsome as Hsome. exact Hsome. }
    destruct (proj1 Hcase Hs) as (res & _ & Hw). exists res. exact Hw.
  - vm_compute in Er. discriminate Er.
Defined.

(** ** The handler of the processing server on the wire *)

(** X29.  Whatever arrives on a connection, the handler of the processing
    server writes exactly one frame back (the response being short enough
    for a header): the frame of the response that it builds for the request
    received.  When receiving fails, because the connection closed early,
    the length announced is invalid or the body is not JSON, that response
    is [{status: error, error}] with the message of the exception; the
    exception does not leave the handler. *)
Theorem handle_always_replies `{JsonCodec} `{Platform} `{Analyzers}
    (request : socket) :
  let resp := JDict (handle_response (fst <$> recv_message request)) in
  blen (json_dumps resp) < 2 ^ 32 →
  handle request = header_of (blen (json_dumps resp)) ++ json_dumps resp
  ∧ (∀ exc, recv_message request = Raise exc →
            resp = JDict (error_doc (exn_str exc)))
  ∧ (request = [] →
     resp = JDict (error_doc "Conexión cerrada inesperadamente"))
  ∧ reply_conforms resp.
Proof.
  intros resp Hsz. split; [|split; [|split]].
  - unfold handle. fold resp.
    rewrite (send_message_frame resp)
      by (pose proof (blen_nonneg (json_dumps resp)); lia).
    reflexivity.
  - intros exc Hexc. unfold resp. rewrite Hexc. reflexivity.
  - intros ->. reflexivity.
  - apply handle_reply_conforms.
Qed.

Lemma handle_always_replies_witness :
  @handle sample_codec sample_platform sample_analyzers []
  = header_of 40 ++ sample_text.
Proof.
  refine (proj1 (@handle_always_replies sample_codec sample_platform
                   sample_analyzers [] _)).
  vm_compute. reflexivity.
Defined.

(** ** Tasks and pipelines in step *)






